(** * Video-Downloader: the scraper core and the link-list format

    A shallow embedding of [video_scraper.py] (class [VideoScraper]),
    of the constants of [config.py] and of [DownloadManager.load_links]
    from [download_manager.py].

    - Python [str] values are lists of Unicode code points.
    - Python [int] values are [Z].
    - The third-party libraries ([requests], [bs4], [re]) are an
      interface, [Env]; the web server answers through it.
    - Effects (HTTP requests, sleeps, logger calls, the debug dump) are
      recorded in a trace that the functions thread through. *)

From Stdlib Require Import List ZArith NArith Lia Bool Ascii String Sorted.
From Stdlib Require DecimalZ.
Import ListNotations.

(* ================================================================= *)
(** ** Python strings *)

Module Py.

(** A character is a Unicode code point. *)
Definition char := N.
Definition str := list char.

(** An ASCII literal of the source. *)
Definition lit (s : string) : str :=
  map N_of_ascii (list_ascii_of_string s).

Definition chr_eqb (a b : char) : bool := N.eqb a b.

Definition LF : char := 10%N.
Definition CR : char := 13%N.
Definition SPACE : char := 32%N.

(** [str.isspace] on one character, the table of CPython's
    [_PyUnicode_IsWhitespace]. *)
Definition isspace (c : char) : bool :=
  ((9 <=? c) && (c <=? 13) || (28 <=? c) && (c <=? 32)
   || (c =? 133) || (c =? 160) || (c =? 5760)
   || (8192 <=? c) && (c <=? 8202)
   || (c =? 8232) || (c =? 8233) || (c =? 8239) || (c =? 8287)
   || (c =? 12288))%N.

Fixpoint str_eqb (a b : str) : bool :=
  match a, b with
  | [], [] => true
  | x :: a', y :: b' => chr_eqb x y && str_eqb a' b'
  | _, _ => false
  end.

(** [s.startswith(prefix)] *)
Fixpoint startswith (prefix s : str) : bool :=
  match prefix, s with
  | [], _ => true
  | p :: prefix', c :: s' => chr_eqb p c && startswith prefix' s'
  | _ :: _, [] => false
  end.

(** [s.lstrip()], [s.rstrip()], [s.strip()] *)
Fixpoint lstrip (s : str) : str :=
  match s with
  | [] => []
  | c :: s' => if isspace c then lstrip s' else s
  end.

Definition rstrip (s : str) : str := rev (lstrip (rev s)).

Definition strip (s : str) : str := rstrip (lstrip s).

(** [s.replace(old, new)] for a one-character [old]. *)
Fixpoint replace (old : char) (new : str) (s : str) : str :=
  match s with
  | [] => []
  | c :: s' =>
      if chr_eqb c old then new ++ replace old new s'
      else c :: replace old new s'
  end.

(** [s.split()]: the maximal runs of non-whitespace characters. *)
Fixpoint split (s : str) : list str :=
  match s with
  | [] => []
  | c :: s' =>
      if isspace c then split s'
      else
        match s' with
        | [] => [[c]]
        | d :: _ =>
            if isspace d then [c] :: split s'
            else
              match split s' with
              | w :: ws => (c :: w) :: ws
              | [] => [[c]]
              end
        end
  end.

(** [s.split(sep)] for a one-character [sep]: never the empty list. *)
Fixpoint split_on (sep : char) (s : str) : list str :=
  match s with
  | [] => [[]]
  | c :: s' =>
      if chr_eqb c sep then [] :: split_on sep s'
      else
        match split_on sep s' with
        | l :: ls => (c :: l) :: ls
        | [] => [[c]]
        end
  end.

(** [sep.join(parts)] *)
Fixpoint join (sep : str) (parts : list str) : str :=
  match parts with
  | [] => []
  | [p] => p
  | p :: ps => p ++ sep ++ join sep ps
  end.

(** [len(s)] *)
Definition len {A} (l : list A) : Z := Z.of_nat (List.length l).

(** [l[i]]: a negative index counts from the end; out of range is
    [IndexError], here [None]. *)
Definition index {A} (l : list A) (i : Z) : option A :=
  if (0 <=? i)%Z && (i <? len l)%Z then nth_error l (Z.to_nat i)
  else if (- len l <=? i)%Z && (i <? 0)%Z
       then nth_error l (Z.to_nat (len l + i))
       else None.

(** [range(start, stop)] *)
Definition range (start stop : Z) : list Z :=
  map (fun i => (start + Z.of_nat i)%Z) (seq 0 (Z.to_nat (stop - start))).

(** Decimal digits of a non-negative number. *)
Fixpoint digits (u : Decimal.uint) : str :=
  match u with
  | Decimal.Nil => []
  | Decimal.D0 u' => 48%N :: digits u'
  | Decimal.D1 u' => 49%N :: digits u'
  | Decimal.D2 u' => 50%N :: digits u'
  | Decimal.D3 u' => 51%N :: digits u'
  | Decimal.D4 u' => 52%N :: digits u'
  | Decimal.D5 u' => 53%N :: digits u'
  | Decimal.D6 u' => 54%N :: digits u'
  | Decimal.D7 u' => 55%N :: digits u'
  | Decimal.D8 u' => 56%N :: digits u'
  | Decimal.D9 u' => 57%N :: digits u'
  end.

Definition MINUS : char := 45%N.
Definition ZERO : char := 48%N.

(** [str(n)] for an [int]. *)
Definition str_of_int (n : Z) : str :=
  match Z.to_int n with
  | Decimal.Pos u => digits u
  | Decimal.Neg u => MINUS :: digits u
  end.

(** Zeros on the left up to [width] characters. *)
Definition zfill (width : nat) (s : str) : str :=
  repeat ZERO (width - List.length s) ++ s.

(** [format(n, "02d")]: the sign counts in the width, the zeros come
    after it. *)
Definition format_02d (n : Z) : str :=
  match Z.to_int n with
  | Decimal.Pos u => zfill 2 (digits u)
  | Decimal.Neg u => MINUS :: zfill 1 (digits u)
  end.

End Py.

Import Py.

(* ================================================================= *)
(** ** config.py *)

(** The constants the scraper reads. The settings of the session
    (REQUEST_TIMEOUT, AUTH_COOKIES, USER_AGENT) and the file names
    (DOWNLOAD_LINKS_FILE, DEBUG_HTML_FORMAT) are on the side of [Env]
    below. *)
Record Config := {
  BASE_URL : str;
  START_VIDEO_ID : Z;
  END_VIDEO_ID : Z;
  SEASON_EPISODES : list Z;
  STARTING_SEASON : Z;
  STARTING_EPISODE : Z;
  MIN_DELAY : Z;
  MAX_DELAY : Z;
  MAX_RETRIES : Z;
  VIDEO_URL_PATTERNS : list str;
  TITLE_SELECTORS : list str;
  (** A dict with one-character keys; iteration is in insertion order. *)
  FILENAME_REPLACE_CHARS : list (char * str);
  SAVE_DEBUG_HTML : bool;
  MIN_HTML_LENGTH : Z
}.

(** The nine characters of [FILENAME_REPLACE_CHARS]:
    backslash, slash, colon, asterisk, question mark, double quote,
    less-than, greater-than, pipe. *)
Definition unsafe_chars : list char :=
  [92; 47; 58; 42; 63; 34; 60; 62; 124]%N.

Definition UNDERSCORE : str := lit "_".

Definition default_replace_chars : list (char * str) :=
  map (fun c => (c, UNDERSCORE)) unsafe_chars.

(** The values of config.py. *)
Definition config : Config := {|
  BASE_URL := lit "https://7learn.com/panel/video/";
  START_VIDEO_ID := 5627;
  END_VIDEO_ID := 5634;
  SEASON_EPISODES := [19; 6; 10; 10; 7; 8]%Z;
  STARTING_SEASON := 6;
  STARTING_EPISODE := 1;
  MIN_DELAY := 3;
  MAX_DELAY := 7;
  MAX_RETRIES := 3;
  VIDEO_URL_PATTERNS :=
    [lit "https://s3\.7learn\.com/[^" ++ [34%N] ++ lit "\s]+\.mp4"];
  TITLE_SELECTORS := [lit "h1"];
  FILENAME_REPLACE_CHARS := default_replace_chars;
  SAVE_DEBUG_HTML := false;
  MIN_HTML_LENGTH := 1000
|}.

(** [FILENAME_FORMAT.format(season=, episode=, title=)] for the template
    of config.py, S{season:02d}-E{episode:02d}-{title}.mp4 *)
Definition FILENAME_FORMAT (season episode : Z) (title : str) : str :=
  lit "S" ++ format_02d season ++ lit "-E" ++ format_02d episode
  ++ lit "-" ++ title ++ lit ".mp4".

(* ================================================================= *)
(** ** The libraries and the server *)

(** What [soup.select_one(selector)] or [soup.find(selector)] gives:
    an element with its [.text], [None], or an exception. *)
Inductive lookup :=
| Element (text : str)
| NoElement
| LookupRaised.

(** One item of [re.findall]: a string, or with several groups in the
    pattern a tuple of strings, which is never empty. *)
Inductive re_match :=
| Whole (s : str)
| Groups (first : str) (others : list str).

(** What [session.get(url, timeout=REQUEST_TIMEOUT)] gives. *)
Inductive get_result :=
| Response (status_code : Z) (text : str)
| Timeout                       (* requests.exceptions.Timeout *)
| RequestFailed.                (* any other Exception *)

(** The parser and the regex engine are taken to return; a request
    can time out or fail otherwise, and a selector lookup can raise. *)
Record Env := {
  soup : Type;
  BeautifulSoup : str -> soup;              (* BeautifulSoup(text, "html.parser") *)
  select_one : soup -> str -> lookup;
  find : soup -> str -> lookup;
  re_findall : str -> str -> list re_match; (* re.findall(pattern, text, re.IGNORECASE) *)
  (** The answer to a request depends on how many requests came before
      and on the URL. *)
  session_get : nat -> str -> get_result;
  (** Whether the debug dump of a page can be written. *)
  debug_write_ok : Z -> bool
}.

(* ================================================================= *)
(** ** Effects *)

Inductive level := DEBUG | INFO | WARNING | ERROR.

(** The logger calls of [VideoScraper], with the values they format. *)
Inductive message :=
| MsgDebugSaved (video_id : Z)
| MsgDebugFailed (video_id : Z)
| MsgUrlFound (pattern : str)
| MsgNoUrl
| MsgTitleExtracted (selector : str)
| MsgTitleFailed (selector : str)
| MsgNoTitle
| MsgHttp (status_code video_id : Z)
| MsgTooShort (length video_id : Z)
| MsgAttempt (attempt max_retries video_id : Z)
| MsgRetrying
| MsgExtracted (video_id : Z) (filename : str)
| MsgTimeout (attempt video_id : Z)
| MsgError (attempt video_id : Z)
| MsgAllFailed (video_id : Z)
| MsgStarting (start_id end_id : Z)
| MsgFound (filename : str)
| MsgFailed (video_id : Z)
| MsgSeasonExceeded
| MsgWaiting
| MsgCompleted (found : Z)
| MsgLinksSaved
| MsgLinksFailed.

Inductive event :=
| Get (url : str)                (* self.session.get(url, ...) *)
| Sleep (low high : Z)           (* time.sleep(random.uniform(low, high)) *)
| DebugHtml (video_id : Z) (html : str)
| Log (lvl : level) (msg : message).

(** The trace, newest event first. *)
Definition world := list event.

Definition is_get (e : event) : bool :=
  match e with Get _ => true | _ => false end.

Definition requests (w : world) : nat := List.length (filter is_get w).

Definition M (A : Type) : Type := world -> A * world.

Definition ret {A} (a : A) : M A := fun w => (a, w).

Definition bind {A B} (m : M A) (k : A -> M B) : M B :=
  fun w => let (a, w') := m w in k a w'.

Notation "x <- m ;; k" := (bind m (fun x => k))
  (at level 61, m at next level, right associativity).
Notation "m ;; k" := (bind m (fun _ => k))
  (at level 61, right associativity).

Definition emit (e : event) : M unit := fun w => (tt, e :: w).

Definition log (lvl : level) (msg : message) : M unit := emit (Log lvl msg).

(** [delay = random.uniform(low, high)] then [time.sleep(delay)]: the
    trace keeps the window the delay is drawn from. [time.sleep]
    raises ValueError for a negative delay and OverflowError for one
    that its timer cannot hold; the sleep is modelled where it
    returns, which [sleep_returns] says of a window. *)
Definition sleep_uniform (low high : Z) : M unit := emit (Sleep low high).

(** A delay, in seconds, that the timer of [time.sleep] holds on every
    platform: the smallest of their limits is the 2^32 - 1
    milliseconds of the Windows timer. *)
Definition sleep_limit : Z := 4294967.

(** A window all of whose delays [time.sleep] takes:
    [random.uniform(low, high)] lies between [low] and [high]. The
    backoff windows of [get_video_info], 2 to 4 and 5 to 8, are of
    this kind. *)
Definition sleep_returns (low high : Z) : Prop :=
  (0 <= low <= sleep_limit)%Z /\ (0 <= high <= sleep_limit)%Z.

(* ================================================================= *)
(** ** video_scraper.py *)

(** One entry of the list [scrape_videos] returns. *)
Record VideoRecord := {
  url : str;
  filename : str;
  video_id : Z;
  season : Z;
  episode : Z
}.

(** How a function that can raise ends. *)
Inductive completion (A : Type) :=
| Returned (a : A)
| IndexError.
Arguments Returned {A} a.
Arguments IndexError {A}.

(** What the cursor update at the end of the loop body of
    [scrape_videos] leads to. *)
Inductive cursor_step :=
| Continue (season episode : Z)
| Break
| RaiseIndexError.

(** [m if isinstance(m, str) else m[0]] for an item [m] of
    [re.findall]. *)
Definition match_text (m : re_match) : str :=
  match m with
  | Whole s => s
  | Groups s _ => s
  end.

(** The loop [for char, replacement in table.items():
    filename = filename.replace(char, replacement)]. *)
Definition replace_chars (table : list (char * str)) (filename : str) : str :=
  fold_left (fun fn cr => replace (fst cr) (snd cr) fn) table filename.

Section Scraper.

Variable E : Env.
Variable cfg : Config.

Definition session_request (url : str) : M get_result :=
  fun w => (session_get E (requests w) url, Get url :: w).

(** [_is_page_loaded] *)
Definition _is_page_loaded (html_content : str) : bool :=
  (len html_content >=? MIN_HTML_LENGTH cfg)%Z.

(** [_save_debug_html] *)
Definition _save_debug_html (video_id : Z) (html_content : str) : M unit :=
  if negb (SAVE_DEBUG_HTML cfg) then ret tt
  else if debug_write_ok E video_id
       then emit (DebugHtml video_id html_content) ;;
            log DEBUG (MsgDebugSaved video_id)
       else log ERROR (MsgDebugFailed video_id).

(** [_extract_video_url]: the loop over the remaining patterns. *)
Fixpoint extract_video_url_from (patterns : list str) (html_content : str)
  : M (option str) :=
  match patterns with
  | [] => log WARNING MsgNoUrl ;; ret None
  | pattern :: patterns' =>
      match re_findall E pattern html_content with
      | [] => extract_video_url_from patterns' html_content
      | m :: _ =>
          let video_url := match_text m in
          log INFO (MsgUrlFound pattern) ;;
          ret (Some video_url)
      end
  end.

Definition _extract_video_url (html_content : str) : M (option str) :=
  extract_video_url_from (VIDEO_URL_PATTERNS cfg) html_content.

(** [_sanitize_filename] *)
Definition _sanitize_filename (filename : str) : str :=
  let filename := replace_chars (FILENAME_REPLACE_CHARS cfg) filename in
  join (lit " ") (split filename).

Definition Unknown_Title : str := lit "Unknown_Title".

(** The element a selector stands for: a CSS class selector goes to
    [select_one], a tag name to [find]. *)
Definition select_title (sp : soup E) (selector : str) : lookup :=
  if startswith (lit ".") selector then select_one E sp selector
  else find E sp selector.

(** [_extract_title]: the loop over the remaining selectors. *)
Fixpoint extract_title_from (selectors : list str) (sp : soup E) : M str :=
  match selectors with
  | [] => log WARNING MsgNoTitle ;; ret Unknown_Title
  | selector :: selectors' =>
      let title_element := select_title sp selector in
      match title_element with
      | Element text =>
          match strip text with
          | [] => extract_title_from selectors' sp
          | title =>
              log INFO (MsgTitleExtracted selector) ;;
              ret (_sanitize_filename title)
          end
      | NoElement => extract_title_from selectors' sp
      | LookupRaised =>
          log DEBUG (MsgTitleFailed selector) ;;
          extract_title_from selectors' sp
      end
  end.

Definition _extract_title (sp : soup E) : M str :=
  extract_title_from (TITLE_SELECTORS cfg) sp.

(** [_create_filename] *)
Definition _create_filename (season episode : Z) (title : str) : str :=
  FILENAME_FORMAT season episode title.

(** [_handle_request_error]: whether to retry. *)
Definition _handle_request_error (status_code : Z) (text : str)
  (video_id : Z) : M bool :=
  if negb (status_code =? 200)%Z then
    log ERROR (MsgHttp status_code video_id) ;; ret true
  else if negb (_is_page_loaded text) then
    log WARNING (MsgTooShort (len text) video_id) ;; ret true
  else ret false.

(** The tail of a failed attempt inside the [try]: sleep and go on, or
    on the last attempt return [None]. *)
Definition retry_or_give_up (attempt : Z)
  (continue : M (option (str * str))) : M (option (str * str)) :=
  if (attempt <? MAX_RETRIES cfg - 1)%Z then
    log INFO MsgRetrying ;; sleep_uniform 2 4 ;; continue
  else ret None.

(** [get_video_info]: the [for attempt in ...] loop over the remaining
    attempts, then the code after the loop. *)
Fixpoint attempts_from (attempts : list Z) (video_id season episode : Z)
  : M (option (str * str)) :=
  match attempts with
  | [] => log ERROR (MsgAllFailed video_id) ;; ret None
  | attempt :: attempts' =>
      let continue := attempts_from attempts' video_id season episode in
      log INFO (MsgAttempt (attempt + 1) (MAX_RETRIES cfg) video_id) ;;
      response <- session_request (BASE_URL cfg ++ str_of_int video_id) ;;
      match response with
      | Response status_code text =>
          retry <- _handle_request_error status_code text video_id ;;
          if (retry : bool) then retry_or_give_up attempt continue
          else
            let sp := BeautifulSoup E text in
            (if (attempt =? MAX_RETRIES cfg - 1)%Z
             then _save_debug_html video_id text else ret tt) ;;
            video_url <- _extract_video_url text ;;
            match video_url with
            | None | Some [] => retry_or_give_up attempt continue
            | Some video_url =>
                title <- _extract_title sp ;;
                let filename := _create_filename season episode title in
                log INFO (MsgExtracted video_id filename) ;;
                ret (Some (video_url, filename))
            end
      | Timeout =>
          log WARNING (MsgTimeout (attempt + 1) video_id) ;;
          if (attempt <? MAX_RETRIES cfg - 1)%Z then
            log INFO MsgRetrying ;; sleep_uniform 5 8 ;; continue
          else continue
      | RequestFailed =>
          log ERROR (MsgError (attempt + 1) video_id) ;;
          if (attempt <? MAX_RETRIES cfg - 1)%Z then
            log INFO MsgRetrying ;; sleep_uniform 2 4 ;; continue
          else continue
      end
  end.

Definition get_video_info (video_id season episode : Z)
  : M (option (str * str)) :=
  attempts_from (range 0 (MAX_RETRIES cfg)) video_id season episode.

(** The cursor update of [scrape_videos] (its lines 245 to 251). *)
Definition advance (season episode : Z) : cursor_step :=
  let episode := (episode + 1)%Z in
  match index (SEASON_EPISODES cfg) (season - 1) with
  | None => RaiseIndexError
  | Some count =>
      if (episode >? count)%Z then
        let episode := 1%Z in
        let season := (season + 1)%Z in
        if (season >? len (SEASON_EPISODES cfg))%Z then Break
        else Continue season episode
      else Continue season episode
  end.

(** The code of [scrape_videos] after its loop. *)
Definition scrape_done (videos : list VideoRecord)
  : M (completion (list VideoRecord)) :=
  log INFO (MsgCompleted (len videos)) ;;
  ret (Returned videos).

(** [scrape_videos]: the [for video_id in ...] loop over the remaining
    identifiers. The pacing sleep stands outside every [try]: with a
    window that [sleep_returns] does not hold of, the exception of
    [time.sleep] ends the run there, which the loop below does not
    show; what is stated of a run going on past a pacing sleep
    assumes [sleep_returns] of the window. *)
Fixpoint scrape_from (ids : list Z) (videos : list VideoRecord)
  (season episode : Z) : M (completion (list VideoRecord)) :=
  match ids with
  | [] => scrape_done videos
  | video_id :: ids' =>
      video_info <- get_video_info video_id season episode ;;
      videos <-
        match video_info with
        | Some (video_url, filename) =>
            log INFO (MsgFound filename) ;;
            ret (videos ++ [{| url := video_url; filename := filename;
                               video_id := video_id; season := season;
                               episode := episode |}])
        | None =>
            log WARNING (MsgFailed video_id) ;;
            ret videos
        end ;;
      match advance season episode with
      | RaiseIndexError => ret IndexError
      | Break =>
          log WARNING MsgSeasonExceeded ;;
          scrape_done videos
      | Continue season episode =>
          log INFO MsgWaiting ;;
          sleep_uniform (MIN_DELAY cfg) (MAX_DELAY cfg) ;;
          scrape_from ids' videos season episode
      end
  end.

Definition scrape_videos : M (completion (list VideoRecord)) :=
  log INFO (MsgStarting (START_VIDEO_ID cfg) (END_VIDEO_ID cfg)) ;;
  scrape_from (range (START_VIDEO_ID cfg) (END_VIDEO_ID cfg + 1)) []
              (STARTING_SEASON cfg) (STARTING_EPISODE cfg).

End Scraper.

(* ================================================================= *)
(** ** The link-list file *)

(** [os.linesep] differs between the platforms the tool runs on. *)
Inductive platform := Posix | Windows.

Definition linesep (p : platform) : str :=
  match p with
  | Posix => [LF]
  | Windows => [CR; LF]
  end.

(** A file opened with [open(name, 'w', encoding='utf-8')]: every
    newline written becomes [os.linesep]. *)
Fixpoint translate_out (p : platform) (s : str) : str :=
  match s with
  | [] => []
  | c :: s' =>
      if chr_eqb c LF then linesep p ++ translate_out p s'
      else c :: translate_out p s'
  end.

(** A file opened with [open(name, 'r', encoding='utf-8')]: universal
    newlines, a carriage return with or without a newline after it
    is read as one newline. *)
Fixpoint translate_in (s : str) : str :=
  match s with
  | [] => []
  | c :: s' =>
      if chr_eqb c CR then
        LF :: match s' with
              | [] => []
              | d :: s'' =>
                  if chr_eqb d LF then translate_in s'' else translate_in s'
              end
      else c :: translate_in s'
  end.

(** The strict UTF-8 encoder refuses the surrogate code points. *)
Definition encodable (c : char) : bool :=
  negb ((55296 <=? c) && (c <=? 57343))%N.

(** The [f.write] calls in order: the text the file holds when the
    [with] block is left, and whether every call went through. *)
Fixpoint write_all (p : platform) (chunks : list str) : str * bool :=
  match chunks with
  | [] => ([], true)
  | chunk :: chunks' =>
      if forallb encodable chunk then
        let (stored, ok) := write_all p chunks' in
        (translate_out p chunk ++ stored, ok)
      else ([], false)
  end.

(** The two [f.write] calls of [save_download_links] for one video. *)
Definition link_block (video : VideoRecord) : list str :=
  [url video ++ [LF]; lit "  out=" ++ filename video ++ [LF; LF]].

(** [save_download_links]: the text of the file afterwards, [None] when
    the file could not be opened. *)
Definition save_download_links (p : platform) (can_open : bool)
  (videos : list VideoRecord) : M (option str) :=
  if can_open then
    let (stored, ok) := write_all p (flat_map link_block videos) in
    (if ok then log INFO MsgLinksSaved else log ERROR MsgLinksFailed) ;;
    ret (Some stored)
  else
    log ERROR MsgLinksFailed ;; ret None.

(** [load_links]: the loop over the remaining lines. The entries of
    [download_links] are dicts with the keys 'url' and 'filename', here
    pairs. *)
Fixpoint parse_lines (lines : list str) (current_url : option str)
  (download_links : list (str * str)) : list (str * str) :=
  match lines with
  | [] => download_links
  | line :: lines' =>
      let line := strip line in
      if startswith (lit "https://") line then
        parse_lines lines' (Some line) download_links
      else
        match startswith (lit "out=") line, current_url with
        | true, Some ((_ :: _) as current) =>
            let filename := skipn 4 line in
            parse_lines lines' None (download_links ++ [(current, filename)])
        | _, _ => parse_lines lines' current_url download_links
        end
  end.

(** [DownloadManager.load_links] on the stored text of the links file,
    [None] when the file does not exist; [download_links] starts empty.
    The messages it prints and logs are left out. *)
Definition load_links (file : option str) : list (str * str) :=
  match file with
  | None => []
  | Some stored =>
      let content := translate_in stored in
      let lines := split_on LF (strip content) in
      parse_lines lines None []
  end.

(* ================================================================= *)
(** ** Small worlds to run the code in *)

Module Demo.

(** Whether [needle] occurs in [s]. *)
Fixpoint contains (needle s : str) : bool :=
  startswith needle s
  || match s with
     | [] => false
     | _ :: s' => contains needle s'
     end.

(** A page is its own soup; the selector [h1] finds the text between
    the first two [|] of the page, other selectors nothing. *)
Definition between_bars (page : str) : lookup :=
  match split_on 124%N page with
  | _ :: text :: _ :: _ => Element text
  | _ => NoElement
  end.

(** A pattern matches when it occurs literally, and matches itself. *)
Definition literal_findall (pattern text : str) : list re_match :=
  if contains pattern text then [Whole pattern] else [].

Definition page_of (title : str) : str :=
  lit "|" ++ title ++ lit "| https://x/a.mp4 " ++ repeat SPACE 30.

(** Every request is answered with [answer n], [n] the number of
    requests before it. *)
Definition env (answer : nat -> get_result) : Env := {|
  soup := str;
  BeautifulSoup := fun text => text;
  select_one := fun _ _ => NoElement;
  find := fun page selector =>
    if str_eqb selector (lit "h1") then between_bars page else NoElement;
  re_findall := literal_findall;
  session_get := fun n _ => answer n;
  debug_write_ok := fun _ => true
|}.

Definition always_ok : Env :=
  env (fun _ => Response 200 (page_of (lit "Demo"))).

Definition always_short : Env :=
  env (fun _ => Response 200 (lit "loading")).

(** The second of every three requests succeeds, the others time out. *)
Definition flaky : Env :=
  env (fun n => if Nat.eqb (Nat.modulo n 3) 1
                then Response 200 (page_of (lit "a/b: c?"))
                else Timeout).


(** A run over [first .. last] with the season table [seasons],
    from season 1 episode 1. *)
Definition cfg (first last : Z) (seasons : list Z) : Config := {|
  BASE_URL := lit "https://x/v/";
  START_VIDEO_ID := first;
  END_VIDEO_ID := last;
  SEASON_EPISODES := seasons;
  STARTING_SEASON := 1;
  STARTING_EPISODE := 1;
  MIN_DELAY := 3;
  MAX_DELAY := 7;
  MAX_RETRIES := 3;
  VIDEO_URL_PATTERNS := [lit "http://x/y.mp4"; lit "https://x/a.mp4"];
  TITLE_SELECTORS := [lit ".title"; lit "h1"];
  FILENAME_REPLACE_CHARS := default_replace_chars;
  SAVE_DEBUG_HTML := false;
  MIN_HTML_LENGTH := 40
|}.

(** config.py with a starting season one past its six seasons. *)
Definition late_start : Config := {|
  BASE_URL := BASE_URL config;
  START_VIDEO_ID := START_VIDEO_ID config;
  END_VIDEO_ID := END_VIDEO_ID config;
  SEASON_EPISODES := SEASON_EPISODES config;
  STARTING_SEASON := 7;
  STARTING_EPISODE := STARTING_EPISODE config;
  MIN_DELAY := MIN_DELAY config;
  MAX_DELAY := MAX_DELAY config;
  MAX_RETRIES := MAX_RETRIES config;
  VIDEO_URL_PATTERNS := VIDEO_URL_PATTERNS config;
  TITLE_SELECTORS := TITLE_SELECTORS config;
  FILENAME_REPLACE_CHARS := FILENAME_REPLACE_CHARS config;
  SAVE_DEBUG_HTML := SAVE_DEBUG_HTML config;
  MIN_HTML_LENGTH := MIN_HTML_LENGTH config
|}.

End Demo.

(* ================================================================= *)
(** ** Notions of the statements *)

(** A name with none of the nine unsafe characters. *)
Definition safe_name (s : str) : Prop :=
  forall c, In c unsafe_chars -> ~ In c s.

(** A run of characters that [split] returns as one item. *)
Definition word (w : str) : Prop :=
  w <> [] /\ Forall (fun c => isspace c = false) w.

(** [l1] is [l2] with some items left out. *)
Inductive Subseq {A : Type} : list A -> list A -> Prop :=
| Subseq_nil : forall l, Subseq [] l
| Subseq_take : forall x l1 l2, Subseq l1 l2 -> Subseq (x :: l1) (x :: l2)
| Subseq_skip : forall x l1 l2, Subseq l1 l2 -> Subseq l1 (x :: l2).

(** The identifiers the loop of [scrape_videos] reaches, each with the
    season and episode it is processed under: the cursor moves by
    [advance] after each one, and the loop ends where [advance] does
    not continue. *)
Fixpoint cursor_walk (cfg : Config) (ids : list Z) (season episode : Z)
  : list (Z * (Z * Z)) :=
  match ids with
  | [] => []
  | video_id :: ids' =>
      (video_id, (season, episode))
      :: match advance cfg season episode with
         | Continue season' episode' => cursor_walk cfg ids' season' episode'
         | _ => []
         end
  end.


Definition position (r : VideoRecord) : Z * (Z * Z) :=
  (video_id r, (season r, episode r)).

(** The events of one kind in a trace. *)
Definition count (p : event -> bool) (w : world) : nat :=
  List.length (filter p w).

(** The records of the result whose identifier satisfies [q]. *)
Definition records_where (q : Z -> bool) (videos : list VideoRecord) : nat :=
  List.length (filter (fun r => q (video_id r)) videos).

(** The skips in the trace whose identifier satisfies [q]; a skip is
    the warning "Failed to extract video ...". *)
Definition is_skip (q : Z -> bool) (e : event) : bool :=
  match e with
  | Log WARNING (MsgFailed v) => q v
  | _ => false
  end.

Definition skips_where (q : Z -> bool) (w : world) : nat :=
  count (is_skip q) w.

(** The records and the skips for one identifier. *)
Definition records_for (v : Z) (videos : list VideoRecord) : nat :=
  records_where (Z.eqb v) videos.

Definition skips_for (v : Z) (w : world) : nat :=
  skips_where (Z.eqb v) w.

(** Every identifier of the range has one record or one skip, and
    not both. *)
Definition one_outcome_each (E : Env) (cfg : Config) : Prop :=
  forall v, (START_VIDEO_ID cfg <= v <= END_VIDEO_ID cfg)%Z ->
  exists videos,
    fst (scrape_videos E cfg []) = Returned videos
    /\ (records_for v videos + skips_for v (snd (scrape_videos E cfg [])) = 1)%nat.

(** A computation that adds no event of the kind [p]. *)
Definition keeps {A : Type} (p : event -> bool) (m : M A) : Prop :=
  forall w, count p (snd (m w)) = count p w.

(** [n] numbers upwards from [k]. *)
Fixpoint count_from (k : Z) (n : nat) : list Z :=
  match n with
  | O => []
  | S n' => k :: count_from (k + 1) n'
  end.

(** The URL and the title the extractors find in a page. *)
Definition url_in (E : Env) (cfg : Config) (text : str) : option str :=
  fst (_extract_video_url E cfg text []).

Definition title_in (E : Env) (cfg : Config) (text : str) : str :=
  fst (_extract_title E cfg (BeautifulSoup E text) []).

(** An attempt that fails and may be retried: a status other than
    200, a short body, no URL in the body, a timeout, or another
    exception of the request. *)
Definition fails_retryably (E : Env) (cfg : Config) (r : get_result) : bool :=
  match r with
  | Response status_code text =>
      negb (status_code =? 200)%Z
      || negb (_is_page_loaded cfg text)
      || match url_in E cfg text with
         | None | Some [] => true
         | Some (_ :: _) => false
         end
  | Timeout => true
  | RequestFailed => true
  end.


(** The events the extractors, the request check and the debug dump
    add: log lines other than the skip warning, and the dump. *)
Definition detail (e : event) : bool :=
  match e with
  | Log _ (MsgFailed _) => false
  | Log _ _ => true
  | DebugHtml _ _ => true
  | Get _ => false
  | Sleep _ _ => false
  end.

(** [safe_name] as a test. *)
Definition safe_nameb (s : str) : bool :=
  forallb (fun c => negb (existsb (chr_eqb c) unsafe_chars)) s.

(** A record whose file name is the template filled with its season,
    its episode and the title extracted from some page. *)
Definition named_from_page (E : Env) (cfg : Config) (r : VideoRecord) : Prop :=
  exists text,
    filename r = _create_filename (season r) (episode r) (title_in E cfg text).

(** The list a run returns, empty when it raises. *)
Definition returned_videos (E : Env) (cfg : Config) (w : world)
  : list VideoRecord :=
  match fst (scrape_videos E cfg w) with
  | Returned videos => videos
  | IndexError => []
  end.

(** The season and episode each identifier of the range is processed
    under. *)
Definition cursors (cfg : Config) : list (Z * (Z * Z)) :=
  cursor_walk cfg (range (START_VIDEO_ID cfg) (END_VIDEO_ID cfg + 1))
              (STARTING_SEASON cfg) (STARTING_EPISODE cfg).

(** The identifiers a run reaches. *)
Definition reached (cfg : Config) : list Z := map fst (cursors cfg).

(** *** The link list *)

Definition pair_of (r : VideoRecord) : str * str := (url r, filename r).

(** No line feed and no carriage return. *)
Definition one_line (s : str) : bool :=
  forallb (fun c => negb (chr_eqb c LF || chr_eqb c CR)) s.

(** The last character, if there is one, is not whitespace. *)
Definition ends_clean (s : str) : bool :=
  match rev s with
  | [] => true
  | c :: _ => negb (isspace c)
  end.

(** What a record needs to come back from the link list as it went
    in. *)
Definition link_ok (r : VideoRecord) : Prop :=
  startswith (lit "https://") (url r) = true
  /\ one_line (url r) = true
  /\ ends_clean (url r) = true
  /\ forallb encodable (url r) = true
  /\ one_line (filename r) = true
  /\ ends_clean (filename r) = true
  /\ forallb encodable (filename r) = true.

(** The round trip under the two conditions of the spec alone. *)
Definition round_trip_as_stated : Prop :=
  forall p videos,
    Forall (fun r => startswith (lit "https://") (url r) = true
                     /\ ~ In LF (filename r)) videos ->
    load_links (fst (save_download_links p true videos []))
    = map pair_of videos.

(** The text of the link list without the two newlines at its end. *)
Fixpoint link_body (videos : list VideoRecord) : str :=
  match videos with
  | [] => []
  | r :: videos' =>
      url r ++ LF :: (lit "  out=" ++ filename r)
      ++ match videos' with
         | [] => []
         | _ :: _ => LF :: LF :: link_body videos'
         end
  end.

(** The lines of [link_body]. *)
Fixpoint link_lines (videos : list VideoRecord) : list str :=
  match videos with
  | [] => []
  | r :: videos' =>
      url r :: (lit "  out=" ++ filename r)
      :: match videos' with
         | [] => []
         | _ :: _ => [] :: link_lines videos'
         end
  end.

Module DemoLinks.

(** The record of the round-trip example of the spec. *)
Definition demo : VideoRecord := {|
  url := lit "https://x/a.mp4";
  filename := lit "S01-E01-Demo.mp4";
  video_id := 100; season := 1; episode := 1
|}.

(** The same with a space at the end of the URL. *)
Definition trailing_space : VideoRecord := {|
  url := lit "https://x/a.mp4 ";
  filename := lit "S01-E01-Demo.mp4";
  video_id := 100; season := 1; episode := 1
|}.

(** A carriage return inside the file name. *)
Definition carriage_return : VideoRecord := {|
  url := lit "https://x/a.mp4";
  filename := lit "S01-E01-De" ++ [CR] ++ lit "mo.mp4";
  video_id := 100; season := 1; episode := 1
|}.

(** A lone surrogate in the file name. *)
Definition surrogate : VideoRecord := {|
  url := lit "https://x/a.mp4";
  filename := lit "S01-E01-" ++ [55357%N] ++ lit ".mp4";
  video_id := 100; season := 1; episode := 1
|}.

End DemoLinks.

(* ================================================================= *)
(** ** Further notions *)

(** A string with a character that is not whitespace. *)
Definition has_ink (s : str) : bool :=
  existsb (fun c => negb (isspace c)) s.

Definition is_sleep (e : event) : bool :=
  match e with Sleep _ _ => true | _ => false end.

Definition is_dump (e : event) : bool :=
  match e with DebugHtml _ _ => true | _ => false end.

(** The sleeps after the last request of a trace. *)
Fixpoint sleeps_since_request (w : world) : nat :=
  match w with
  | [] => 0
  | Get _ :: _ => 0
  | Sleep _ _ :: w' => S (sleeps_since_request w')
  | _ :: w' => sleeps_since_request w'
  end.

(** A computation that puts events in front of the trace, all of
    them of the kind [P]. *)
Definition emits {A : Type} (P : event -> bool) (m : M A) : Prop :=
  forall w, exists new, snd (m w) = new ++ w /\ forallb P new = true.

(** The log lines among the details. *)
Definition log_detail (e : event) : bool :=
  match e with
  | Log _ (MsgFailed _) => false
  | Log _ _ => true
  | _ => false
  end.

(** What one turn of the loop of [get_video_info] does to the trace
    [w0] that already has the attempt line and the request: it adds
    details, with a dump only on the last attempt, and then either
    goes on with the remaining attempts, after a retry line and a
    backoff sleep unless this was the last attempt, or returns. *)
Definition attempt_outcome (E : Env) (cfg : Config) (a : Z) (rest : list Z)
  (v s e : Z) (w0 : world) (result : option (str * str) * world) : Prop :=
  exists details pause,
    forallb detail details = true
    /\ (count is_dump details
        <= if SAVE_DEBUG_HTML cfg && (a =? MAX_RETRIES cfg - 1)%Z
           then 1 else 0)%nat
    /\ (forall x, In x details -> is_dump x = true ->
          exists html, x = DebugHtml v html)
    /\ (pause = []
        \/ pause = [Sleep 2 4; Log INFO MsgRetrying]
        \/ pause = [Sleep 5 8; Log INFO MsgRetrying])
    /\ ((result = attempts_from E cfg rest v s e (pause ++ details ++ w0)
         /\ (pause = [] <-> (a <? MAX_RETRIES cfg - 1)%Z = false))
        \/ (exists r, result = (r, details ++ w0) /\ pause = [])).

(** What [get_video_info] may add to the trace for the identifier
    [v]: requests to its page, backoff sleeps of 2 to 4 or 5 to 8
    seconds, dumps of its page when SAVE_DEBUG_HTML is on, and log
    lines other than the skip warning. *)
Definition fetch_event (cfg : Config) (v : Z) (e : event) : bool :=
  match e with
  | Get u => str_eqb u (BASE_URL cfg ++ str_of_int v)
  | Sleep low high =>
      ((low =? 2) && (high =? 4) || (low =? 5) && (high =? 8))%Z
  | DebugHtml v' _ => (v' =? v)%Z && SAVE_DEBUG_HTML cfg
  | Log _ (MsgFailed _) => false
  | Log _ _ => true
  end.

(** What a run over the identifiers [ids] may add to the trace: what
    [get_video_info] may add for one of them, the pacing sleep, the
    skip warning for one of them, and the other log lines. *)
Definition run_event (cfg : Config) (ids : list Z) (e : event) : bool :=
  match e with
  | Get u => existsb (fun v => str_eqb u (BASE_URL cfg ++ str_of_int v)) ids
  | Sleep low high =>
      ((low =? 2) && (high =? 4) || (low =? 5) && (high =? 8)
       || (low =? MIN_DELAY cfg) && (high =? MAX_DELAY cfg))%Z
  | DebugHtml v _ => existsb (Z.eqb v) ids && SAVE_DEBUG_HTML cfg
  | Log _ (MsgFailed v) => existsb (Z.eqb v) ids
  | Log _ _ => true
  end.

(** A season of the table with an episode of that season. *)
Definition valid_position (cfg : Config) (s e : Z) : Prop :=
  (1 <= s <= len (SEASON_EPISODES cfg))%Z
  /\ exists n, index (SEASON_EPISODES cfg) (s - 1) = Some n /\ (1 <= e <= n)%Z.

(** Seasons first, then episodes. *)
Definition position_lt (a b : Z * Z) : Prop :=
  (fst a < fst b)%Z \/ (fst a = fst b /\ snd a < snd b)%Z.

Definition position_le (a b : Z * Z) : Prop :=
  a = b \/ position_lt a b.

(** The requests of a trace to the page of the identifier [v]. *)
Definition is_request_to (cfg : Config) (v : Z) (e : event) : bool :=
  match e with
  | Get u => str_eqb u (BASE_URL cfg ++ str_of_int v)
  | _ => false
  end.

Definition requests_to (cfg : Config) (v : Z) (w : world) : nat :=
  count (is_request_to cfg v) w.

(** *** Reading a file name *)

Definition is_digit (c : char) : bool := ((48 <=? c) && (c <=? 57))%N.

Definition digit_cons (c : char) (u : Decimal.uint) : Decimal.uint :=
  if (c =? 48)%N then Decimal.D0 u
  else if (c =? 49)%N then Decimal.D1 u
  else if (c =? 50)%N then Decimal.D2 u
  else if (c =? 51)%N then Decimal.D3 u
  else if (c =? 52)%N then Decimal.D4 u
  else if (c =? 53)%N then Decimal.D5 u
  else if (c =? 54)%N then Decimal.D6 u
  else if (c =? 55)%N then Decimal.D7 u
  else if (c =? 56)%N then Decimal.D8 u
  else if (c =? 57)%N then Decimal.D9 u
  else Decimal.Nil.

Definition uint_of_digits (s : str) : Decimal.uint :=
  fold_right digit_cons Decimal.Nil s.

(** The digits at the start of [s], and what follows them. *)
Fixpoint take_digits (s : str) : str * str :=
  match s with
  | c :: s' =>
      if is_digit c then let (d, rest) := take_digits s' in (c :: d, rest)
      else ([], s)
  | [] => ([], [])
  end.

(** The number at the start of [s], with its sign, and what follows. *)
Definition read_int (s : str) : Z * str :=
  match s with
  | 45%N :: s' =>
      let (d, rest) := take_digits s' in
      (Z.of_int (Decimal.Neg (uint_of_digits d)), rest)
  | _ =>
      let (d, rest) := take_digits s in
      (Z.of_int (Decimal.Pos (uint_of_digits d)), rest)
  end.

(** The season and episode of a name of the form S.. -E.. -.. *)
Definition read_position (name : str) : option (Z * Z) :=
  match name with
  | 83%N :: r =>
      let (s, r1) := read_int r in
      match r1 with
      | 45%N :: 69%N :: r2 =>
          let (e, r3) := read_int r2 in
          match r3 with
          | 45%N :: _ => Some (s, e)
          | _ => None
          end
      | _ => None
      end
  | _ => None
  end.

(** *** The script *)

(** [main] of video_scraper.py: how it ends, and the content of the
    links file afterwards, [file] being its content before ([None]: no
    file). An exception of [scrape_videos] leaves [main]. What is
    printed is left out. *)
Definition main (E : Env) (cfg : Config) (p : platform) (can_open : bool)
  (file : option str) : M (completion unit * option str) :=
  result <- scrape_videos E cfg ;;
  match result with
  | IndexError => ret (IndexError, file)
  | Returned [] => ret (Returned tt, file)
  | Returned ((_ :: _) as videos) =>
      stored <- save_download_links p can_open videos ;;
      ret (Returned tt, match stored with
                        | Some text => Some text
                        | None => file
                        end)
  end.

(** A URL that comes back from the link list as it is. *)
Definition url_ok (u : str) : Prop :=
  startswith (lit "https://") u = true
  /\ one_line u = true
  /\ ends_clean u = true
  /\ forallb encodable u = true.

(** *** The loaded links *)

(** An entry that [load_links] can hold: the URL starts with
    "https://", neither part holds a line break, neither ends in
    whitespace. *)
Definition entry_ok (item : str * str) : Prop :=
  startswith (lit "https://") (fst item) = true
  /\ one_line (fst item) = true
  /\ ends_clean (fst item) = true
  /\ one_line (snd item) = true
  /\ ends_clean (snd item) = true.

(* ================================================================= *)
(** ** download_manager.py: what is done with the loaded links *)

(** [subprocess.run(cmd, ...)], [pyperclip.copy(text)] and
    [webbrowser.open(url)] as they answer. *)
Inductive run_result :=
| Completed (returncode : Z) (stderr : str)
| FileNotFoundError
| RunRaised.

Inductive copy_result := Copied | CopyImportError | CopyRaised.

Inductive open_result := Opened (shown : bool) | OpenRaised.

(** The outside of [DownloadManager]: the answers may depend on how
    many calls of the kind went before. *)
Record Desk := {
  subprocess_run : nat -> list str -> run_result;
  pyperclip_copy : str -> copy_result;
  webbrowser_open : nat -> str -> open_result
}.

(** The logger calls of [DownloadManager], with the values they
    format. *)
Inductive note :=
| NoLinks
| IdmStarting
| IdmQueued (filename : str)
| IdmCommandFailed (stderr : str)
| IdmNotFound
| IdmError
| IdmCompleted (success_count total : Z)
| LinksCopied (total : Z)
| PyperclipMissing
| CopyFailed
| BrowserOpening
| BrowserOpened (filename : str)
| BrowserFailed (filename : str)
| BrowserCompleted (success_count total : Z).

(** What [DownloadManager] does to the outside, newest first;
    [Pause] holds milliseconds. What is printed is left out. *)
Inductive action :=
| Subprocess (cmd : list str)
| Pause (milliseconds : Z)
| Clipboard (text : str)
| Browser (address : str)
| Note (lvl : level) (msg : note).

Definition desk := list action.

Definition is_subprocess (a : action) : bool :=
  match a with Subprocess _ => true | _ => false end.

Definition is_browser (a : action) : bool :=
  match a with Browser _ => true | _ => false end.

Definition is_pause (a : action) : bool :=
  match a with Pause _ => true | _ => false end.

Definition runs (d : desk) : nat := List.length (filter is_subprocess d).

Definition visits (d : desk) : nat := List.length (filter is_browser d).

(** How a method ends: it returns, or an exception leaves it. *)
Inductive ending := Finished | Escaped.

Section Download.

Variable K : Desk.

(** [DESTINATION_PATH], which download_manager.py imports from
    config.py. *)
Variable DESTINATION_PATH : str.

Definition idm_command (item : str * str) : list str :=
  [lit "idman"; lit "/d"; fst item; lit "/f"; snd item;
   lit "/p"; DESTINATION_PATH; lit "/a"].

Definition idm_start : list str := [lit "idman"; lit "/s"].

(** The [for i, item in enumerate(...)] loop of [download_with_idm]
    over the remaining items: [None] when the method returned from
    inside the loop, else [success_count]. *)
Fixpoint idm_loop (items : list (str * str)) (success_count : Z) (d : desk)
  : option Z * desk :=
  match items with
  | [] => (Some success_count, d)
  | item :: items' =>
      let cmd := idm_command item in
      match subprocess_run K (runs d) cmd with
      | Completed returncode stderr =>
          if (returncode =? 0)%Z then
            idm_loop items' (success_count + 1)
              (Pause 500 :: Note INFO (IdmQueued (snd item))
               :: Subprocess cmd :: d)
          else
            idm_loop items' success_count
              (Pause 500 :: Note WARNING (IdmCommandFailed stderr)
               :: Subprocess cmd :: d)
      | FileNotFoundError =>
          (None, Note ERROR IdmNotFound :: Subprocess cmd :: d)
      | RunRaised =>
          idm_loop items' success_count
            (Note ERROR IdmError :: Subprocess cmd :: d)
      end
  end.

(** [download_with_idm]; the test of [_validate_links] is the first
    match. *)
Definition download_with_idm (download_links : list (str * str)) (d : desk)
  : ending * desk :=
  match download_links with
  | [] => (Finished, Note WARNING NoLinks :: d)
  | _ :: _ =>
      match idm_loop download_links 0 (Note INFO IdmStarting :: d) with
      | (None, d) => (Finished, d)
      | (Some success_count, d) =>
          match subprocess_run K (runs d) idm_start with
          | Completed _ _ =>
              (Finished,
               Note INFO (IdmCompleted success_count (len download_links))
               :: Subprocess idm_start :: d)
          | _ => (Escaped, Subprocess idm_start :: d)
          end
      end
  end.

(** The loop of [copy_to_clipboard] that builds the text. *)
Fixpoint clipboard_text (items : list (str * str)) (text : str) : str :=
  match items with
  | [] => text
  | item :: items' => clipboard_text items' (text ++ fst item ++ [LF])
  end.

Definition copy_to_clipboard (download_links : list (str * str)) (d : desk)
  : ending * desk :=
  match download_links with
  | [] => (Finished, Note WARNING NoLinks :: d)
  | _ :: _ =>
      let text := clipboard_text download_links [] in
      match pyperclip_copy K text with
      | Copied =>
          (Finished,
           Note INFO (LinksCopied (len download_links)) :: Clipboard text :: d)
      | CopyImportError =>
          (Finished, Note ERROR PyperclipMissing :: Clipboard text :: d)
      | CopyRaised =>
          (Finished, Note ERROR CopyFailed :: Clipboard text :: d)
      end
  end.

(** The loop of [open_in_browser] over the remaining items. *)
Fixpoint browser_loop (items : list (str * str)) (success_count : Z)
  (d : desk) : Z * desk :=
  match items with
  | [] => (success_count, d)
  | item :: items' =>
      match webbrowser_open K (visits d) (fst item) with
      | Opened _ =>
          browser_loop items' (success_count + 1)
            (Pause 1000 :: Note INFO (BrowserOpened (snd item))
             :: Browser (fst item) :: d)
      | OpenRaised =>
          browser_loop items' success_count
            (Note ERROR (BrowserFailed (snd item)) :: Browser (fst item) :: d)
      end
  end.

Definition open_in_browser (download_links : list (str * str)) (d : desk)
  : ending * desk :=
  match download_links with
  | [] => (Finished, Note WARNING NoLinks :: d)
  | _ :: _ =>
      let (success_count, d) :=
        browser_loop download_links 0 (Note INFO BrowserOpening :: d) in
      (Finished,
       Note INFO (BrowserCompleted success_count (len download_links)) :: d)
  end.

End Download.

(** A desk where IDM answers with the return code [code n] to its
    [n]-th call, the clipboard works and the browser fails on every
    second address. *)
Definition demo_desk (code : nat -> run_result) : Desk := {|
  subprocess_run := fun n _ => code n;
  pyperclip_copy := fun _ => Copied;
  webbrowser_open := fun n _ => if Nat.even n then Opened true else OpenRaised
|}.

Definition demo_links : list (str * str) :=
  [(lit "https://x/a.mp4", lit "S01-E01-Demo.mp4");
   (lit "https://x/b.mp4", lit "S01-E02-Demo.mp4");
   (lit "https://x/c.mp4", lit "S01-E03-Demo.mp4")].

(** *** Notions of the statements about the desk *)

(** The commands run, the addresses opened and the texts copied, each
    in the order of the calls. *)
Definition commands (d : desk) : list (list str) :=
  rev (flat_map (fun a => match a with Subprocess cmd => [cmd] | _ => [] end) d).

Definition opened (d : desk) : list str :=
  rev (flat_map (fun a => match a with Browser u => [u] | _ => [] end) d).

Definition copied (d : desk) : list str :=
  rev (flat_map (fun a => match a with Clipboard t => [t] | _ => [] end) d).

Definition pauses (d : desk) : nat := List.length (filter is_pause d).

(** The items whose command, run as the [n]-th and following, ends
    with the return code 0. *)
Fixpoint queued (K : Desk) (DESTINATION_PATH : str) (n : nat)
  (items : list (str * str)) : list (str * str) :=
  match items with
  | [] => []
  | item :: items' =>
      match subprocess_run K n (idm_command DESTINATION_PATH item) with
      | Completed 0 _ => item :: queued K DESTINATION_PATH (S n) items'
      | _ => queued K DESTINATION_PATH (S n) items'
      end
  end.

(** The items whose address, opened as the [n]-th and following, does
    not raise. *)
Fixpoint shown_from (K : Desk) (n : nat) (items : list (str * str))
  : list (str * str) :=
  match items with
  | [] => []
  | item :: items' =>
      match webbrowser_open K n (fst item) with
      | Opened _ => item :: shown_from K (S n) items'
      | OpenRaised => shown_from K (S n) items'
      end
  end.

(* ================================================================= *)
(** ** main.py: the number of videos the main menu shows *)

(** [s.count(sub)] for a [sub] that is not empty: the occurrences
    found from the left, the search going on behind each one; [skip]
    is what is left of the occurrence found last. *)
Fixpoint count_behind (sub : str) (skip : nat) (s : str) : Z :=
  match s with
  | [] => 0
  | _ :: s' =>
      match skip with
      | S skip' => count_behind sub skip' s'
      | O =>
          if startswith sub s
          then 1 + count_behind sub (pred (List.length sub)) s'
          else count_behind sub 0 s'
      end
  end.

Definition str_count (sub s : str) : Z := count_behind sub 0 s.

(** The number [show_main_menu] prints after "Available videos:",
    from the stored text of the links file ([None]: no file). *)
Definition available_videos (file : option str) : Z :=
  match file with
  | None => 0
  | Some stored => str_count (lit "out=") (translate_in stored)
  end.

(** The places of [s] where [sub] starts. *)
Fixpoint places (sub s : str) : nat :=
  match s with
  | [] => 0
  | _ :: s' => (if startswith sub s then 1 else 0) + places sub s'
  end.

(* ================================================================= *)
(** ** Strings *)

Example split_demo :
  split (lit "  a  b c ") = [lit "a"; lit "b"; lit "c"].
Proof. reflexivity. Qed.

Example split_on_demo :
  split_on LF (lit "a" ++ [LF; LF] ++ lit "b") = [lit "a"; []; lit "b"].
Proof. reflexivity. Qed.

Example strip_demo : strip (9%N :: lit " a b " ++ [LF]) = lit "a b".
Proof. reflexivity. Qed.

Example format_demo :
  (format_02d 5, format_02d 12, format_02d 123, format_02d (-3), format_02d 0)
  = (lit "05", lit "12", lit "123", lit "-3", lit "00").
Proof. reflexivity. Qed.

Example index_demo :
  (index [19; 6; 10]%Z 0, index [19; 6; 10]%Z (-1), index [19; 6; 10]%Z 3,
   index [19; 6; 10]%Z (-4))
  = (Some 19%Z, Some 10%Z, None, None).
Proof. reflexivity. Qed.

Example range_demo : range 100 103 = [100; 101; 102]%Z.
Proof. reflexivity. Qed.

Example create_filename_demo :
  _create_filename 1 12 (lit "Intro") = lit "S01-E12-Intro.mp4".
Proof. reflexivity. Qed.

Lemma chr_eqb_eq (a b : char) : chr_eqb a b = true <-> a = b.
Proof. apply N.eqb_eq. Qed.

Lemma chr_eqb_neq (a b : char) : chr_eqb a b = false <-> a <> b.
Proof. apply N.eqb_neq. Qed.

Lemma replace_absent old new s :
  ~ In old s -> replace old new s = s.
Proof.
  induction s as [|c s IH]; simpl; intros H; [reflexivity|].
  destruct (chr_eqb c old) eqn:Hc.
  - apply chr_eqb_eq in Hc. exfalso. apply H. now left.
  - f_equal. apply IH. intros Hin. apply H. now right.
Qed.

Lemma replace_removes old new s :
  ~ In old new -> ~ In old (replace old new s).
Proof.
  intros Hnew. induction s as [|c s IH]; simpl; [tauto|].
  destruct (chr_eqb c old) eqn:Hc.
  - rewrite in_app_iff. tauto.
  - apply chr_eqb_neq in Hc. simpl. intros [H|H]; [congruence|tauto].
Qed.

Lemma replace_keeps_out k old new s :
  ~ In k s -> ~ In k new -> ~ In k (replace old new s).
Proof.
  intros Hs Hnew. induction s as [|c s IH]; simpl; [tauto|].
  simpl in Hs.
  destruct (chr_eqb c old).
  - rewrite in_app_iff. tauto.
  - simpl. tauto.
Qed.

(** After the replacement loop none of the characters [K] is left,
    when the table replaces all of them by text without them. *)
Lemma replace_chars_out (K : list char) table :
  (forall kr, In kr table -> forall c, In c (snd kr) -> ~ In c K) ->
  forall s k, In k K -> In k (map fst table) \/ ~ In k s ->
  ~ In k (replace_chars table s).
Proof.
  unfold replace_chars.
  induction table as [|[c r] table IH]; simpl; intros Hr s k HK Hk.
  - tauto.
  - assert (Hout : forall x, In x K -> ~ In x r).
    { intros x Hx Hin. exact (Hr (c, r) (or_introl eq_refl) x Hin Hx). }
    apply IH; [intros kr Hkr; apply Hr; now right | exact HK |].
    destruct Hk as [[Hk|Hk]|Hk].
    + subst c. right. apply replace_removes. auto.
    + now left.
    + right. apply replace_keeps_out; auto.
Qed.

Lemma replace_chars_absent table s :
  (forall k, In k (map fst table) -> ~ In k s) -> replace_chars table s = s.
Proof.
  unfold replace_chars.
  induction table as [|[c r] table IH]; simpl; intros H; [reflexivity|].
  rewrite replace_absent by auto. apply IH. auto.
Qed.

Lemma split_words s : Forall word (split s).
Proof.
  induction s as [|c s IH]; simpl; [constructor|].
  destruct (isspace c) eqn:Hc; [exact IH|].
  destruct s as [|d s'].
  - constructor; [|constructor]. split; [discriminate|]. now constructor.
  - destruct (isspace d) eqn:Hd.
    + constructor; [|exact IH]. split; [discriminate|]. now constructor.
    + destruct (split (d :: s')) as [|w ws] eqn:Hsp.
      * constructor; [|constructor]. split; [discriminate|]. now constructor.
      * inversion IH as [|? ? [Hw1 Hw2] Hws]; subst.
        constructor; [|exact Hws]. split; [discriminate|]. now constructor.
Qed.

Lemma split_word_then_space w rest :
  word w -> split (w ++ SPACE :: rest) = w :: split rest.
Proof.
  intros [Hne Hw]. induction w as [|c w IH]; [congruence|].
  inversion Hw as [|? ? Hc Hw']; subst.
  destruct w as [|d w'].
  - simpl. now rewrite Hc.
  - inversion Hw' as [|? ? Hd _]; subst.
    change ((c :: d :: w') ++ SPACE :: rest)
      with (c :: d :: (w' ++ SPACE :: rest)).
    change (split (c :: d :: w' ++ SPACE :: rest))
      with (if isspace c then split (d :: w' ++ SPACE :: rest)
            else if isspace d then [c] :: split (d :: w' ++ SPACE :: rest)
            else match split (d :: w' ++ SPACE :: rest) with
                 | w :: ws => (c :: w) :: ws
                 | [] => [[c]]
                 end).
    rewrite Hc, Hd.
    change (d :: w' ++ SPACE :: rest) with ((d :: w') ++ SPACE :: rest).
    rewrite IH; [reflexivity|discriminate|assumption].
Qed.

Lemma split_one_word w : word w -> split w = [w].
Proof.
  intros [Hne Hw]. induction w as [|c w IH]; [congruence|].
  inversion Hw as [|? ? Hc Hw']; subst.
  destruct w as [|d w'].
  - simpl. now rewrite Hc.
  - inversion Hw' as [|? ? Hd _]; subst.
    change (split (c :: d :: w'))
      with (if isspace c then split (d :: w')
            else if isspace d then [c] :: split (d :: w')
            else match split (d :: w') with
                 | w :: ws => (c :: w) :: ws
                 | [] => [[c]]
                 end).
    rewrite Hc, Hd.
    rewrite IH; [reflexivity|discriminate|assumption].
Qed.

Lemma split_join ws :
  Forall word ws -> split (join (lit " ") ws) = ws.
Proof.
  induction 1 as [|w ws Hw Hws IH]; [reflexivity|].
  destruct ws as [|w' ws'].
  - simpl. now apply split_one_word.
  - change (join (lit " ") (w :: w' :: ws'))
      with (w ++ SPACE :: join (lit " ") (w' :: ws')).
    rewrite split_word_then_space by assumption. now rewrite IH.
Qed.

Lemma in_split c w s : In w (split s) -> In c w -> In c s.
Proof.
  revert w. induction s as [|x s IH]; simpl; intros w Hw Hc; [tauto|].
  destruct (isspace x).
  - right. eauto.
  - destruct s as [|d s'].
    + destruct Hw as [<-|[]]. exact Hc.
    + destruct (isspace d).
      * destruct Hw as [<-|Hw]; [destruct Hc as [<-|[]]; now left|].
        right. eauto.
      * destruct (split (d :: s')) as [|w0 ws] eqn:Hsp.
        -- destruct Hw as [<-|[]]. destruct Hc as [<-|[]]. now left.
        -- destruct Hw as [<-|Hw].
           ++ destruct Hc as [<-|Hc]; [now left|]. right.
              apply (IH w0); [now left|exact Hc].
           ++ right. apply (IH w); [now right|exact Hc].
Qed.

Lemma in_join c sep ws :
  In c (join sep ws) -> In c sep \/ exists w, In w ws /\ In c w.
Proof.
  induction ws as [|w ws IH]; simpl; [tauto|].
  destruct ws as [|w' ws'].
  - intros H. right. exists w. split; [now left|exact H].
  - rewrite !in_app_iff. intros [H|[H|H]].
    + right. exists w. split; [now left|exact H].
    + now left.
    + destruct (IH H) as [H'|[x [Hx Hc]]]; [now left|].
      right. exists x. split; [now right|exact Hc].
Qed.

(** Joining the words of [s] with spaces brings in no character but
    the space. *)
Lemma in_normalized c s :
  In c (join (lit " ") (split s)) -> c = SPACE \/ In c s.
Proof.
  intros H. apply in_join in H. destruct H as [[H|[]]|[w [Hw Hc]]].
  - left. now symmetry.
  - right. eapply in_split; eassumption.
Qed.

(* ================================================================= *)
(** ** Sanitizing *)

Lemma default_table_clean :
  forall kr, In kr default_replace_chars ->
  forall c, In c (snd kr) -> ~ In c unsafe_chars.
Proof.
  intros kr Hkr c Hc. unfold default_replace_chars in Hkr.
  apply in_map_iff in Hkr. destruct Hkr as [k [<- _]].
  simpl in Hc. destruct Hc as [<-|[]].
  intros H. repeat (destruct H as [H|H]; [discriminate H|]). exact H.
Qed.

Lemma space_is_safe : ~ In SPACE unsafe_chars.
Proof.
  intros H. repeat (destruct H as [H|H]; [discriminate H|]). exact H.
Qed.

Lemma sanitize_filename_safe cfg s :
  FILENAME_REPLACE_CHARS cfg = default_replace_chars ->
  safe_name (_sanitize_filename cfg s).
Proof.
  intros Htable c Hc Hin. unfold _sanitize_filename in Hin.
  apply in_normalized in Hin. destruct Hin as [->|Hin].
  - now apply space_is_safe.
  - revert Hin. rewrite Htable.
    apply (replace_chars_out unsafe_chars _ default_table_clean); [exact Hc|].
    left. exact Hc.
Qed.

(** C5. Sanitizing a file name twice gives what sanitizing it once
    gives, for the replacement table of config.py: every unsafe
    character becomes an underscore, runs of whitespace become one
    space and the ends are trimmed. *)
Theorem sanitize_filename_idempotent cfg s :
  FILENAME_REPLACE_CHARS cfg = default_replace_chars ->
  _sanitize_filename cfg (_sanitize_filename cfg s) = _sanitize_filename cfg s.
Proof.
  intros Htable.
  assert (Hsafe := sanitize_filename_safe cfg s Htable).
  unfold _sanitize_filename at 1.
  rewrite replace_chars_absent.
  - unfold _sanitize_filename. rewrite split_join; [reflexivity|].
    apply split_words.
  - rewrite Htable. intros k Hk. apply Hsafe. exact Hk.
Qed.

Lemma sanitize_filename_idempotent_witness :
  _sanitize_filename config
    (_sanitize_filename config (lit "  What/is: this?   Part 2 "))
  = _sanitize_filename config (lit "  What/is: this?   Part 2 ").
Proof.
  apply (sanitize_filename_idempotent config). reflexivity.
Defined.

Example sanitize_demo :
  _sanitize_filename config (lit "  What/is: this?   Part 2 ")
  = lit "What_is_ this_ Part 2".
Proof. reflexivity. Qed.

(* ================================================================= *)
(** ** Traces *)

Lemma keeps_ret {A} p (a : A) : keeps p (ret a).
Proof. intros w. reflexivity. Qed.

Lemma keeps_bind {A B} p (m : M A) (k : A -> M B) :
  keeps p m -> (forall a, keeps p (k a)) -> keeps p (bind m k).
Proof.
  intros Hm Hk w. unfold bind. specialize (Hm w).
  destruct (m w) as [a w1]. simpl in Hm. now rewrite Hk.
Qed.

Lemma keeps_emit p e : p e = false -> keeps p (emit e).
Proof. intros He w. unfold emit, count. simpl. now rewrite He. Qed.

Lemma keeps_log p lvl msg : p (Log lvl msg) = false -> keeps p (log lvl msg).
Proof. apply keeps_emit. Qed.

Lemma count_cons p e w :
  count p (e :: w) = ((if p e then 1 else 0) + count p w)%nat.
Proof. unfold count. simpl. now destruct (p e). Qed.

Section Details.

Variable E : Env.
Variable cfg : Config.
Variable p : event -> bool.
Hypothesis p_detail : forall e, detail e = true -> p e = false.

Ltac keeps_detail :=
  repeat first
    [ apply keeps_ret
    | apply keeps_bind; [|intros]
    | apply keeps_emit; apply p_detail; reflexivity
    | assumption ].

Lemma keeps_save_debug_html v html :
  keeps p (_save_debug_html E cfg v html).
Proof.
  unfold _save_debug_html, log.
  destruct (negb (SAVE_DEBUG_HTML cfg)); [apply keeps_ret|].
  destruct (debug_write_ok E v); keeps_detail.
Qed.

Lemma keeps_extract_video_url_from patterns html :
  keeps p (extract_video_url_from E patterns html).
Proof.
  induction patterns as [|pattern patterns IH]; simpl; unfold log.
  - keeps_detail.
  - destruct (re_findall E pattern html); keeps_detail.
Qed.

Lemma keeps_extract_title_from selectors sp :
  keeps p (extract_title_from E cfg selectors sp).
Proof.
  induction selectors as [|selector selectors IH];
    cbn [extract_title_from]; unfold log.
  - keeps_detail.
  - destruct (select_title E sp selector) as [text| |].
    + destruct (strip text); keeps_detail.
    + exact IH.
    + keeps_detail.
Qed.

Lemma keeps_handle_request_error status_code text v :
  keeps p (_handle_request_error cfg status_code text v).
Proof.
  unfold _handle_request_error, log.
  destruct (negb (status_code =? 200)%Z); [keeps_detail|].
  destruct (negb (_is_page_loaded cfg text)); keeps_detail.
Qed.

End Details.

Lemma is_get_detail e : detail e = true -> is_get e = false.
Proof. destruct e; simpl; congruence. Qed.

Lemma is_skip_detail q e : detail e = true -> is_skip q e = false.
Proof.
  destruct e as [| | |lvl msg]; simpl; try congruence.
  destruct msg; destruct lvl; simpl; congruence.
Qed.

(** What the extractors return does not depend on the trace. *)
Lemma extract_video_url_from_value E patterns html w :
  fst (extract_video_url_from E patterns html w)
  = fst (extract_video_url_from E patterns html []).
Proof.
  induction patterns as [|pattern patterns IH]; simpl; [reflexivity|].
  destruct (re_findall E pattern html); [exact IH|reflexivity].
Qed.

Lemma extract_title_from_value E cfg selectors sp w :
  fst (extract_title_from E cfg selectors sp w)
  = fst (extract_title_from E cfg selectors sp []).
Proof.
  revert w.
  induction selectors as [|selector selectors IH]; intros w;
    cbn [extract_title_from]; [reflexivity|].
  destruct (select_title E sp selector) as [text| |].
  - destruct (strip text); [apply IH|reflexivity].
  - apply IH.
  - unfold bind, log, emit. rewrite IH. symmetry. apply IH.
Qed.

Lemma handle_request_error_value cfg status_code text v w :
  fst (_handle_request_error cfg status_code text v w)
  = negb (status_code =? 200)%Z || negb (_is_page_loaded cfg text).
Proof.
  unfold _handle_request_error.
  destruct (negb (status_code =? 200)%Z); [reflexivity|].
  destruct (negb (_is_page_loaded cfg text)); reflexivity.
Qed.

Lemma extract_video_url_value E cfg text w :
  fst (_extract_video_url E cfg text w) = url_in E cfg text.
Proof. apply extract_video_url_from_value. Qed.

Lemma extract_title_value E cfg text w :
  fst (_extract_title E cfg (BeautifulSoup E text) w) = title_in E cfg text.
Proof. apply extract_title_from_value. Qed.

(* ================================================================= *)
(** ** URL extraction *)

Lemma extract_video_url_from_skip E pre rest html w :
  Forall (fun q => re_findall E q html = []) pre ->
  extract_video_url_from E (pre ++ rest) html w
  = extract_video_url_from E rest html w.
Proof.
  induction 1 as [|q pre Hq _ IH]; simpl; [reflexivity|].
  now rewrite Hq.
Qed.

(** C6. The patterns are tried in their order: when the patterns
    before [p] match nothing in the body and [p] matches, the URL
    returned is the first match of [p]; when no pattern matches,
    there is no URL. *)
Theorem extract_video_url_priority E cfg html w :
  (forall pre p post m ms,
     VIDEO_URL_PATTERNS cfg = pre ++ p :: post ->
     Forall (fun q => re_findall E q html = []) pre ->
     re_findall E p html = m :: ms ->
     fst (_extract_video_url E cfg html w) = Some (match_text m))
  /\ (Forall (fun q => re_findall E q html = []) (VIDEO_URL_PATTERNS cfg) ->
      fst (_extract_video_url E cfg html w) = None).
Proof.
  unfold _extract_video_url. split.
  - intros pre p post m ms Hcfg Hpre Hp. rewrite Hcfg.
    rewrite extract_video_url_from_skip by exact Hpre.
    simpl. now rewrite Hp.
  - intros Hnone.
    rewrite <- (app_nil_r (VIDEO_URL_PATTERNS cfg)).
    rewrite extract_video_url_from_skip by exact Hnone.
    reflexivity.
Qed.

Lemma extract_video_url_priority_witness :
  fst (_extract_video_url Demo.always_ok (Demo.cfg 100 102 [2]%Z)
         (Demo.page_of (lit "Demo")) [])
  = Some (lit "https://x/a.mp4")
  /\ fst (_extract_video_url Demo.always_ok (Demo.cfg 100 102 [2]%Z)
            (lit "loading") [])
     = None.
Proof.
  split.
  - apply (proj1 (extract_video_url_priority Demo.always_ok
                    (Demo.cfg 100 102 [2]%Z) (Demo.page_of (lit "Demo")) [])
             [lit "http://x/y.mp4"] (lit "https://x/a.mp4") []
             (Whole (lit "https://x/a.mp4")) []).
    + reflexivity.
    + repeat constructor.
    + reflexivity.
  - apply (proj2 (extract_video_url_priority Demo.always_ok
                    (Demo.cfg 100 102 [2]%Z) (lit "loading") [])).
    repeat constructor.
Defined.

(* ================================================================= *)
(** ** Title extraction *)



(* ================================================================= *)
(** ** One attempt of get_video_info *)

(** A helper that only adds details runs to a known value and leaves
    the requests and the skips of the trace as they are. *)
Lemma run_detail {A} (m : M A) (val : A) :
  (forall w, fst (m w) = val) ->
  (forall p, (forall e, detail e = true -> p e = false) -> keeps p m) ->
  forall w, exists w',
    m w = (val, w')
    /\ requests w' = requests w
    /\ forall q, skips_where q w' = skips_where q w.
Proof.
  intros Hval Hkeeps w. exists (snd (m w)). split; [|split].
  - rewrite <- (Hval w). apply surjective_pairing.
  - apply (Hkeeps is_get is_get_detail w).
  - intros q. apply (Hkeeps (is_skip q) (is_skip_detail q) w).
Qed.

Lemma run_handle_request_error cfg status_code text v w :
  exists w',
    _handle_request_error cfg status_code text v w
    = (negb (status_code =? 200)%Z || negb (_is_page_loaded cfg text), w')
    /\ requests w' = requests w
    /\ forall q, skips_where q w' = skips_where q w.
Proof.
  apply run_detail.
  - intros w0. apply handle_request_error_value.
  - intros p Hp. now apply keeps_handle_request_error.
Qed.

Lemma run_save_debug_html E cfg v text w :
  exists w',
    _save_debug_html E cfg v text w = (tt, w')
    /\ requests w' = requests w
    /\ forall q, skips_where q w' = skips_where q w.
Proof.
  apply run_detail.
  - intros w0. now destruct (fst (_save_debug_html E cfg v text w0)).
  - intros p Hp. now apply keeps_save_debug_html.
Qed.

Lemma run_extract_video_url E cfg text w :
  exists w',
    _extract_video_url E cfg text w = (url_in E cfg text, w')
    /\ requests w' = requests w
    /\ forall q, skips_where q w' = skips_where q w.
Proof.
  apply run_detail.
  - intros w0. apply extract_video_url_value.
  - intros p Hp. now apply keeps_extract_video_url_from.
Qed.

Lemma run_extract_title E cfg text w :
  exists w',
    _extract_title E cfg (BeautifulSoup E text) w = (title_in E cfg text, w')
    /\ requests w' = requests w
    /\ forall q, skips_where q w' = skips_where q w.
Proof.
  apply run_detail.
  - intros w0. apply extract_title_value.
  - intros p Hp. now apply keeps_extract_title_from.
Qed.

Lemma attempt_step E cfg attempt rest v s e w :
  exists w1,
    requests w1 = S (requests w)
    /\ (forall q, skips_where q w1 = skips_where q w)
    /\ if fails_retryably E cfg
            (session_get E (requests w) (BASE_URL cfg ++ str_of_int v))
       then
         attempts_from E cfg (attempt :: rest) v s e w
         = attempts_from E cfg rest v s e w1
         \/ ((attempt <? MAX_RETRIES cfg - 1)%Z = false
             /\ attempts_from E cfg (attempt :: rest) v s e w = (None, w1))
       else
         exists text u,
           session_get E (requests w) (BASE_URL cfg ++ str_of_int v)
           = Response 200 text
           /\ _is_page_loaded cfg text = true
           /\ url_in E cfg text = Some u
           /\ u <> []
           /\ attempts_from E cfg (attempt :: rest) v s e w
              = (Some (u, _create_filename s e (title_in E cfg text)), w1).
Proof.
  destruct (attempts_from E cfg (attempt :: rest) v s e w) as [res wf] eqn:Hrun.
  cbn [attempts_from] in Hrun.
  unfold bind, log, emit, ret, sleep_uniform, retry_or_give_up,
    session_request in Hrun.
  change (requests (Log INFO (MsgAttempt (attempt + 1) (MAX_RETRIES cfg) v) :: w))
    with (requests w) in Hrun.
  set (w0 := Get (BASE_URL cfg ++ str_of_int v)
             :: Log INFO (MsgAttempt (attempt + 1) (MAX_RETRIES cfg) v) :: w)
    in Hrun.
  assert (Hr0 : requests w0 = S (requests w)) by reflexivity.
  assert (Hs0 : forall q, skips_where q w0 = skips_where q w) by reflexivity.
  clearbody w0.
  destruct (session_get E (requests w) (BASE_URL cfg ++ str_of_int v))
    as [status_code text| |] eqn:Hget; cbn [fails_retryably].
  - (* a response *)
    destruct (run_handle_request_error cfg status_code text v w0)
      as (w1 & Hh & Hr1 & Hs1).
    rewrite Hh in Hrun.
    destruct (negb (status_code =? 200)%Z || negb (_is_page_loaded cfg text))
      eqn:Hbad; cbn [orb].
    + (* bad status or short body *)
      destruct (attempt <? MAX_RETRIES cfg - 1)%Z.
      * exists (Sleep 2 4 :: Log INFO MsgRetrying :: w1).
        split; [|split].
        -- change (requests w1 = S (requests w)). congruence.
        -- intros q. change (skips_where q w1 = skips_where q w).
           rewrite Hs1. apply Hs0.
        -- left. now symmetry.
      * exists w1. split; [congruence|split].
        -- intros q. rewrite Hs1. apply Hs0.
        -- right. split; [reflexivity|now symmetry].
    + (* the page is there *)
      apply orb_false_iff in Hbad. destruct Hbad as [Hstatus Hloaded].
      apply negb_false_iff in Hstatus, Hloaded.
      apply Z.eqb_eq in Hstatus. subst status_code.
      assert (Hdump : exists w2,
                 (if (attempt =? MAX_RETRIES cfg - 1)%Z
                  then _save_debug_html E cfg v text
                  else fun w0 : world => (tt, w0)) w1 = (tt, w2)
                 /\ requests w2 = requests w1
                 /\ forall q, skips_where q w2 = skips_where q w1).
      { destruct (attempt =? MAX_RETRIES cfg - 1)%Z.
        - apply run_save_debug_html.
        - exists w1. auto. }
      destruct Hdump as (w2 & Hd & Hr2 & Hs2). rewrite Hd in Hrun.
      destruct (run_extract_video_url E cfg text w2) as (w3 & Hu & Hr3 & Hs3).
      rewrite Hu in Hrun.
      assert (Hr : requests w3 = S (requests w)) by congruence.
      assert (Hs : forall q, skips_where q w3 = skips_where q w).
      { intros q. rewrite Hs3, Hs2, Hs1. apply Hs0. }
      destruct (url_in E cfg text) as [[|c u]|] eqn:Hurl.
      * destruct (attempt <? MAX_RETRIES cfg - 1)%Z.
        -- exists (Sleep 2 4 :: Log INFO MsgRetrying :: w3).
           split; [exact Hr|split; [exact Hs|]]. left. now symmetry.
        -- exists w3. split; [exact Hr|split; [exact Hs|]].
           right. split; [reflexivity|now symmetry].
      * destruct (run_extract_title E cfg text w3) as (w4 & Ht & Hr4 & Hs4).
        rewrite Ht in Hrun.
        exists (Log INFO (MsgExtracted v
                  (_create_filename s e (title_in E cfg text))) :: w4).
        split; [|split].
        -- change (requests w4 = S (requests w)). congruence.
        -- intros q. change (skips_where q w4 = skips_where q w).
           rewrite Hs4. apply Hs.
        -- exists text, (c :: u).
           repeat split; try reflexivity; try assumption; try discriminate.
           now symmetry.
      * destruct (attempt <? MAX_RETRIES cfg - 1)%Z.
        -- exists (Sleep 2 4 :: Log INFO MsgRetrying :: w3).
           split; [exact Hr|split; [exact Hs|]]. left. now symmetry.
        -- exists w3. split; [exact Hr|split; [exact Hs|]].
           right. split; [reflexivity|now symmetry].
  - (* a timeout *)
    destruct (attempt <? MAX_RETRIES cfg - 1)%Z.
    + exists (Sleep 5 8 :: Log INFO MsgRetrying
              :: Log WARNING (MsgTimeout (attempt + 1) v) :: w0).
      split; [exact Hr0|split; [exact Hs0|]]. left. now symmetry.
    + exists (Log WARNING (MsgTimeout (attempt + 1) v) :: w0).
      split; [exact Hr0|split; [exact Hs0|]]. left. now symmetry.
  - (* another exception *)
    destruct (attempt <? MAX_RETRIES cfg - 1)%Z.
    + exists (Sleep 2 4 :: Log INFO MsgRetrying
              :: Log ERROR (MsgError (attempt + 1) v) :: w0).
      split; [exact Hr0|split; [exact Hs0|]]. left. now symmetry.
    + exists (Log ERROR (MsgError (attempt + 1) v) :: w0).
      split; [exact Hr0|split; [exact Hs0|]]. left. now symmetry.
Qed.

(* ================================================================= *)
(** ** The retry loop *)

Lemma range_count_from a b : range a b = count_from a (Z.to_nat (b - a)).
Proof.
  unfold range. generalize (Z.to_nat (b - a)) as n. intros n. revert a.
  induction n as [|n IH]; intros a; [reflexivity|].
  cbn [seq map count_from]. f_equal; [lia|].
  rewrite <- IH. rewrite <- seq_shift, map_map.
  apply map_ext. intros i. lia.
Qed.


Lemma scrape_from_cons E cfg v ids videos s e w :
  scrape_from E cfg (v :: ids) videos s e w
  = let info := fst (get_video_info E cfg v s e w) in
    let w1 := snd (get_video_info E cfg v s e w) in
    let videos' :=
      match info with
      | Some (video_url, name) =>
          videos ++ [{| url := video_url; filename := name; video_id := v;
                        season := s; episode := e |}]
      | None => videos
      end in
    let w2 :=
      match info with
      | Some (_, name) => Log INFO (MsgFound name) :: w1
      | None => Log WARNING (MsgFailed v) :: w1
      end in
    match advance cfg s e with
    | Continue s' e' =>
        scrape_from E cfg ids videos' s' e'
          (Sleep (MIN_DELAY cfg) (MAX_DELAY cfg) :: Log INFO MsgWaiting :: w2)
    | Break =>
        (Returned videos',
         Log INFO (MsgCompleted (len videos'))
         :: Log WARNING MsgSeasonExceeded :: w2)
    | RaiseIndexError => (IndexError, w2)
    end.
Proof.
  cbn [scrape_from]. unfold bind at 1 2.
  destruct (get_video_info E cfg v s e w) as [[[video_url name]|] w1];
    cbn [fst snd]; unfold bind, log, emit, ret;
    destruct (advance cfg s e); reflexivity.
Qed.



(* ================================================================= *)
(** ** What the loop of scrape_videos gets from get_video_info *)

Lemma attempts_from_spec E cfg attempts v s e :
  forall w,
    (forall q,
       skips_where q (snd (attempts_from E cfg attempts v s e w))
       = skips_where q w)
    /\ (forall u name,
          fst (attempts_from E cfg attempts v s e w) = Some (u, name) ->
          exists text, name = _create_filename s e (title_in E cfg text)).
Proof.
  induction attempts as [|a rest IH]; intros w.
  - split; [intros q; reflexivity|intros u name H; discriminate H].
  - destruct (attempt_step E cfg a rest v s e w) as (w1 & _ & Hs1 & Hstep).
    destruct (fails_retryably E cfg _).
    + destruct Hstep as [Hgo|[_ Hstop]].
      * rewrite Hgo. destruct (IH w1) as [IHs IHn]. split; [|exact IHn].
        intros q. rewrite IHs. apply Hs1.
      * rewrite Hstop. split; [exact Hs1|intros u name H; discriminate H].
    + destruct Hstep as (text & u & _ & _ & _ & _ & Hrun). rewrite Hrun.
      split; [exact Hs1|]. intros u' name H. injection H as _ <-.
      now exists text.
Qed.

Lemma get_video_info_skips E cfg v s e w q :
  skips_where q (snd (get_video_info E cfg v s e w)) = skips_where q w.
Proof. apply attempts_from_spec. Qed.

Lemma get_video_info_name E cfg v s e w u name :
  fst (get_video_info E cfg v s e w) = Some (u, name) ->
  exists text, name = _create_filename s e (title_in E cfg text).
Proof. apply attempts_from_spec. Qed.

(* ================================================================= *)
(** ** Safe file names *)

Lemma safe_nameb_sound s : safe_nameb s = true -> safe_name s.
Proof.
  unfold safe_nameb, safe_name. intros H c Hc Hin.
  rewrite forallb_forall in H. specialize (H c Hin).
  apply negb_true_iff in H.
  assert (Hex : existsb (chr_eqb c) unsafe_chars = true).
  { apply existsb_exists. exists c. split; [exact Hc|]. now apply chr_eqb_eq. }
  congruence.
Qed.

Lemma safe_name_app s t : safe_name s -> safe_name t -> safe_name (s ++ t).
Proof.
  intros Hs Ht c Hc Hin. apply in_app_iff in Hin.
  destruct Hin; [now apply (Hs c)|now apply (Ht c)].
Qed.

Lemma safe_name_cons c s :
  safe_nameb [c] = true -> safe_name s -> safe_name (c :: s).
Proof.
  intros Hc Hs. change (c :: s) with ([c] ++ s).
  apply safe_name_app; [now apply safe_nameb_sound|exact Hs].
Qed.

Lemma safe_name_digits u : safe_name (digits u).
Proof.
  induction u; cbn [digits];
    first [ apply safe_nameb_sound; reflexivity
          | apply safe_name_cons; [reflexivity|assumption] ].
Qed.

Lemma safe_name_zfill n s : safe_name s -> safe_name (zfill n s).
Proof.
  intros Hs. unfold zfill. apply safe_name_app; [|exact Hs].
  induction (n - List.length s)%nat as [|k IH]; cbn [repeat].
  - apply safe_nameb_sound. reflexivity.
  - apply safe_name_cons; [reflexivity|exact IH].
Qed.

Lemma safe_name_format_02d n : safe_name (format_02d n).
Proof.
  unfold format_02d. destruct (Z.to_int n) as [u|u].
  - apply safe_name_zfill, safe_name_digits.
  - apply safe_name_cons; [reflexivity|].
    apply safe_name_zfill, safe_name_digits.
Qed.

Lemma create_filename_safe s e title :
  safe_name title -> safe_name (_create_filename s e title).
Proof.
  intros Ht. unfold _create_filename, FILENAME_FORMAT.
  repeat apply safe_name_app;
    first [ apply safe_name_format_02d
          | exact Ht
          | apply safe_nameb_sound; reflexivity ].
Qed.

Lemma extract_title_from_safe E cfg selectors sp :
  FILENAME_REPLACE_CHARS cfg = default_replace_chars ->
  forall w, safe_name (fst (extract_title_from E cfg selectors sp w)).
Proof.
  intros Htable.
  induction selectors as [|selector selectors IH]; intros w;
    cbn [extract_title_from].
  - apply safe_nameb_sound. reflexivity.
  - destruct (select_title E sp selector) as [text| |].
    + destruct (strip text) eqn:Hstrip; [apply IH|].
      apply sanitize_filename_safe. exact Htable.
    + apply IH.
    + unfold bind, log, emit. apply IH.
Qed.

Lemma title_in_safe E cfg text :
  FILENAME_REPLACE_CHARS cfg = default_replace_chars ->
  safe_name (title_in E cfg text).
Proof. intros Htable. now apply extract_title_from_safe. Qed.

Lemma named_from_page_safe E cfg r :
  FILENAME_REPLACE_CHARS cfg = default_replace_chars ->
  named_from_page E cfg r -> safe_name (filename r).
Proof.
  intros Htable [text ->]. apply create_filename_safe.
  now apply title_in_safe.
Qed.

(* ================================================================= *)
(** ** Subsequences and ranges *)

Lemma Subseq_prefix {A} (l rest : list A) : Subseq l (l ++ rest).
Proof. induction l; simpl; now constructor. Qed.

Lemma Subseq_map {A B} (f : A -> B) l1 l2 :
  Subseq l1 l2 -> Subseq (map f l1) (map f l2).
Proof. induction 1; simpl; now constructor. Qed.

Lemma Subseq_trans {A} (l1 l2 l3 : list A) :
  Subseq l1 l2 -> Subseq l2 l3 -> Subseq l1 l3.
Proof.
  intros H12 H23. revert l1 H12.
  induction H23 as [l|x l2 l3 _ IH|x l2 l3 _ IH]; intros l1 H12.
  - inversion H12. constructor.
  - inversion H12; subst; constructor; auto.
  - constructor. auto.
Qed.

Lemma Subseq_Forall {A} (P : A -> Prop) l1 l2 :
  Subseq l1 l2 -> Forall P l2 -> Forall P l1.
Proof.
  induction 1 as [l|x l1 l2 _ IH|x l1 l2 _ IH]; intros H.
  - constructor.
  - inversion H; subst. constructor; auto.
  - inversion H; subst. auto.
Qed.

Lemma Subseq_sorted {A} (R : A -> A -> Prop) l1 l2 :
  Subseq l1 l2 -> StronglySorted R l2 -> StronglySorted R l1.
Proof.
  induction 1 as [l|x l1 l2 Hsub IH|x l1 l2 _ IH]; intros H.
  - constructor.
  - inversion H; subst. constructor; [auto|].
    eapply Subseq_Forall; eassumption.
  - inversion H; subst. auto.
Qed.

Lemma in_count_from v k n :
  In v (count_from k n) <-> (k <= v < k + Z.of_nat n)%Z.
Proof.
  revert k. induction n as [|n IH]; intros k; cbn [count_from In].
  - lia.
  - rewrite IH. lia.
Qed.

Lemma count_from_sorted k n : StronglySorted Z.lt (count_from k n).
Proof.
  revert k. induction n as [|n IH]; intros k; cbn [count_from];
    constructor; [apply IH|].
  apply Forall_forall. intros v Hv. apply in_count_from in Hv. lia.
Qed.

Lemma in_range v a b : In v (range a b) <-> (a <= v < b)%Z.
Proof. rewrite range_count_from, in_count_from. lia. Qed.

Lemma range_sorted a b : StronglySorted Z.lt (range a b).
Proof. rewrite range_count_from. apply count_from_sorted. Qed.

Lemma sorted_NoDup l : StronglySorted Z.lt l -> NoDup l.
Proof.
  induction 1 as [|x l _ IH Hx]; constructor; [|exact IH].
  intros Hin. rewrite Forall_forall in Hx. specialize (Hx x Hin). lia.
Qed.

(* ================================================================= *)
(** ** The cursor *)

Lemma index_in_bounds {A} (l : list A) i :
  (0 <= i < len l)%Z -> exists x, index l i = Some x.
Proof.
  intros Hi. unfold index.
  replace ((0 <=? i)%Z && (i <? len l)%Z) with true
    by (symmetry; apply andb_true_iff; split;
        [apply Z.leb_le|apply Z.ltb_lt]; lia).
  destruct (nth_error l (Z.to_nat i)) as [x|] eqn:Hnth; [now exists x|].
  apply nth_error_None in Hnth. unfold len in Hi. lia.
Qed.

Lemma index_beyond {A} (l : list A) i :
  (len l <= i)%Z -> index l i = None.
Proof.
  intros Hi. unfold index. unfold len in *.
  replace (i <? Z.of_nat (List.length l))%Z with false
    by (symmetry; apply Z.ltb_ge; lia).
  replace (i <? 0)%Z with false by (symmetry; apply Z.ltb_ge; lia).
  now rewrite !andb_false_r.
Qed.

Lemma advance_in_table cfg s e :
  (1 <= s <= len (SEASON_EPISODES cfg))%Z ->
  advance cfg s e = Break
  \/ exists s' e',
       advance cfg s e = Continue s' e'
       /\ (1 <= s' <= len (SEASON_EPISODES cfg))%Z.
Proof.
  intros Hs. unfold advance.
  destruct (index_in_bounds (SEASON_EPISODES cfg) (s - 1)) as [n ->]; [lia|].
  destruct (e + 1 >? n)%Z.
  - destruct (s + 1 >? len (SEASON_EPISODES cfg))%Z eqn:Hover.
    + now left.
    + right. exists (s + 1)%Z, 1%Z. split; [reflexivity|].
      rewrite Z.gtb_ltb in Hover. apply Z.ltb_ge in Hover. lia.
  - right. exists s, (e + 1)%Z. split; [reflexivity|exact Hs].
Qed.

Lemma advance_beyond_table cfg s e :
  (len (SEASON_EPISODES cfg) < s)%Z -> advance cfg s e = RaiseIndexError.
Proof.
  intros Hs. unfold advance. rewrite index_beyond by lia. reflexivity.
Qed.

Lemma cursor_walk_prefix cfg ids :
  forall s e, exists rest, ids = map fst (cursor_walk cfg ids s e) ++ rest.
Proof.
  induction ids as [|v ids IH]; intros s e; cbn [cursor_walk].
  - now exists [].
  - destruct (advance cfg s e) as [s' e'| |].
    + destruct (IH s' e') as [rest Hrest]. exists rest.
      cbn [map fst app]. now rewrite <- Hrest.
    + now exists ids.
    + now exists ids.
Qed.

Lemma cursor_walk_in_table cfg ids :
  forall s e,
    (1 <= s <= len (SEASON_EPISODES cfg))%Z ->
    Forall (fun c => (1 <= fst (snd c) <= len (SEASON_EPISODES cfg))%Z)
           (cursor_walk cfg ids s e).
Proof.
  induction ids as [|v ids IH]; intros s e Hs; cbn [cursor_walk];
    constructor; [exact Hs|].
  destruct (advance_in_table cfg s e Hs) as [->|(s' & e' & -> & Hs')].
  - constructor.
  - now apply IH.
Qed.

(* ================================================================= *)
(** ** The loop of scrape_videos *)

Lemma scrape_from_records E cfg ids :
  forall videos s e w videos',
    fst (scrape_from E cfg ids videos s e w) = Returned videos' ->
    exists new,
      videos' = videos ++ new
      /\ Subseq (map position new) (cursor_walk cfg ids s e)
      /\ Forall (named_from_page E cfg) new.
Proof.
  induction ids as [|v ids IH]; intros videos s e w videos' Hrun.
  - injection Hrun as <-. exists []. rewrite app_nil_r.
    repeat split; constructor.
  - rewrite scrape_from_cons in Hrun. cbv zeta in Hrun.
    cbn [cursor_walk].
    destruct (fst (get_video_info E cfg v s e w)) as [[u name]|] eqn:Hinfo.
    + set (r := {| url := u; filename := name; video_id := v;
                   season := s; episode := e |}) in *.
      assert (Hr : named_from_page E cfg r).
      { apply get_video_info_name in Hinfo. exact Hinfo. }
      destruct (advance cfg s e) as [s' e'| |].
      * apply IH in Hrun. destruct Hrun as (new & -> & Hsub & Hnamed).
        exists (r :: new). rewrite <- app_assoc.
        repeat split; [now apply Subseq_take|now constructor].
      * injection Hrun as <-. exists [r].
        repeat split; [apply Subseq_take|]; repeat constructor. exact Hr.
      * discriminate Hrun.
    + destruct (advance cfg s e) as [s' e'| |].
      * apply IH in Hrun. destruct Hrun as (new & -> & Hsub & Hnamed).
        exists new. repeat split; [now apply Subseq_skip|exact Hnamed].
      * injection Hrun as <-. exists []. rewrite app_nil_r.
        repeat split; constructor.
      * discriminate Hrun.
Qed.

Lemma scrape_from_returns E cfg ids :
  forall videos s e w,
    (1 <= s <= len (SEASON_EPISODES cfg))%Z ->
    exists videos', fst (scrape_from E cfg ids videos s e w) = Returned videos'.
Proof.
  induction ids as [|v ids IH]; intros videos s e w Hs.
  - now exists videos.
  - rewrite scrape_from_cons. cbv zeta.
    destruct (advance_in_table cfg s e Hs) as [->|(s' & e' & -> & Hs')].
    + eexists. reflexivity.
    + now apply IH.
Qed.

Lemma records_where_app q l1 l2 :
  records_where q (l1 ++ l2)
  = (records_where q l1 + records_where q l2)%nat.
Proof. unfold records_where. now rewrite filter_app, length_app. Qed.

Lemma skips_where_cons q e w :
  skips_where q (e :: w)
  = ((if is_skip q e then 1 else 0) + skips_where q w)%nat.
Proof. apply count_cons. Qed.

(** Each identifier the loop reaches adds one record or one skip. *)
Lemma scrape_from_outcomes E cfg q ids :
  forall videos s e w videos',
    fst (scrape_from E cfg ids videos s e w) = Returned videos' ->
    (records_where q videos'
     + skips_where q (snd (scrape_from E cfg ids videos s e w))
     = records_where q videos + skips_where q w
       + List.length (filter q (map fst (cursor_walk cfg ids s e))))%nat.
Proof.
  induction ids as [|v ids IH]; intros videos s e w videos' Hrun.
  - injection Hrun as <-. cbn [scrape_from cursor_walk map filter].
    unfold scrape_done, bind, log, emit, ret. cbn [snd List.length].
    rewrite skips_where_cons. cbn [is_skip]. lia.
  - revert Hrun. rewrite scrape_from_cons. cbv zeta. cbn [cursor_walk].
    assert (Hs1 := get_video_info_skips E cfg v s e w q).
    cbn [map fst filter].
    destruct (fst (get_video_info E cfg v s e w)) as [[u name]|].
    + set (r := {| url := u; filename := name; video_id := v;
                   season := s; episode := e |}).
      assert (Hr : records_where q (videos ++ [r])
                   = (records_where q videos + if q v then 1 else 0)%nat).
      { rewrite records_where_app. unfold records_where at 2.
        cbn [filter video_id r]. now destruct (q v). }
      destruct (advance cfg s e) as [s' e'| |]; intros Hrun.
      * rewrite (IH _ _ _ _ _ Hrun), Hr.
        rewrite !skips_where_cons. cbn [is_skip]. rewrite Hs1.
        destruct (q v); cbn [List.length]; lia.
      * injection Hrun as <-. cbn [snd map filter List.length].
        rewrite Hr, !skips_where_cons. cbn [is_skip]. rewrite Hs1.
        destruct (q v); cbn [List.length]; lia.
      * discriminate Hrun.
    + destruct (advance cfg s e) as [s' e'| |]; intros Hrun.
      * rewrite (IH _ _ _ _ _ Hrun).
        rewrite !skips_where_cons. cbn [is_skip]. rewrite Hs1.
        destruct (q v); cbn [List.length]; lia.
      * injection Hrun as <-. cbn [snd map filter List.length].
        rewrite !skips_where_cons. cbn [is_skip]. rewrite Hs1.
        destruct (q v); cbn [List.length]; lia.
      * discriminate Hrun.
Qed.

(* ================================================================= *)
(** ** The run *)

Lemma scrape_videos_unfold E cfg w :
  scrape_videos E cfg w
  = scrape_from E cfg (range (START_VIDEO_ID cfg) (END_VIDEO_ID cfg + 1)) []
      (STARTING_SEASON cfg) (STARTING_EPISODE cfg)
      (Log INFO (MsgStarting (START_VIDEO_ID cfg) (END_VIDEO_ID cfg)) :: w).
Proof. reflexivity. Qed.

Lemma reached_prefix cfg :
  exists rest,
    range (START_VIDEO_ID cfg) (END_VIDEO_ID cfg + 1) = reached cfg ++ rest.
Proof. apply cursor_walk_prefix. Qed.

Lemma reached_NoDup cfg : NoDup (reached cfg).
Proof.
  destruct (reached_prefix cfg) as [rest Hrest].
  assert (H : NoDup (reached cfg ++ rest)).
  { rewrite <- Hrest. apply sorted_NoDup, range_sorted. }
  now apply NoDup_app_remove_r in H.
Qed.

Lemma filter_eqb_absent v l :
  ~ In v l -> List.length (filter (Z.eqb v) l) = 0%nat.
Proof.
  induction l as [|x l IH]; cbn [filter]; intros H; [reflexivity|].
  destruct (Z.eqb_spec v x) as [->|_].
  - exfalso. apply H. now left.
  - apply IH. intros Hin. apply H. now right.
Qed.

Lemma filter_eqb_once v l :
  NoDup l -> In v l -> List.length (filter (Z.eqb v) l) = 1%nat.
Proof.
  induction 1 as [|x l Hx _ IH]; cbn [filter In]; intros Hin; [tauto|].
  destruct (Z.eqb_spec v x) as [->|Hne].
  - cbn [List.length]. now rewrite filter_eqb_absent.
  - apply IH. destruct Hin; congruence.
Qed.

Lemma cursor_walk_stops cfg ids :
  forall s e rest,
    (1 <= s <= len (SEASON_EPISODES cfg))%Z ->
    ids = map fst (cursor_walk cfg ids s e) ++ rest ->
    rest <> [] ->
    exists c,
      In c (cursor_walk cfg ids s e)
      /\ advance cfg (fst (snd c)) (snd (snd c)) = Break.
Proof.
  induction ids as [|v ids IH]; intros s e rest Hs Hids Hrest.
  - destruct rest; [congruence|discriminate Hids].
  - cbn [cursor_walk] in *.
    destruct (advance_in_table cfg s e Hs) as [Hstop|(s' & e' & Hgo & Hs')].
    + exists (v, (s, e)). split; [now left|exact Hstop].
    + rewrite Hgo in *. cbn [map fst app] in Hids. injection Hids as Hids.
      destruct (IH s' e' rest Hs' Hids Hrest) as (c & Hc & Hstop).
      exists c. split; [now right|exact Hstop].
Qed.

(** C1, as the code has it. From a starting season inside the season
    table, and with a pacing window of delays that [time.sleep]
    takes, the run returns a list, and the identifiers it reaches are
    the first ones of the range; the range goes on after them only
    when the cursor has left the season table. Each identifier that
    is reached has one record or one skip and not both, and every
    other identifier has neither. *)
Theorem scrape_videos_one_outcome_per_reached E cfg :
  (1 <= STARTING_SEASON cfg <= len (SEASON_EPISODES cfg))%Z ->
  sleep_returns (MIN_DELAY cfg) (MAX_DELAY cfg) ->
  exists videos,
    fst (scrape_videos E cfg []) = Returned videos
    /\ (exists rest,
          range (START_VIDEO_ID cfg) (END_VIDEO_ID cfg + 1)
          = reached cfg ++ rest
          /\ (rest <> [] ->
              exists c,
                In c (cursors cfg)
                /\ advance cfg (fst (snd c)) (snd (snd c)) = Break))
    /\ (forall v, In v (reached cfg) ->
          (records_for v videos
           + skips_for v (snd (scrape_videos E cfg [])) = 1)%nat)
    /\ (forall v, ~ In v (reached cfg) ->
          records_for v videos = 0%nat
          /\ skips_for v (snd (scrape_videos E cfg [])) = 0%nat).
Proof.
  intros Hseason _. rewrite scrape_videos_unfold.
  destruct (scrape_from_returns E cfg
              (range (START_VIDEO_ID cfg) (END_VIDEO_ID cfg + 1)) []
              (STARTING_SEASON cfg) (STARTING_EPISODE cfg)
              [Log INFO (MsgStarting (START_VIDEO_ID cfg) (END_VIDEO_ID cfg))]
              Hseason) as [videos Hrun].
  exists videos. split; [exact Hrun|]. split.
  { destruct (reached_prefix cfg) as [rest Hrest]. exists rest.
    split; [exact Hrest|]. intros Hne.
    now apply (cursor_walk_stops cfg _ _ _ rest Hseason Hrest). }
  assert (Hcount := fun v =>
            scrape_from_outcomes E cfg (Z.eqb v) _ _ _ _ _ _ Hrun).
  fold (cursors cfg) in Hcount. fold (reached cfg) in Hcount.
  unfold records_for, skips_for. split; intros v Hv; specialize (Hcount v).
  - rewrite (filter_eqb_once v _ (reached_NoDup cfg) Hv) in Hcount.
    exact Hcount.
  - rewrite (filter_eqb_absent v _ Hv) in Hcount.
    change (records_where (Z.eqb v) []) with 0%nat in Hcount.
    change (skips_where (Z.eqb v)
              [Log INFO (MsgStarting (START_VIDEO_ID cfg) (END_VIDEO_ID cfg))])
      with 0%nat in Hcount.
    lia.
Qed.

Lemma scrape_videos_one_outcome_per_reached_witness :
  exists videos,
    fst (scrape_videos Demo.flaky (Demo.cfg 100 102 [2]%Z) [])
    = Returned videos
    /\ (exists rest,
          [100; 101; 102]%Z = reached (Demo.cfg 100 102 [2]%Z) ++ rest
          /\ (rest <> [] ->
              exists c,
                In c (cursors (Demo.cfg 100 102 [2]%Z))
                /\ advance (Demo.cfg 100 102 [2]%Z)
                     (fst (snd c)) (snd (snd c)) = Break))
    /\ (forall v, In v (reached (Demo.cfg 100 102 [2]%Z)) ->
          (records_for v videos
           + skips_for v
               (snd (scrape_videos Demo.flaky (Demo.cfg 100 102 [2]%Z) []))
           = 1)%nat)
    /\ (forall v, ~ In v (reached (Demo.cfg 100 102 [2]%Z)) ->
          records_for v videos = 0%nat
          /\ skips_for v
               (snd (scrape_videos Demo.flaky (Demo.cfg 100 102 [2]%Z) []))
             = 0%nat).
Proof.
  apply (scrape_videos_one_outcome_per_reached Demo.flaky
           (Demo.cfg 100 102 [2]%Z)).
  - vm_compute. split; discriminate.
  - vm_compute. repeat split; discriminate.
Defined.

(** C1, as the spec has it, fails: over 100..102 with one season of
    two episodes the run stops after 101, and 102, inside the range,
    has neither a record nor a skip. *)
Lemma one_outcome_each_fails :
  ~ one_outcome_each Demo.flaky (Demo.cfg 100 102 [2]%Z).
Proof.
  intros H. destruct (H 102%Z) as (videos & Hrun & Hcount).
  - simpl. lia.
  - vm_compute in Hrun. injection Hrun as <-.
    vm_compute in Hcount. discriminate Hcount.
Qed.

Lemma count_from_five k n :
  (5 <= n)%nat ->
  exists rest,
    count_from k n
    = k :: (k + 1)%Z :: (k + 2)%Z :: (k + 3)%Z :: (k + 4)%Z :: rest.
Proof.
  intros Hn.
  do 5 (destruct n as [|n]; [lia|]).
  exists (count_from (k + 1 + 1 + 1 + 1 + 1) n). cbn [count_from].
  replace (k + 1 + 1)%Z with (k + 2)%Z by lia.
  replace (k + 2 + 1)%Z with (k + 3)%Z by lia.
  replace (k + 3 + 1)%Z with (k + 4)%Z by lia.
  reflexivity.
Qed.

(** C2. With the season table [2; 3] the cursor goes from (1,1) to
    (1,2), (2,1), (2,2), (2,3), and the advance after that leaves the
    table and ends the loop. The cursor moves once for every
    identifier that is processed, found or skipped: the records of a
    run carry the positions of the walk that [advance] alone
    determines, and the records and skips together are as many as the
    steps of that walk. *)
Theorem cursor_advances_each_identifier :
  (forall cfg, SEASON_EPISODES cfg = [2; 3]%Z ->
     advance cfg 1 1 = Continue 1 2
     /\ advance cfg 1 2 = Continue 2 1
     /\ advance cfg 2 1 = Continue 2 2
     /\ advance cfg 2 2 = Continue 2 3
     /\ advance cfg 2 3 = Break)
  /\ (forall E cfg w videos,
        fst (scrape_videos E cfg w) = Returned videos ->
        Subseq (map position videos) (cursors cfg)
        /\ (List.length videos
            + skips_where (fun _ => true) (snd (scrape_videos E cfg w))
            = skips_where (fun _ => true) w + List.length (cursors cfg))%nat)
  /\ (forall cfg,
        SEASON_EPISODES cfg = [2; 3]%Z ->
        STARTING_SEASON cfg = 1%Z -> STARTING_EPISODE cfg = 1%Z ->
        (START_VIDEO_ID cfg + 4 <= END_VIDEO_ID cfg)%Z ->
        cursors cfg
        = [(START_VIDEO_ID cfg, (1, 1)); (START_VIDEO_ID cfg + 1, (1, 2));
           (START_VIDEO_ID cfg + 2, (2, 1)); (START_VIDEO_ID cfg + 3, (2, 2));
           (START_VIDEO_ID cfg + 4, (2, 3))]%Z).
Proof.
  split; [|split].
  - intros cfg Htable. unfold advance. rewrite Htable.
    repeat split; reflexivity.
  - intros E cfg w videos Hrun. rewrite scrape_videos_unfold in *. split.
    + destruct (scrape_from_records E cfg _ _ _ _ _ _ Hrun)
        as (new & -> & Hsub & _).
      exact Hsub.
    + assert (Hcount := scrape_from_outcomes E cfg (fun _ => true)
                          _ _ _ _ _ _ Hrun).
      assert (Hall : forall A (l : list A),
                 List.length (filter (fun _ => true) l) = List.length l).
      { intros A l. induction l; cbn [filter List.length]; congruence. }
      unfold records_where in Hcount. rewrite !Hall in Hcount.
      rewrite length_map in Hcount. fold (cursors cfg) in Hcount.
      rewrite skips_where_cons in Hcount. cbn [is_skip List.length] in Hcount.
      exact Hcount.
  - intros cfg Htable Hseason Hepisode Hrange. unfold cursors.
    rewrite Hseason, Hepisode, range_count_from.
    destruct (count_from_five (START_VIDEO_ID cfg)
                (Z.to_nat (END_VIDEO_ID cfg + 1 - START_VIDEO_ID cfg)))
      as [rest ->]; [lia|].
    cbn [cursor_walk]. unfold advance. rewrite Htable. reflexivity.
Qed.

Lemma cursor_advances_each_identifier_witness :
  advance (Demo.cfg 100 110 [2; 3]%Z) 2 3 = Break
  /\ Subseq (map position
               (returned_videos Demo.flaky (Demo.cfg 100 110 [2; 3]%Z) []))
            (cursors (Demo.cfg 100 110 [2; 3]%Z))
  /\ cursors (Demo.cfg 100 110 [2; 3]%Z)
     = [(100, (1, 1)); (101, (1, 2)); (102, (2, 1)); (103, (2, 2));
        (104, (2, 3))]%Z.
Proof.
  destruct cursor_advances_each_identifier as (Hsteps & Hrun & Hwalk).
  split; [|split].
  - apply (Hsteps (Demo.cfg 100 110 [2; 3]%Z)). reflexivity.
  - apply (Hrun Demo.flaky (Demo.cfg 100 110 [2; 3]%Z) []). reflexivity.
  - apply (Hwalk (Demo.cfg 100 110 [2; 3]%Z)); try reflexivity.
    vm_compute. discriminate.
Defined.

(** C3. Every record of the returned list has its identifier in the
    configured range, the identifiers increase strictly along the
    list, so none occurs twice, and no file name has one of the nine
    unsafe characters. *)
Theorem scrape_videos_records_invariant E cfg w videos :
  FILENAME_REPLACE_CHARS cfg = default_replace_chars ->
  fst (scrape_videos E cfg w) = Returned videos ->
  Forall (fun r => (START_VIDEO_ID cfg <= video_id r <= END_VIDEO_ID cfg)%Z)
         videos
  /\ StronglySorted Z.lt (map video_id videos)
  /\ NoDup (map video_id videos)
  /\ Forall (fun r => safe_name (filename r)) videos.
Proof.
  intros Htable Hrun. rewrite scrape_videos_unfold in Hrun.
  destruct (scrape_from_records E cfg _ _ _ _ _ _ Hrun)
    as (new & -> & Hsub & Hnamed).
  cbn [app].
  assert (Hids : Subseq (map video_id new)
                   (range (START_VIDEO_ID cfg) (END_VIDEO_ID cfg + 1))).
  { apply (Subseq_map fst) in Hsub. rewrite map_map in Hsub.
    cbn [position fst] in Hsub.
    apply (Subseq_trans _ _ _ Hsub).
    destruct (cursor_walk_prefix cfg
                (range (START_VIDEO_ID cfg) (END_VIDEO_ID cfg + 1))
                (STARTING_SEASON cfg) (STARTING_EPISODE cfg)) as [rest Hrest].
    rewrite Hrest at 2. apply Subseq_prefix. }
  assert (Hsorted : StronglySorted Z.lt (map video_id new)).
  { apply (Subseq_sorted _ _ _ Hids), range_sorted. }
  split; [|split; [exact Hsorted|split; [now apply sorted_NoDup|]]].
  - assert (Hin : Forall (fun v => (START_VIDEO_ID cfg <= v
                                    <= END_VIDEO_ID cfg)%Z)
                    (map video_id new)).
    { apply (Subseq_Forall _ _ _ Hids). apply Forall_forall.
      intros v Hv. apply in_range in Hv. lia. }
    now rewrite Forall_map in Hin.
  - apply Forall_forall. intros r Hr.
    rewrite Forall_forall in Hnamed.
    now apply (named_from_page_safe E cfg r Htable), Hnamed.
Qed.

Lemma scrape_videos_records_invariant_witness :
  let videos := returned_videos Demo.flaky (Demo.cfg 100 110 [2; 3]%Z) [] in
  List.length videos = 5%nat
  /\ Forall (fun r => (100 <= video_id r <= 110)%Z) videos
  /\ StronglySorted Z.lt (map video_id videos)
  /\ NoDup (map video_id videos)
  /\ Forall (fun r => safe_name (filename r)) videos.
Proof.
  split; [reflexivity|].
  apply (scrape_videos_records_invariant Demo.flaky
           (Demo.cfg 100 110 [2; 3]%Z) []); reflexivity.
Defined.

(** C10. From a starting season inside the season table every cursor
    the loop works under has its season inside the table, so the
    access [SEASON_EPISODES[season - 1]] finds an entry each time and
    the run does not end with IndexError. From a starting season
    beyond the table, and with a range that is not empty, the first
    cursor update raises IndexError and so does the run. *)
Theorem season_table_access E cfg w :
  ((1 <= STARTING_SEASON cfg <= len (SEASON_EPISODES cfg))%Z ->
   fst (scrape_videos E cfg w) <> IndexError
   /\ Forall (fun c =>
                (0 <= fst (snd c) - 1 < len (SEASON_EPISODES cfg))%Z
                /\ exists n,
                     index (SEASON_EPISODES cfg) (fst (snd c) - 1) = Some n)
             (cursors cfg))
  /\ ((len (SEASON_EPISODES cfg) < STARTING_SEASON cfg)%Z ->
      (START_VIDEO_ID cfg <= END_VIDEO_ID cfg)%Z ->
      advance cfg (STARTING_SEASON cfg) (STARTING_EPISODE cfg)
      = RaiseIndexError
      /\ fst (scrape_videos E cfg w) = IndexError).
Proof.
  split.
  - intros Hseason. split.
    + rewrite scrape_videos_unfold.
      destruct (scrape_from_returns E cfg
                  (range (START_VIDEO_ID cfg) (END_VIDEO_ID cfg + 1)) []
                  (STARTING_SEASON cfg) (STARTING_EPISODE cfg)
                  (Log INFO (MsgStarting (START_VIDEO_ID cfg)
                                         (END_VIDEO_ID cfg)) :: w)
                  Hseason) as [videos Hrun].
      rewrite Hrun. discriminate.
    + assert (Hwalk := cursor_walk_in_table cfg
                (range (START_VIDEO_ID cfg) (END_VIDEO_ID cfg + 1))
                (STARTING_SEASON cfg) (STARTING_EPISODE cfg) Hseason).
      fold (cursors cfg) in Hwalk.
      eapply Forall_impl; [|exact Hwalk].
      intros c Hc. cbv beta in Hc. split; [lia|].
      apply index_in_bounds. lia.
  - intros Hseason Hrange.
    assert (Hraise := advance_beyond_table cfg (STARTING_SEASON cfg)
                        (STARTING_EPISODE cfg) Hseason).
    split; [exact Hraise|].
    rewrite scrape_videos_unfold, range_count_from.
    destruct (Z.to_nat (END_VIDEO_ID cfg + 1 - START_VIDEO_ID cfg))
      as [|n] eqn:Hn; [lia|].
    cbn [count_from]. rewrite scrape_from_cons. cbv zeta.
    rewrite Hraise. reflexivity.
Qed.

Lemma season_table_access_witness :
  fst (scrape_videos Demo.flaky config []) <> IndexError
  /\ fst (scrape_videos Demo.flaky Demo.late_start []) = IndexError.
Proof.
  split.
  - apply (proj1 (season_table_access Demo.flaky config [])).
    vm_compute. split; discriminate.
  - apply (proj2 (season_table_access Demo.flaky Demo.late_start [])).
    + reflexivity.
    + vm_compute. discriminate.
Defined.

(** C9, where the code departs from it. A run over the one
    identifier 100, with room left in the season table, logs the
    outcome for 100 and then sleeps the pacing delay before it ends,
    although no request follows. *)
Theorem pacing_sleep_after_last_identifier E :
  exists videos outcome earlier,
    scrape_videos E (Demo.cfg 100 100 [2]%Z) []
    = (Returned videos,
       Log INFO (MsgCompleted (len videos))
       :: Sleep 3 7 :: Log INFO MsgWaiting :: outcome :: earlier)
    /\ (outcome = Log WARNING (MsgFailed 100)
        \/ exists name, outcome = Log INFO (MsgFound name)).
Proof.
  rewrite scrape_videos_unfold.
  change (range (START_VIDEO_ID (Demo.cfg 100 100 [2]%Z))
            (END_VIDEO_ID (Demo.cfg 100 100 [2]%Z) + 1)) with [100%Z].
  rewrite scrape_from_cons. cbv zeta.
  change (advance (Demo.cfg 100 100 [2]%Z)
            (STARTING_SEASON (Demo.cfg 100 100 [2]%Z))
            (STARTING_EPISODE (Demo.cfg 100 100 [2]%Z)))
    with (Continue 1 2).
  cbv iota.
  destruct (fst (get_video_info E (Demo.cfg 100 100 [2]%Z) 100 _ _ _))
    as [[u name]|]; do 3 eexists; (split; [reflexivity|]).
  - right. now exists name.
  - now left.
Qed.



(* ================================================================= *)
(** ** The link list: writing and reading the file *)

Lemma translate_out_app p s t :
  translate_out p (s ++ t) = translate_out p s ++ translate_out p t.
Proof.
  induction s as [|c s IH]; cbn [translate_out app]; [reflexivity|].
  destruct (chr_eqb c LF); rewrite IH; [now rewrite app_assoc|reflexivity].
Qed.

Lemma translate_round_trip p s :
  ~ In CR s -> translate_in (translate_out p s) = s.
Proof.
  induction s as [|c s IH]; intros Hcr; [reflexivity|].
  assert (Hc : chr_eqb c CR = false).
  { apply chr_eqb_neq. intros ->. apply Hcr. now left. }
  assert (IH' : translate_in (translate_out p s) = s).
  { apply IH. intros Hin. apply Hcr. now right. }
  cbn [translate_out]. destruct (chr_eqb c LF) eqn:Hlf.
  - apply chr_eqb_eq in Hlf. subst c.
    destruct p; cbn [linesep app translate_in chr_eqb N.eqb Pos.eqb CR LF];
      now rewrite IH'.
  - cbn [translate_in]. rewrite Hc. now rewrite IH'.
Qed.

Lemma write_all_ok p chunks :
  Forall (fun chunk => forallb encodable chunk = true) chunks ->
  write_all p chunks = (translate_out p (List.concat chunks), true).
Proof.
  induction 1 as [|chunk chunks Hchunk _ IH]; [reflexivity|].
  cbn [write_all List.concat]. rewrite Hchunk, IH.
  now rewrite translate_out_app.
Qed.

Lemma one_line_spec s : one_line s = true -> ~ In LF s /\ ~ In CR s.
Proof.
  unfold one_line. rewrite forallb_forall. intros H.
  split; intros Hin; apply H in Hin; discriminate Hin.
Qed.

Lemma link_block_chars videos :
  Forall link_ok videos ->
  Forall (fun chunk => forallb encodable chunk = true)
         (flat_map link_block videos)
  /\ ~ In CR (List.concat (flat_map link_block videos)).
Proof.
  induction 1 as [|r videos Hr _ [IHenc IHcr]]; [split; [constructor|tauto]|].
  destruct Hr as (_ & Hurl & _ & Henc_url & Hname & _ & Henc_name).
  apply one_line_spec in Hurl, Hname.
  cbn [flat_map link_block app List.concat]. split.
  - constructor; [|constructor; [|exact IHenc]].
    + rewrite forallb_app, Henc_url. reflexivity.
    + rewrite !forallb_app, Henc_name. reflexivity.
  - rewrite !in_app_iff. cbn [In lit list_ascii_of_string map].
    intros [[H|[H|[]]]|[[H|[H|[H|[H|[]]]]]|H]];
      try tauto; try discriminate H.
    vm_compute in H. repeat (destruct H as [H|H]; [discriminate H|]).
    exact H.
Qed.

Lemma save_download_links_text p videos w :
  Forall link_ok videos ->
  fst (save_download_links p true videos w)
  = Some (translate_out p (List.concat (flat_map link_block videos))).
Proof.
  intros Hok. unfold save_download_links.
  rewrite write_all_ok by now apply link_block_chars.
  reflexivity.
Qed.

(* ================================================================= *)
(** ** The link list: stripping and splitting *)

Lemma lstrip_spaces t s :
  forallb isspace t = true -> lstrip (t ++ s) = lstrip s.
Proof.
  induction t as [|c t IH]; cbn [forallb app lstrip]; [reflexivity|].
  intros H. apply andb_true_iff in H. destruct H as [-> H]. now apply IH.
Qed.

Lemma lstrip_clean c s : isspace c = false -> lstrip (c :: s) = c :: s.
Proof. intros H. cbn [lstrip]. now rewrite H. Qed.

Lemma rstrip_clean s : ends_clean s = true -> rstrip s = s.
Proof.
  unfold ends_clean, rstrip. intros H.
  destruct (rev s) as [|c l] eqn:Hrev.
  - apply (f_equal (@rev char)) in Hrev. rewrite rev_involutive in Hrev.
    now subst s.
  - apply negb_true_iff in H. rewrite lstrip_clean by exact H.
    rewrite <- Hrev. apply rev_involutive.
Qed.

Lemma rstrip_spaces s t :
  forallb isspace t = true -> rstrip (s ++ t) = rstrip s.
Proof.
  intros H. unfold rstrip. rewrite rev_app_distr, lstrip_spaces; [reflexivity|].
  rewrite forallb_forall in *. intros c Hc. apply H. now apply in_rev.
Qed.

Lemma ends_clean_app a b :
  ends_clean a = true -> ends_clean b = true -> ends_clean (a ++ b) = true.
Proof.
  unfold ends_clean. intros Ha Hb. rewrite rev_app_distr.
  destruct (rev b) as [|c l]; [exact Ha|exact Hb].
Qed.

Lemma ends_clean_after a c b :
  ends_clean (c :: b) = true -> ends_clean (a ++ c :: b) = true.
Proof.
  unfold ends_clean. rewrite rev_app_distr. cbn [rev].
  destruct (rev b) as [|d l]; cbn [app]; auto.
Qed.

Lemma startswith_head prefix c s :
  startswith (c :: prefix) s = true -> exists s', s = c :: s'.
Proof.
  destruct s as [|d s]; cbn [startswith]; [discriminate|].
  intros H. apply andb_true_iff in H. destruct H as [H _].
  apply chr_eqb_eq in H. subst d. now exists s.
Qed.

Lemma split_on_line sep l rest :
  ~ In sep l -> split_on sep (l ++ sep :: rest) = l :: split_on sep rest.
Proof.
  induction l as [|c l IH]; intros Hl; cbn [app split_on].
  - now rewrite (proj2 (chr_eqb_eq sep sep) eq_refl).
  - replace (chr_eqb c sep) with false
      by (symmetry; apply chr_eqb_neq; intros ->; apply Hl; now left).
    rewrite IH; [reflexivity|]. intros Hin. apply Hl. now right.
Qed.

Lemma split_on_last sep l : ~ In sep l -> split_on sep l = [l].
Proof.
  induction l as [|c l IH]; intros Hl; cbn [split_on]; [reflexivity|].
  replace (chr_eqb c sep) with false
    by (symmetry; apply chr_eqb_neq; intros ->; apply Hl; now left).
  rewrite IH; [reflexivity|]. intros Hin. apply Hl. now right.
Qed.

(** The two text forms of the link list. *)
Lemma link_text_body r videos :
  List.concat (flat_map link_block (r :: videos))
  = link_body (r :: videos) ++ [LF; LF].
Proof.
  revert r. induction videos as [|r' videos IH]; intros r.
  - cbn [flat_map link_block link_body List.concat app].
    rewrite !app_nil_r, <- !app_assoc. reflexivity.
  - change (flat_map link_block (r :: r' :: videos))
      with (link_block r ++ flat_map link_block (r' :: videos)).
    rewrite concat_app, IH.
    change (link_body (r :: r' :: videos))
      with (url r ++ LF :: (lit "  out=" ++ filename r)
            ++ LF :: LF :: link_body (r' :: videos)).
    cbn [link_block List.concat].
    generalize (link_body (r' :: videos)) as body.
    generalize (lit "  out=") as out. intros out body.
    repeat first [rewrite <- app_assoc | rewrite app_nil_r | progress cbn [app]].
    reflexivity.
Qed.

Lemma out_line_ends_clean name :
  ends_clean name = true -> ends_clean (lit "out=" ++ name) = true.
Proof. intros H. now apply ends_clean_app. Qed.

Lemma ends_clean_suffix a b :
  b <> [] -> ends_clean b = true -> ends_clean (a ++ b) = true.
Proof.
  unfold ends_clean. intros Hne Hb. rewrite rev_app_distr.
  destruct (rev b) as [|c l] eqn:Hrev; [|exact Hb].
  apply (f_equal (@rev char)) in Hrev. rewrite rev_involutive in Hrev.
  contradiction.
Qed.

Lemma link_body_nonempty r videos : link_body (r :: videos) <> [].
Proof. cbn [link_body]. destruct (url r); discriminate. Qed.

Lemma link_body_cons r r' videos :
  link_body (r :: r' :: videos)
  = (url r ++ LF :: (lit "  out=" ++ filename r) ++ [LF; LF])
    ++ link_body (r' :: videos).
Proof.
  change (link_body (r :: r' :: videos))
    with (url r ++ LF :: (lit "  out=" ++ filename r)
          ++ LF :: LF :: link_body (r' :: videos)).
  generalize (link_body (r' :: videos)) as body.
  generalize (lit "  out=") as out. intros out body.
  repeat first [rewrite <- app_assoc | progress cbn [app]].
  reflexivity.
Qed.

Lemma link_body_one r :
  link_body [r]
  = (url r ++ [LF; SPACE; SPACE]) ++ lit "out=" ++ filename r.
Proof.
  cbn [link_body]. rewrite app_nil_r, <- app_assoc. reflexivity.
Qed.

Lemma link_body_ends_clean r videos :
  Forall link_ok (r :: videos) -> ends_clean (link_body (r :: videos)) = true.
Proof.
  revert r. induction videos as [|r' videos IH]; intros r Hok;
    inversion Hok as [|? ? Hr Hrest]; subst;
    destruct Hr as (_ & _ & _ & _ & _ & Hname & _).
  - rewrite link_body_one. apply ends_clean_suffix; [discriminate|].
    now apply out_line_ends_clean.
  - rewrite link_body_cons.
    apply ends_clean_suffix; [apply link_body_nonempty|now apply IH].
Qed.

Lemma strip_clean c s :
  isspace c = false -> ends_clean (c :: s) = true -> strip (c :: s) = c :: s.
Proof.
  intros Hc Hend. unfold strip. rewrite lstrip_clean by exact Hc.
  now apply rstrip_clean.
Qed.

Lemma url_shape r :
  link_ok r -> exists rest, url r = 104%N :: rest.
Proof.
  intros (Hurl & _). now apply (startswith_head (lit "ttps://")).
Qed.

Lemma strip_link_text r videos :
  Forall link_ok (r :: videos) ->
  strip (link_body (r :: videos) ++ [LF; LF]) = link_body (r :: videos).
Proof.
  intros Hok. assert (Hend := link_body_ends_clean r videos Hok).
  inversion Hok as [|? ? Hr _]; subst.
  destruct (url_shape r Hr) as [rest Hurl].
  unfold strip.
  assert (Hl : lstrip (link_body (r :: videos) ++ [LF; LF])
               = link_body (r :: videos) ++ [LF; LF]).
  { cbn [link_body]. rewrite Hurl. cbn [app]. now apply lstrip_clean. }
  rewrite Hl, rstrip_spaces by reflexivity.
  now apply rstrip_clean.
Qed.

Lemma out_line_one_line name :
  one_line name = true -> ~ In LF (lit "  out=" ++ name).
Proof.
  intros Hname. apply one_line_spec in Hname. rewrite in_app_iff.
  intros [H|H]; [|tauto].
  vm_compute in H. repeat (destruct H as [H|H]; [discriminate H|]). exact H.
Qed.

Lemma split_link_body r videos :
  Forall link_ok (r :: videos) ->
  split_on LF (link_body (r :: videos)) = link_lines (r :: videos).
Proof.
  revert r. induction videos as [|r' videos IH]; intros r Hok;
    inversion Hok as [|? ? Hr Hrest]; subst;
    destruct Hr as (_ & Hurl & _ & _ & Hname & _).
  - cbn [link_body link_lines]. rewrite app_nil_r.
    rewrite split_on_line by now apply one_line_spec.
    rewrite split_on_last by now apply out_line_one_line.
    reflexivity.
  - change (link_body (r :: r' :: videos))
      with (url r ++ LF :: (lit "  out=" ++ filename r)
            ++ LF :: LF :: link_body (r' :: videos)).
    rewrite split_on_line by now apply one_line_spec.
    rewrite split_on_line by now apply out_line_one_line.
    change (split_on LF (LF :: link_body (r' :: videos)))
      with ([] :: split_on LF (link_body (r' :: videos))).
    now rewrite IH.
Qed.

(** The two lines of one record add its pair. *)
Lemma parse_link_block r lines links :
  link_ok r ->
  parse_lines (url r :: (lit "  out=" ++ filename r) :: lines) None links
  = parse_lines lines None (links ++ [pair_of r]).
Proof.
  intros Hr. destruct (url_shape r Hr) as [rest Hshape].
  destruct Hr as (Hurl & _ & Hend & _ & _ & Hname & _).
  assert (Hstrip : strip (url r) = url r).
  { rewrite Hshape in *. now apply strip_clean. }
  assert (Hout : strip (lit "  out=" ++ filename r)
                 = lit "out=" ++ filename r).
  { unfold strip.
    change (lstrip (lit "  out=" ++ filename r))
      with (lit "out=" ++ filename r).
    now apply rstrip_clean, out_line_ends_clean. }
  cbn [parse_lines]. cbv zeta. rewrite Hstrip, Hurl, Hout.
  change (startswith (lit "https://") (lit "out=" ++ filename r)) with false.
  change (startswith (lit "out=") (lit "out=" ++ filename r)) with true.
  change (skipn 4 (lit "out=" ++ filename r)) with (filename r).
  cbv iota. unfold pair_of. rewrite Hshape. reflexivity.
Qed.

Lemma parse_link_lines r videos :
  Forall link_ok (r :: videos) ->
  forall links,
    parse_lines (link_lines (r :: videos)) None links
    = links ++ map pair_of (r :: videos).
Proof.
  revert r. induction videos as [|r' videos IH]; intros r Hok links;
    inversion Hok as [|? ? Hr Hrest]; subst.
  - cbn [link_lines]. now rewrite parse_link_block.
  - change (link_lines (r :: r' :: videos))
      with (url r :: (lit "  out=" ++ filename r) :: []
            :: link_lines (r' :: videos)).
    rewrite parse_link_block by exact Hr.
    change (parse_lines ([] :: link_lines (r' :: videos)) None
              (links ++ [pair_of r]))
      with (parse_lines (link_lines (r' :: videos)) None
              (links ++ [pair_of r])).
    rewrite IH by exact Hrest.
    now rewrite <- app_assoc.
Qed.

(** C4, as the code has it. A list of records comes back from the
    link list as the same pairs in the same order when every URL
    starts with "https://", and every URL and file name holds no line
    feed, no carriage return and no surrogate code point and does not
    end in whitespace; so does the record of the example. *)
Theorem links_round_trip p videos w :
  Forall link_ok videos ->
  load_links (fst (save_download_links p true videos w)) = map pair_of videos.
Proof.
  intros Hok. rewrite save_download_links_text by exact Hok.
  unfold load_links.
  rewrite translate_round_trip by now apply link_block_chars.
  destruct videos as [|r videos]; [reflexivity|].
  rewrite link_text_body, strip_link_text, split_link_body by exact Hok.
  now rewrite parse_link_lines.
Qed.

Lemma links_round_trip_witness :
  load_links (fst (save_download_links Windows true [DemoLinks.demo] []))
  = [(lit "https://x/a.mp4", lit "S01-E01-Demo.mp4")].
Proof.
  apply (links_round_trip Windows [DemoLinks.demo] []).
  repeat constructor.
Defined.

(** C4, as the spec has it, fails: a URL that starts with "https://"
    and ends in a space comes back without the space. *)
Lemma round_trip_as_stated_fails : ~ round_trip_as_stated.
Proof.
  intros H. specialize (H Posix [DemoLinks.trailing_space]).
  assert (Hpre : Forall (fun r => startswith (lit "https://") (url r) = true
                                  /\ ~ In LF (filename r))
                   [DemoLinks.trailing_space]).
  { constructor; [|constructor]. split; [reflexivity|].
    intros Hin. vm_compute in Hin.
    repeat (destruct Hin as [Hin|Hin]; [discriminate Hin|]). exact Hin. }
  specialize (H Hpre). vm_compute in H. discriminate H.
Qed.

(** The conditions on carriage returns and on surrogates are needed
    as well: the first is read back as a line break, the second stops
    the writing. *)
Example carriage_return_breaks_the_line :
  load_links
    (fst (save_download_links Posix true [DemoLinks.carriage_return] []))
  = [(lit "https://x/a.mp4", lit "S01-E01-De")].
Proof. reflexivity. Qed.

Example surrogate_stops_the_writing :
  load_links (fst (save_download_links Posix true [DemoLinks.surrogate] []))
  = [].
Proof. reflexivity. Qed.

(** With the values of config.py the eighth identifier is the last
    episode of the last season: the run ends on the season warning,
    with no pacing sleep after the last identifier. *)
Example default_run_ends_on_the_break :
  firstn 3 (snd (scrape_videos Demo.always_short config []))
  = [Log INFO (MsgCompleted 0); Log WARNING MsgSeasonExceeded;
     Log WARNING (MsgFailed 5634)].
Proof. vm_compute. reflexivity. Qed.

(* ================================================================= *)
(** ** More on sanitizing *)

Lemma word_ends_clean w : word w -> ends_clean w = true.
Proof.
  intros [_ Hw]. unfold ends_clean.
  destruct (rev w) as [|c l] eqn:Hrev; [reflexivity|].
  rewrite Forall_forall in Hw. rewrite (Hw c); [reflexivity|].
  apply in_rev. rewrite Hrev. now left.
Qed.

Lemma join_words_shape ws :
  Forall word ws -> ws <> [] ->
  exists c r,
    join (lit " ") ws = c :: r
    /\ isspace c = false
    /\ ends_clean (c :: r) = true.
Proof.
  induction 1 as [|w ws Hw Hws IH]; intros Hne; [congruence|].
  destruct ws as [|w' ws'].
  - cbn [join]. assert (Hend := word_ends_clean w Hw).
    destruct Hw as [Hw0 Hw1]. destruct w as [|c r]; [congruence|].
    exists c, r. inversion Hw1; subst. auto.
  - destruct IH as (c' & r' & Hjoin & _ & Hend'); [discriminate|].
    change (join (lit " ") (w :: w' :: ws'))
      with (w ++ SPACE :: join (lit " ") (w' :: ws')).
    rewrite Hjoin.
    destruct Hw as [Hw0 Hw1]. destruct w as [|c r]; [congruence|].
    exists c, (r ++ SPACE :: c' :: r'). inversion Hw1; subst.
    repeat split; [assumption|].
    replace (c :: r ++ SPACE :: c' :: r')
      with ((c :: r ++ [SPACE]) ++ c' :: r')
      by (cbn [app]; rewrite <- app_assoc; reflexivity).
    apply ends_clean_suffix; [discriminate|exact Hend'].
Qed.

(** Where a separator that is not in [w] comes first on both sides. *)
Lemma first_separator (x : char) w R a R' :
  ~ In x w ->
  w ++ x :: R = a ++ x :: R' ->
  (a = w /\ R = R') \/ exists a', a = w ++ x :: a' /\ R = a' ++ x :: R'.
Proof.
  revert a. induction w as [|c w IH]; intros a Hw Heq.
  - destruct a as [|d a]; cbn [app] in Heq.
    + injection Heq as ->. now left.
    + injection Heq as <- ->. right. now exists a.
  - destruct a as [|d a]; cbn [app] in Heq.
    + injection Heq as -> _. exfalso. apply Hw. now left.
    + injection Heq as <- Heq.
      destruct (IH a) as [[-> ->]|(a' & -> & ->)];
        [intros Hin; apply Hw; now right|exact Heq|now left|].
      right. now exists a'.
Qed.

Lemma join_words_single_spaces ws :
  Forall word ws ->
  forall a b, join (lit " ") ws <> a ++ SPACE :: SPACE :: b.
Proof.
  induction 1 as [|w ws Hw Hws IH]; intros a b Heq.
  - destruct a; discriminate Heq.
  - assert (Hspace : ~ In SPACE w).
    { destruct Hw as [_ Hw]. rewrite Forall_forall in Hw.
      intros Hin. apply Hw in Hin. discriminate Hin. }
    destruct ws as [|w' ws'].
    + cbn [join] in Heq. apply Hspace. rewrite Heq.
      apply in_or_app. right. now left.
    + change (join (lit " ") (w :: w' :: ws'))
        with (w ++ SPACE :: join (lit " ") (w' :: ws')) in Heq.
      apply first_separator in Heq; [|exact Hspace].
      destruct Heq as [[_ Heq]|(a' & _ & Heq)].
      * destruct (join_words_shape (w' :: ws') Hws) as (c & r & Hj & Hc & _);
          [discriminate|].
        rewrite Hj in Heq. injection Heq as -> _. discriminate Hc.
      * now apply (IH a' b).
Qed.

(** X1. Whatever the replacement table, a sanitized name neither
    starts nor ends with whitespace, its only whitespace characters
    are spaces, and no two spaces are next to each other. *)
Theorem sanitize_filename_normal_form cfg s :
  strip (_sanitize_filename cfg s) = _sanitize_filename cfg s
  /\ (forall c, In c (_sanitize_filename cfg s) ->
        isspace c = true -> c = SPACE)
  /\ (forall a b, _sanitize_filename cfg s <> a ++ SPACE :: SPACE :: b).
Proof.
  unfold _sanitize_filename.
  set (t := replace_chars (FILENAME_REPLACE_CHARS cfg) s).
  assert (Hwords := split_words t).
  split; [|split].
  - destruct (split t) as [|w ws] eqn:Hsplit; [reflexivity|].
    destruct (join_words_shape (w :: ws) Hwords) as (c & r & -> & Hc & Hend);
      [discriminate|].
    now apply strip_clean.
  - intros c Hin Hc. apply in_join in Hin.
    destruct Hin as [[Hin|[]]|(w & Hw & Hin)]; [now symmetry|].
    rewrite Forall_forall in Hwords. destruct (Hwords w Hw) as [_ Hink].
    rewrite Forall_forall in Hink. rewrite (Hink c Hin) in Hc. discriminate Hc.
  - now apply join_words_single_spaces.
Qed.







Lemma lstrip_head s c r : lstrip s = c :: r -> isspace c = false.
Proof.
  induction s as [|d s IH]; cbn [lstrip]; [discriminate|].
  destruct (isspace d) eqn:Hd; [exact IH|].
  intros H. injection H as <- _. exact Hd.
Qed.

Lemma strip_has_ink s : strip s <> [] -> has_ink (strip s) = true.
Proof.
  unfold strip, rstrip. intros Hne.
  destruct (lstrip (rev (lstrip s))) as [|c r] eqn:Hl; [now elim Hne|].
  apply lstrip_head in Hl. unfold has_ink. apply existsb_exists.
  exists c. split; [|now rewrite Hl].
  apply in_rev. rewrite rev_involutive. now left.
Qed.

Lemma has_ink_app_r s t : has_ink t = true -> has_ink (s ++ t) = true.
Proof. intros H. unfold has_ink. rewrite existsb_app, orb_true_iff. now right. Qed.

Lemma replace_has_ink old new s :
  has_ink new = true -> has_ink s = true -> has_ink (replace old new s) = true.
Proof.
  intros Hnew. induction s as [|c s IH]; cbn [replace]; [discriminate|].
  intros Hs. unfold has_ink in Hs. cbn [existsb] in Hs.
  destruct (chr_eqb c old) eqn:Hc.
  - unfold has_ink. rewrite existsb_app, orb_true_iff. now left.
  - unfold has_ink. cbn [existsb].
    apply orb_true_iff in Hs. apply orb_true_iff.
    destruct Hs as [Hs|Hs]; [now left|right; now apply IH].
Qed.

Lemma replace_chars_has_ink table s :
  Forall (fun kr => has_ink (snd kr) = true) table ->
  has_ink s = true -> has_ink (replace_chars table s) = true.
Proof.
  unfold replace_chars. intros Htable. revert s.
  induction Htable as [|[c r] table Hr _ IH]; intros s Hs; cbn [fold_left];
    [exact Hs|].
  apply IH. now apply replace_has_ink.
Qed.

Lemma split_has_ink s : has_ink s = true -> split s <> [].
Proof.
  induction s as [|c s IH]; [discriminate|].
  unfold has_ink. cbn [existsb split]. intros Hs.
  destruct (isspace c) eqn:Hc.
  - cbn [negb orb] in Hs. now apply IH.
  - destruct s as [|d s']; [discriminate|].
    destruct (isspace d); [discriminate|].
    destruct (split (d :: s')); discriminate.
Qed.

Lemma sanitize_filename_has_ink cfg s :
  Forall (fun kr => has_ink (snd kr) = true) (FILENAME_REPLACE_CHARS cfg) ->
  has_ink s = true ->
  _sanitize_filename cfg s <> [].
Proof.
  intros Htable Hs. unfold _sanitize_filename.
  assert (Hink := replace_chars_has_ink _ s Htable Hs).
  assert (Hwords := split_words (replace_chars (FILENAME_REPLACE_CHARS cfg) s)).
  apply split_has_ink in Hink.
  destruct (join_words_shape _ Hwords Hink) as (c & r & -> & _).
  discriminate.
Qed.

(** X3. When no replacement of the table is blank, as in config.py,
    the title that [_extract_title] returns is never the empty
    string: it is the placeholder or a sanitized text with a
    character that is not whitespace. *)
Theorem extract_title_never_empty E cfg sp w :
  Forall (fun kr => has_ink (snd kr) = true) (FILENAME_REPLACE_CHARS cfg) ->
  fst (_extract_title E cfg sp w) <> [].
Proof.
  intros Htable. unfold _extract_title. revert w.
  induction (TITLE_SELECTORS cfg) as [|selector selectors IH]; intros w;
    cbn [extract_title_from].
  - discriminate.
  - destruct (select_title E sp selector) as [text| |].
    + destruct (strip text) as [|c l] eqn:Hstrip; [apply IH|].
      cbn [fst bind log emit ret]. unfold bind, log, emit, ret. cbn [fst].
      apply sanitize_filename_has_ink; [exact Htable|].
      rewrite <- Hstrip. apply strip_has_ink. rewrite Hstrip. discriminate.
    + apply IH.
    + unfold bind, log, emit. apply IH.
Qed.

Lemma extract_title_never_empty_witness :
  fst (_extract_title Demo.always_ok (Demo.cfg 100 102 [2]%Z)
         (Demo.page_of (lit " ?? ")) []) <> [].
Proof.
  apply (extract_title_never_empty Demo.always_ok (Demo.cfg 100 102 [2]%Z)).
  repeat constructor.
Defined.

(* ================================================================= *)
(** ** More on the retry loop *)

Lemma good_response_passes E cfg text u :
  _is_page_loaded cfg text = true ->
  url_in E cfg text = Some u ->
  u <> [] ->
  fails_retryably E cfg (Response 200 text) = false.
Proof.
  intros Hloaded Hurl Hu. cbn [fails_retryably]. rewrite Hloaded, Hurl.
  destruct u; [congruence|reflexivity].
Qed.


Lemma attempts_some E cfg v s e attempts :
  forall w u name,
    fst (attempts_from E cfg attempts v s e w) = Some (u, name) ->
    exists k text,
      (k < List.length attempts)%nat
      /\ (forall i, (i < k)%nat ->
            fails_retryably E cfg
              (session_get E (requests w + i) (BASE_URL cfg ++ str_of_int v))
            = true)
      /\ session_get E (requests w + k) (BASE_URL cfg ++ str_of_int v)
         = Response 200 text
      /\ _is_page_loaded cfg text = true
      /\ url_in E cfg text = Some u
      /\ u <> []
      /\ name = _create_filename s e (title_in E cfg text).
Proof.
  induction attempts as [|a rest IH]; intros w u name Hrun;
    [discriminate Hrun|].
  destruct (attempt_step E cfg a rest v s e w) as (w1 & Hr1 & _ & Hstep).
  destruct (fails_retryably E cfg
              (session_get E (requests w) (BASE_URL cfg ++ str_of_int v)))
    eqn:Hfails.
  - destruct Hstep as [Hgo|[_ Hstop]];
      [|rewrite Hstop in Hrun; discriminate Hrun].
    rewrite Hgo in Hrun.
    destruct (IH w1 u name Hrun)
      as (k & text & Hk & Hfail & Hget & Hloaded & Hurl & Hu & Hname).
    exists (S k), text. repeat split; try assumption.
    + cbn [List.length]. lia.
    + intros [|i] Hi; [now rewrite Nat.add_0_r|].
      replace (requests w + S i)%nat with (requests w1 + i)%nat by lia.
      apply Hfail. lia.
    + replace (requests w + S k)%nat with (requests w1 + k)%nat by lia.
      exact Hget.
  - destruct Hstep as (text & u' & Hget & Hloaded & Hurl & Hu & Hstep).
    rewrite Hstep in Hrun. injection Hrun as -> <-.
    exists 0%nat, text. rewrite Nat.add_0_r.
    repeat split; try assumption; [cbn [List.length]; lia|lia].
Qed.

Lemma length_count_from k n : List.length (count_from k n) = n.
Proof. revert k. induction n as [|n IH]; intros k; cbn; [|rewrite IH]; lia. Qed.



Lemma attempts_from_requests E cfg v s e attempts :
  forall w,
    (requests w + match attempts with [] => 0 | _ :: _ => 1 end
     <= requests (snd (attempts_from E cfg attempts v s e w))
     <= requests w + List.length attempts)%nat.
Proof.
  induction attempts as [|a rest IH]; intros w.
  - change (requests (snd (attempts_from E cfg [] v s e w)))
      with (requests w). cbn [List.length]. lia.
  - destruct (attempt_step E cfg a rest v s e w) as (w1 & Hr1 & _ & Hstep).
    cbn [List.length].
    destruct (fails_retryably E cfg _).
    + destruct Hstep as [Hgo|[_ Hstop]].
      * rewrite Hgo. specialize (IH w1). lia.
      * rewrite Hstop. cbn [snd]. lia.
    + destruct Hstep as (text & u & _ & _ & _ & _ & Hrun).
      rewrite Hrun. cbn [snd]. lia.
Qed.

Lemma get_video_info_requests_between E cfg v s e w :
  (requests w + (if (0 <? MAX_RETRIES cfg)%Z then 1 else 0)
   <= requests (snd (get_video_info E cfg v s e w))
   <= requests w + Z.to_nat (MAX_RETRIES cfg))%nat.
Proof.
  unfold get_video_info. rewrite range_count_from.
  assert (H := attempts_from_requests E cfg v s e
                 (count_from 0 (Z.to_nat (MAX_RETRIES cfg - 0))) w).
  rewrite length_count_from in H.
  replace (Z.to_nat (MAX_RETRIES cfg - 0)) with (Z.to_nat (MAX_RETRIES cfg))
    in * by (f_equal; lia).
  destruct (0 <? MAX_RETRIES cfg)%Z eqn:Hmax.
  - apply Z.ltb_lt in Hmax.
    destruct (Z.to_nat (MAX_RETRIES cfg)) as [|n] eqn:Hn; [lia|].
    exact H.
  - lia.
Qed.

(** X5. For one identifier [get_video_info] makes at most
    [MAX_RETRIES] requests, whatever the server answers, and at least
    one when [MAX_RETRIES] is positive. *)
Theorem get_video_info_request_bound E cfg v s e w :
  (requests w + (if (0 <? MAX_RETRIES cfg)%Z then 1 else 0)
   <= requests (snd (get_video_info E cfg v s e w))
   <= requests w + Z.to_nat (MAX_RETRIES cfg))%nat.
Proof. apply get_video_info_requests_between. Qed.

(* ================================================================= *)
(** ** The events of one attempt *)

Lemma emits_ret {A} P (a : A) : emits P (ret a).
Proof. intros w. now exists []. Qed.

Lemma emits_bind {A B} P (m : M A) (k : A -> M B) :
  emits P m -> (forall a, emits P (k a)) -> emits P (bind m k).
Proof.
  intros Hm Hk w. unfold bind. destruct (Hm w) as (new1 & H1 & HP1).
  destruct (m w) as [a w1]. cbn [snd] in H1. subst w1.
  destruct (Hk a (new1 ++ w)) as (new2 & H2 & HP2).
  exists (new2 ++ new1). rewrite H2, app_assoc. split; [reflexivity|].
  now rewrite forallb_app, HP1, HP2.
Qed.

Lemma emits_emit P e : P e = true -> emits P (emit e).
Proof.
  intros He w. exists [e]. split; [reflexivity|]. cbn. now rewrite He.
Qed.

Ltac emits_logs :=
  repeat first
    [ apply emits_ret
    | apply emits_bind; [|intros]
    | apply emits_emit; reflexivity
    | assumption ].

Lemma emits_extract_video_url_from E patterns html :
  emits log_detail (extract_video_url_from E patterns html).
Proof.
  induction patterns as [|pattern patterns IH];
    cbn [extract_video_url_from]; unfold log.
  - emits_logs.
  - destruct (re_findall E pattern html); emits_logs.
Qed.

Lemma emits_extract_title_from E cfg selectors sp :
  emits log_detail (extract_title_from E cfg selectors sp).
Proof.
  induction selectors as [|selector selectors IH];
    cbn [extract_title_from]; unfold log.
  - emits_logs.
  - destruct (select_title E sp selector) as [text| |].
    + destruct (strip text); emits_logs.
    + exact IH.
    + emits_logs.
Qed.

Lemma emits_handle_request_error cfg status_code text v :
  emits log_detail (_handle_request_error cfg status_code text v).
Proof.
  unfold _handle_request_error, log.
  destruct (negb (status_code =? 200)%Z); [emits_logs|].
  destruct (negb (_is_page_loaded cfg text)); emits_logs.
Qed.

Lemma run_emits {A} (m : M A) (val : A) P :
  (forall w, fst (m w) = val) -> emits P m ->
  forall w, exists new, m w = (val, new ++ w) /\ forallb P new = true.
Proof.
  intros Hval Hm w. destruct (Hm w) as (new & Hnew & HP). exists new.
  split; [|exact HP]. rewrite <- Hnew, <- (Hval w). apply surjective_pairing.
Qed.

Lemma count_app p (w1 w2 : world) :
  count p (w1 ++ w2) = (count p w1 + count p w2)%nat.
Proof. unfold count. now rewrite filter_app, length_app. Qed.

Lemma log_detail_is_detail new :
  forallb log_detail new = true ->
  forallb detail new = true
  /\ count is_dump new = 0%nat
  /\ forall x, In x new -> is_dump x = false.
Proof.
  induction new as [|x new IH]; cbn [forallb];
    [intros _; repeat split; intros x []|].
  intros H. apply andb_true_iff in H. destruct H as [Hx Hnew].
  destruct (IH Hnew) as (IH1 & IH2 & IH3).
  assert (Hd : detail x = true /\ is_dump x = false).
  { destruct x as [| | |lvl msg]; try discriminate Hx.
    destruct msg; try discriminate Hx; now split. }
  destruct Hd as [Hd1 Hd2]. repeat split.
  - now rewrite Hd1, IH1.
  - rewrite count_cons, Hd2. exact IH2.
  - intros y [<-|Hy]; auto.
Qed.

Lemma save_debug_html_trace E cfg v text w :
  exists new,
    _save_debug_html E cfg v text w = (tt, new ++ w)
    /\ forallb detail new = true
    /\ (count is_dump new <= if SAVE_DEBUG_HTML cfg then 1 else 0)%nat
    /\ forall x, In x new -> is_dump x = true -> x = DebugHtml v text.
Proof.
  unfold _save_debug_html.
  destruct (SAVE_DEBUG_HTML cfg); cbn [negb].
  - destruct (debug_write_ok E v).
    + exists [Log DEBUG (MsgDebugSaved v); DebugHtml v text].
      repeat split; [cbn; lia|].
      intros x [<-|[<-|[]]] Hx; [discriminate Hx|reflexivity].
    + exists [Log ERROR (MsgDebugFailed v)].
      repeat split; [cbn; lia|].
      intros x [<-|[]] Hx. discriminate Hx.
  - exists []. repeat split; [cbn; lia|]. intros x [].
Qed.

Lemma log_details_no_dump new bound :
  forallb log_detail new = true ->
  forallb detail new = true
  /\ (count is_dump new <= bound)%nat
  /\ forall x, In x new -> is_dump x = true -> False.
Proof.
  intros H. destruct (log_detail_is_detail new H) as (H1 & H2 & H3).
  repeat split; [exact H1|lia|].
  intros x Hx Hd. rewrite (H3 x Hx) in Hd. discriminate Hd.
Qed.

Section AttemptOutcome.

Variable E : Env.
Variable cfg : Config.
Variables (a : Z) (rest : list Z) (v s e : Z) (w0 : world).
Variable details : list event.
Hypothesis details_ok : forallb detail details = true.
Hypothesis details_dumps :
  (count is_dump details
   <= if SAVE_DEBUG_HTML cfg && (a =? MAX_RETRIES cfg - 1)%Z then 1 else 0)%nat.
Hypothesis details_html :
  forall x, In x details -> is_dump x = true -> exists html, x = DebugHtml v html.

Lemma outcome_retry lo hi result :
  (lo, hi) = (2, 4)%Z \/ (lo, hi) = (5, 8)%Z ->
  (a <? MAX_RETRIES cfg - 1)%Z = true ->
  attempts_from E cfg rest v s e
    (Sleep lo hi :: Log INFO MsgRetrying :: details ++ w0) = result ->
  attempt_outcome E cfg a rest v s e w0 result.
Proof.
  intros Hwin Hlast Hgo. exists details, [Sleep lo hi; Log INFO MsgRetrying].
  repeat split; try assumption.
  - destruct Hwin as [Hwin|Hwin]; injection Hwin as -> ->; auto.
  - left. split; [now symmetry|]. rewrite Hlast. split; discriminate.
Qed.

Lemma outcome_go_on result :
  (a <? MAX_RETRIES cfg - 1)%Z = false ->
  attempts_from E cfg rest v s e (details ++ w0) = result ->
  attempt_outcome E cfg a rest v s e w0 result.
Proof.
  intros Hlast Hgo. exists details, [].
  repeat split; try assumption; [now left|].
  left. split; [now symmetry|]. split; auto.
Qed.

Lemma outcome_return r result :
  (r, details ++ w0) = result ->
  attempt_outcome E cfg a rest v s e w0 result.
Proof.
  intros Heq. exists details, [].
  repeat split; try assumption; [now left|].
  right. exists r. split; [now symmetry|reflexivity].
Qed.

End AttemptOutcome.

Lemma attempt_step_trace E cfg a rest v s e w :
  attempt_outcome E cfg a rest v s e
    (Get (BASE_URL cfg ++ str_of_int v)
     :: Log INFO (MsgAttempt (a + 1) (MAX_RETRIES cfg) v) :: w)
    (attempts_from E cfg (a :: rest) v s e w).
Proof.
  destruct (attempts_from E cfg (a :: rest) v s e w) as [res wf] eqn:Hrun.
  cbn [attempts_from] in Hrun.
  unfold bind, log, emit, ret, sleep_uniform, retry_or_give_up,
    session_request in Hrun.
  change (requests (Log INFO (MsgAttempt (a + 1) (MAX_RETRIES cfg) v) :: w))
    with (requests w) in Hrun.
  set (w0 := Get (BASE_URL cfg ++ str_of_int v)
             :: Log INFO (MsgAttempt (a + 1) (MAX_RETRIES cfg) v) :: w) in *.
  set (bound := if SAVE_DEBUG_HTML cfg && (a =? MAX_RETRIES cfg - 1)%Z
                then 1%nat else 0%nat).
  destruct (session_get E (requests w) (BASE_URL cfg ++ str_of_int v))
    as [status_code text| |].
  - (* a response *)
    destruct (run_emits _ _ log_detail
                (handle_request_error_value cfg status_code text v)
                (emits_handle_request_error cfg status_code text v) w0)
      as (n1 & Hh & Hn1).
    rewrite Hh in Hrun.
    destruct (log_details_no_dump n1 bound Hn1) as (Hd1 & Hc1 & Hx1).
    assert (Hx1' : forall x, In x n1 -> is_dump x = true ->
                     exists html, x = DebugHtml v html)
      by (intros x Hx Hdx; elim (Hx1 x Hx Hdx)).
    destruct (negb (status_code =? 200)%Z || negb (_is_page_loaded cfg text)).
    + (* bad status or short body *)
      destruct (a <? MAX_RETRIES cfg - 1)%Z eqn:Hlast.
      * apply (outcome_retry E cfg a rest v s e w0 n1 Hd1 Hc1 Hx1' 2%Z 4%Z);
          [now left|exact Hlast|exact Hrun].
      * apply (outcome_return E cfg a rest v s e w0 n1 Hd1 Hc1 Hx1' None).
        exact Hrun.
    + (* the page is there *)
      assert (Hdump : exists n2,
                 (if (a =? MAX_RETRIES cfg - 1)%Z
                  then _save_debug_html E cfg v text
                  else fun w0 : world => (tt, w0)) (n1 ++ w0)
                 = (tt, n2 ++ n1 ++ w0)
                 /\ forallb detail n2 = true
                 /\ (count is_dump n2 <= bound)%nat
                 /\ forall x, In x n2 -> is_dump x = true ->
                      x = DebugHtml v text).
      { unfold bound. destruct (a =? MAX_RETRIES cfg - 1)%Z.
        - rewrite andb_true_r. apply save_debug_html_trace.
        - exists []. repeat split; [cbn; lia|intros x []]. }
      destruct Hdump as (n2 & Hd & Hd2 & Hc2 & Hx2). rewrite Hd in Hrun.
      destruct (run_emits _ _ log_detail
                  (extract_video_url_value E cfg text)
                  (emits_extract_video_url_from E _ text) (n2 ++ n1 ++ w0))
        as (n3 & Hu & Hn3).
      rewrite Hu in Hrun.
      destruct (log_details_no_dump n3 0%nat Hn3) as (Hd3 & Hc3 & Hx3).
      assert (Hdet : forallb detail (n3 ++ n2 ++ n1) = true)
        by now rewrite !forallb_app, Hd1, Hd2, Hd3.
      assert (Hcount : (count is_dump (n3 ++ n2 ++ n1) <= bound)%nat).
      { rewrite !count_app.
        destruct (log_detail_is_detail n1 Hn1) as (_ & -> & _). lia. }
      assert (Hhtml : forall x, In x (n3 ++ n2 ++ n1) -> is_dump x = true ->
                        exists html, x = DebugHtml v html).
      { intros x Hx Hdx. rewrite !in_app_iff in Hx.
        destruct Hx as [Hx|[Hx|Hx]].
        - elim (Hx3 x Hx Hdx).
        - exists text. now apply Hx2.
        - elim (Hx1 x Hx Hdx). }
      assert (Hassoc : n3 ++ n2 ++ n1 ++ w0 = (n3 ++ n2 ++ n1) ++ w0)
        by now rewrite <- !app_assoc.
      rewrite Hassoc in Hrun.
      destruct (url_in E cfg text) as [[|c u]|].
      * destruct (a <? MAX_RETRIES cfg - 1)%Z eqn:Hlast.
        -- apply (outcome_retry E cfg a rest v s e w0 _ Hdet Hcount Hhtml
                    2%Z 4%Z); [now left|exact Hlast|exact Hrun].
        -- apply (outcome_return E cfg a rest v s e w0 _ Hdet Hcount Hhtml
                    None). exact Hrun.
      * destruct (run_emits _ _ log_detail
                    (extract_title_value E cfg text)
                    (emits_extract_title_from E cfg _ (BeautifulSoup E text))
                    ((n3 ++ n2 ++ n1) ++ w0))
          as (n4 & Ht & Hn4).
        rewrite Ht in Hrun.
        destruct (log_details_no_dump n4 0%nat Hn4) as (Hd4 & Hc4 & Hx4).
        apply (outcome_return E cfg a rest v s e w0
                 (Log INFO (MsgExtracted v
                              (_create_filename s e (title_in E cfg text)))
                  :: n4 ++ n3 ++ n2 ++ n1))
          with (r := Some (c :: u,
                           _create_filename s e (title_in E cfg text))).
        -- cbn [forallb detail]. now rewrite forallb_app, Hd4, Hdet.
        -- rewrite count_cons, count_app. cbn [is_dump]. lia.
        -- intros x [<-|Hx] Hdx; [discriminate Hdx|].
           apply in_app_iff in Hx. destruct Hx as [Hx|Hx]; [|now apply Hhtml].
           elim (Hx4 x Hx Hdx).
        -- rewrite <- Hrun. cbn [app]. now rewrite <- !app_assoc.
      * destruct (a <? MAX_RETRIES cfg - 1)%Z eqn:Hlast.
        -- apply (outcome_retry E cfg a rest v s e w0 _ Hdet Hcount Hhtml
                    2%Z 4%Z); [now left|exact Hlast|exact Hrun].
        -- apply (outcome_return E cfg a rest v s e w0 _ Hdet Hcount Hhtml
                    None). exact Hrun.
  - (* a timeout *)
    assert (Hdet : forallb detail [Log WARNING (MsgTimeout (a + 1) v)] = true)
      by reflexivity.
    assert (Hcount : (count is_dump [Log WARNING (MsgTimeout (a + 1) v)]
                      <= bound)%nat) by (cbn; lia).
    assert (Hhtml : forall x, In x [Log WARNING (MsgTimeout (a + 1) v)] ->
                      is_dump x = true -> exists html, x = DebugHtml v html)
      by (intros x [<-|[]] Hdx; discriminate Hdx).
    destruct (a <? MAX_RETRIES cfg - 1)%Z eqn:Hlast.
    + apply (outcome_retry E cfg a rest v s e w0 _ Hdet Hcount Hhtml 5%Z 8%Z);
        [now right|exact Hlast|exact Hrun].
    + apply (outcome_go_on E cfg a rest v s e w0 _ Hdet Hcount Hhtml);
        [exact Hlast|exact Hrun].
  - (* another exception *)
    assert (Hdet : forallb detail [Log ERROR (MsgError (a + 1) v)] = true)
      by reflexivity.
    assert (Hcount : (count is_dump [Log ERROR (MsgError (a + 1) v)]
                      <= bound)%nat) by (cbn; lia).
    assert (Hhtml : forall x, In x [Log ERROR (MsgError (a + 1) v)] ->
                      is_dump x = true -> exists html, x = DebugHtml v html)
      by (intros x [<-|[]] Hdx; discriminate Hdx).
    destruct (a <? MAX_RETRIES cfg - 1)%Z eqn:Hlast.
    + apply (outcome_retry E cfg a rest v s e w0 _ Hdet Hcount Hhtml 2%Z 4%Z);
        [now left|exact Hlast|exact Hrun].
    + apply (outcome_go_on E cfg a rest v s e w0 _ Hdet Hcount Hhtml);
        [exact Hlast|exact Hrun].
Qed.

Lemma detail_counts d :
  forallb detail d = true ->
  count is_get d = 0%nat
  /\ count is_sleep d = 0%nat
  /\ forall w, sleeps_since_request (d ++ w) = sleeps_since_request w.
Proof.
  induction d as [|x d IH]; cbn [forallb]; [intros _; repeat split|].
  intros H. apply andb_true_iff in H. destruct H as [Hx Hd].
  destruct (IH Hd) as (IH1 & IH2 & IH3).
  destruct x as [| | |lvl msg]; try discriminate Hx;
    rewrite !count_cons; cbn [is_get is_sleep app sleeps_since_request];
    repeat split; auto.
Qed.

Lemma pause_counts pause :
  pause = []
  \/ pause = [Sleep 2 4; Log INFO MsgRetrying]
  \/ pause = [Sleep 5 8; Log INFO MsgRetrying] ->
  count is_get pause = 0%nat
  /\ count is_dump pause = 0%nat
  /\ count is_sleep pause = match pause with [] => 0 | _ :: _ => 1 end%nat
  /\ forall w,
       sleeps_since_request (pause ++ w)
       = (match pause with [] => 0 | _ :: _ => 1 end
          + sleeps_since_request w)%nat.
Proof. intros [->|[->| ->]]; repeat split. Qed.

(** The requests, sleeps and dumps of the loop of [get_video_info]
    over its last [n] attempts. *)
Lemma attempts_from_effects E cfg v s e n :
  forall k0 w,
    n = 0%nat \/ (k0 + Z.of_nat n = MAX_RETRIES cfg)%Z ->
    exists added,
      let w' := snd (attempts_from E cfg (count_from k0 n) v s e w) in
      requests w' = (requests w + added)%nat
      /\ count is_sleep w' = (count is_sleep w + Nat.pred added)%nat
      /\ (count is_dump w'
          <= count is_dump w + if SAVE_DEBUG_HTML cfg then 1 else 0)%nat
      /\ match n with
         | O => added = 0%nat
                /\ sleeps_since_request w' = sleeps_since_request w
         | S _ => (1 <= added)%nat /\ sleeps_since_request w' = 0%nat
         end.
Proof.
  induction n as [|n IH]; intros k0 w Hk0.
  - exists 0%nat. cbn. unfold requests, count.
    destruct (SAVE_DEBUG_HTML cfg); repeat split; lia.
  - destruct Hk0 as [Hk0|Hk0]; [discriminate Hk0|].
    cbn [count_from].
    destruct (attempt_step_trace E cfg k0 (count_from (k0 + 1) n) v s e w)
      as (details & pause & Hdet & Hdump & _ & Hpause & Hstep).
    destruct (detail_counts details Hdet) as (Hg & Hsl & Hsince).
    destruct (pause_counts pause Hpause) as (Hpg & Hpd & Hps & Hpsince).
    set (w0 := Get (BASE_URL cfg ++ str_of_int v)
               :: Log INFO (MsgAttempt (k0 + 1) (MAX_RETRIES cfg) v) :: w)
      in *.
    assert (Hr0 : requests (pause ++ details ++ w0) = S (requests w)).
    { change (count is_get (pause ++ details ++ w0) = S (count is_get w)).
      rewrite !count_app, Hpg, Hg. reflexivity. }
    assert (Hs0 : count is_sleep (pause ++ details ++ w0)
                  = (count is_sleep w
                     + match pause with [] => 0 | _ :: _ => 1 end)%nat).
    { rewrite !count_app, Hps, Hsl. unfold w0. rewrite !count_cons.
      cbn [is_sleep]. lia. }
    assert (Hd0 : (count is_dump (pause ++ details ++ w0)
                   <= count is_dump w
                      + if SAVE_DEBUG_HTML cfg && (k0 =? MAX_RETRIES cfg - 1)%Z
                        then 1 else 0)%nat).
    { rewrite !count_app, Hpd. unfold w0. rewrite !count_cons.
      cbn [is_dump]. lia. }
    assert (Hi0 : sleeps_since_request (pause ++ details ++ w0)
                  = match pause with [] => 0 | _ :: _ => 1 end%nat).
    { rewrite Hpsince, Hsince. unfold w0. cbn [sleeps_since_request]. lia. }
    clearbody w0.
    destruct Hstep as [[Hgo Hlast]|(r & Hstop & ->)].
    + rewrite Hgo. destruct n as [|n].
      * (* the last attempt went through to the end of the loop *)
        assert (Hp : pause = []).
        { apply Hlast. apply Z.ltb_ge. lia. }
        subst pause. exists 1%nat.
        cbn [count_from attempts_from]. unfold bind, log, emit, ret.
        cbn [snd]. rewrite !count_cons. cbn [is_sleep is_dump is_get].
        change (requests (Log ERROR (MsgAllFailed v) :: [] ++ details ++ w0))
          with (requests ([] ++ details ++ w0)).
        cbn [sleeps_since_request].
        rewrite Hr0, Hs0, Hi0.
        destruct (SAVE_DEBUG_HTML cfg), (k0 =? MAX_RETRIES cfg - 1)%Z;
          cbn [andb] in Hd0; repeat split; lia.
      * (* more attempts follow *)
        assert (Hp : pause <> []).
        { intros Hp. apply Hlast in Hp. apply Z.ltb_ge in Hp. lia. }
        assert (Hnot_last : (k0 =? MAX_RETRIES cfg - 1)%Z = false)
          by (apply Z.eqb_neq; lia).
        rewrite Hnot_last, andb_false_r in Hd0.
        destruct (IH (k0 + 1)%Z (pause ++ details ++ w0)) as (added & IHw);
          [right; lia|].
        cbv zeta in IHw. destruct IHw as (IHr & IHs & IHd & IHa & IHi).
        exists (S added). cbv zeta.
        rewrite IHr, IHs, Hr0, Hs0.
        destruct pause; [congruence|].
        repeat split; lia.
    + rewrite Hstop. cbn [snd app]. exists 1%nat.
      cbn [app] in Hr0, Hs0, Hd0, Hi0.
      rewrite Hr0, Hs0, Hi0.
      destruct (SAVE_DEBUG_HTML cfg), (k0 =? MAX_RETRIES cfg - 1)%Z;
        cbn [andb] in Hd0; repeat split; lia.
Qed.

(** X6. [get_video_info] sleeps between two requests and at no other
    time: the backoff sleeps are one fewer than the requests, and
    when a request was made no sleep comes after the last one. *)
Theorem get_video_info_backoff E cfg v s e w :
  exists added,
    let w' := snd (get_video_info E cfg v s e w) in
    requests w' = (requests w + added)%nat
    /\ count is_sleep w' = (count is_sleep w + Nat.pred added)%nat
    /\ sleeps_since_request w'
       = if (0 <? MAX_RETRIES cfg)%Z then 0%nat else sleeps_since_request w.
Proof.
  unfold get_video_info. rewrite range_count_from.
  destruct (attempts_from_effects E cfg v s e
              (Z.to_nat (MAX_RETRIES cfg - 0)) 0%Z w) as (added & H); [lia|].
  cbv zeta in H. destruct H as (Hr & Hs & _ & Hn).
  exists added. cbv zeta. split; [exact Hr|split; [exact Hs|]].
  destruct (0 <? MAX_RETRIES cfg)%Z eqn:Hmax.
  - apply Z.ltb_lt in Hmax.
    destruct (Z.to_nat (MAX_RETRIES cfg - 0)) eqn:Hz; [lia|apply Hn].
  - apply Z.ltb_ge in Hmax.
    replace (Z.to_nat (MAX_RETRIES cfg - 0)) with 0%nat in * by lia.
    apply Hn.
Qed.

(** X7. For one identifier [get_video_info] writes at most one debug
    dump, and none when SAVE_DEBUG_HTML is off. *)
Theorem get_video_info_debug_dump E cfg v s e w :
  (count is_dump (snd (get_video_info E cfg v s e w))
   <= count is_dump w + if SAVE_DEBUG_HTML cfg then 1 else 0)%nat.
Proof.
  unfold get_video_info. rewrite range_count_from.
  destruct (attempts_from_effects E cfg v s e
              (Z.to_nat (MAX_RETRIES cfg - 0)) 0%Z w) as (added & H); [lia|].
  apply H.
Qed.

(* ================================================================= *)
(** ** What a run adds to the trace *)

Lemma str_eqb_eq a b : str_eqb a b = true <-> a = b.
Proof.
  revert b. induction a as [|x a IH]; intros [|y b]; cbn [str_eqb];
    try (split; [discriminate|discriminate]); [tauto|].
  rewrite andb_true_iff, chr_eqb_eq, IH. split.
  - now intros [-> ->].
  - intros H. injection H as -> ->. auto.
Qed.

Lemma details_are_fetch_events cfg a v details :
  forallb detail details = true ->
  (count is_dump details
   <= if SAVE_DEBUG_HTML cfg && (a =? MAX_RETRIES cfg - 1)%Z then 1 else 0)%nat ->
  (forall x, In x details -> is_dump x = true ->
     exists html, x = DebugHtml v html) ->
  forallb (fetch_event cfg v) details = true.
Proof.
  intros Hdet Hcount Hhtml. apply forallb_forall. intros x Hx.
  rewrite forallb_forall in Hdet. specialize (Hdet x Hx).
  destruct x as [| |v' html|lvl msg]; try discriminate Hdet.
  - destruct (Hhtml _ Hx eq_refl) as [html' Heq]. injection Heq as -> ->.
    cbn [fetch_event]. rewrite Z.eqb_refl. cbn [andb].
    destruct (SAVE_DEBUG_HTML cfg); [reflexivity|]. cbn [andb] in Hcount.
    apply List.in_split in Hx. destruct Hx as (l1 & l2 & ->).
    rewrite count_app, count_cons in Hcount. cbn [is_dump] in Hcount. lia.
  - destruct msg; try discriminate Hdet; reflexivity.
Qed.

Lemma emits_attempts_from E cfg v s e attempts :
  emits (fetch_event cfg v) (attempts_from E cfg attempts v s e).
Proof.
  induction attempts as [|a rest IH]; intros w.
  - now exists [Log ERROR (MsgAllFailed v)].
  - destruct (attempt_step_trace E cfg a rest v s e w)
      as (details & pause & Hdet & Hdump & Hhtml & Hpause & Hstep).
    assert (Hfetch := details_are_fetch_events cfg a v details Hdet Hdump Hhtml).
    assert (Hp : forallb (fetch_event cfg v) pause = true)
      by (destruct Hpause as [->|[->| ->]]; reflexivity).
    assert (Hget : fetch_event cfg v (Get (BASE_URL cfg ++ str_of_int v)) = true)
      by now apply str_eqb_eq.
    destruct Hstep as [[Hgo _]|(r & Hstop & _)].
    + rewrite Hgo.
      destruct (IH (pause ++ details
                    ++ Get (BASE_URL cfg ++ str_of_int v)
                    :: Log INFO (MsgAttempt (a + 1) (MAX_RETRIES cfg) v) :: w))
        as (new & Hnew & HP).
      exists (new ++ pause ++ details
              ++ [Get (BASE_URL cfg ++ str_of_int v);
                  Log INFO (MsgAttempt (a + 1) (MAX_RETRIES cfg) v)]).
      split.
      * rewrite Hnew. rewrite <- !app_assoc. reflexivity.
      * rewrite !forallb_app, HP, Hp, Hfetch. cbn [forallb andb].
        now rewrite Hget.
    + rewrite Hstop. cbn [snd].
      exists (details
              ++ [Get (BASE_URL cfg ++ str_of_int v);
                  Log INFO (MsgAttempt (a + 1) (MAX_RETRIES cfg) v)]).
      split.
      * rewrite <- !app_assoc. reflexivity.
      * rewrite !forallb_app, Hfetch. cbn [forallb andb]. now rewrite Hget.
Qed.

Lemma fetch_event_in_run cfg v ids x :
  In v ids -> fetch_event cfg v x = true -> run_event cfg ids x = true.
Proof.
  intros Hv. destruct x as [u|low high|v' html|lvl msg];
    cbn [fetch_event run_event]; intros H.
  - apply existsb_exists. now exists v.
  - now rewrite H.
  - apply andb_true_iff in H. destruct H as [Hv' ->].
    apply Z.eqb_eq in Hv'. subst v'. rewrite andb_true_r.
    apply existsb_exists. exists v. split; [exact Hv|apply Z.eqb_refl].
  - destruct msg; try exact H; discriminate H.
Qed.

Lemma run_event_more cfg ids ids' x :
  incl ids ids' -> run_event cfg ids x = true -> run_event cfg ids' x = true.
Proof.
  intros Hincl.
  assert (Hex : forall f, existsb f ids = true -> existsb f ids' = true).
  { intros f H. apply existsb_exists in H. destruct H as (v & Hv & Hf).
    apply existsb_exists. exists v. auto. }
  destruct x as [u|low high|v' html|lvl msg]; cbn [run_event]; intros H.
  - now apply Hex.
  - exact H.
  - apply andb_true_iff in H. destruct H as [H ->].
    rewrite andb_true_r. now apply Hex.
  - destruct msg; try exact H. now apply Hex.
Qed.

Lemma forallb_impl {A} (P Q : A -> bool) l :
  (forall x, P x = true -> Q x = true) ->
  forallb P l = true -> forallb Q l = true.
Proof.
  intros H. rewrite !forallb_forall. auto.
Qed.

Lemma emits_scrape_from E cfg ids :
  forall videos s e w,
  exists new,
    snd (scrape_from E cfg ids videos s e w) = new ++ w
    /\ forallb (run_event cfg (map fst (cursor_walk cfg ids s e))) new = true.
Proof.
  induction ids as [|v ids IH]; intros videos s e w.
  - now exists [Log INFO (MsgCompleted (len videos))].
  - rewrite scrape_from_cons. cbv zeta. cbn [cursor_walk map fst].
    destruct (emits_attempts_from E cfg v s e (range 0 (MAX_RETRIES cfg)) w)
      as (n1 & Hn1 & HP1).
    fold (get_video_info E cfg v s e) in Hn1. rewrite Hn1.
    set (reached_ids := v :: map fst match advance cfg s e with
                                     | Continue s' e' => cursor_walk cfg ids s' e'
                                     | _ => []
                                     end).
    assert (HP1' : forallb (run_event cfg reached_ids) n1 = true).
    { apply (forallb_impl (fetch_event cfg v)); [|exact HP1].
      intros x. apply fetch_event_in_run. now left. }
    set (outcome := match fst (get_video_info E cfg v s e w) with
                    | Some (_, name) => Log INFO (MsgFound name)
                    | None => Log WARNING (MsgFailed v)
                    end).
    assert (Hw2 : match fst (get_video_info E cfg v s e w) with
                  | Some (_, name) => Log INFO (MsgFound name) :: n1 ++ w
                  | None => Log WARNING (MsgFailed v) :: n1 ++ w
                  end = outcome :: n1 ++ w)
      by (unfold outcome; destruct (fst (get_video_info E cfg v s e w))
            as [[u name]|]; reflexivity).
    rewrite Hw2.
    assert (Hout : run_event cfg reached_ids outcome = true).
    { unfold outcome. destruct (fst (get_video_info E cfg v s e w))
        as [[u name]|]; [reflexivity|].
      cbn [run_event reached_ids existsb]. now rewrite Z.eqb_refl. }
    assert (Hsleep : run_event cfg reached_ids
                       (Sleep (MIN_DELAY cfg) (MAX_DELAY cfg)) = true).
    { cbn [run_event]. rewrite !Z.eqb_refl. cbn [andb].
      now rewrite orb_true_r. }
    subst reached_ids.
    destruct (advance cfg s e) as [s' e'| |].
    + destruct (IH (match fst (get_video_info E cfg v s e w) with
                    | Some (video_url, name) =>
                        videos ++ [{| url := video_url; filename := name;
                                      video_id := v; season := s;
                                      episode := e |}]
                    | None => videos
                    end) s' e'
                  (Sleep (MIN_DELAY cfg) (MAX_DELAY cfg)
                   :: Log INFO MsgWaiting :: outcome :: n1 ++ w))
        as (new & Hnew & HP).
      exists (new ++ Sleep (MIN_DELAY cfg) (MAX_DELAY cfg)
              :: Log INFO MsgWaiting :: outcome :: n1).
      split.
      * rewrite Hnew, <- app_assoc. reflexivity.
      * assert (HP' : forallb (run_event cfg
                                  (v :: map fst (cursor_walk cfg ids s' e')))
                        new = true).
        { apply (forallb_impl
                   (run_event cfg (map fst (cursor_walk cfg ids s' e'))));
            [|exact HP].
          intros x. apply run_event_more, incl_tl, incl_refl. }
        rewrite forallb_app. cbn [forallb].
        rewrite Hsleep, Hout, HP1', HP'. reflexivity.
    + exists (Log INFO (MsgCompleted
                (len (match fst (get_video_info E cfg v s e w) with
                      | Some (video_url, name) =>
                          videos ++ [{| url := video_url; filename := name;
                                        video_id := v; season := s;
                                        episode := e |}]
                      | None => videos
                      end)))
              :: Log WARNING MsgSeasonExceeded :: outcome :: n1).
      split; [reflexivity|].
      cbn [forallb]. rewrite Hout, HP1'. reflexivity.
    + exists (outcome :: n1). split; [reflexivity|].
      cbn [forallb]. now rewrite Hout, HP1'.
Qed.

(** X8. A run stays within its bounds. What it adds to the trace is:
    requests to BASE_URL followed by an identifier that it reaches,
    which lies in the configured range; sleeps that are a backoff of
    2 to 4 or 5 to 8 seconds or the pacing delay; debug dumps only
    when SAVE_DEBUG_HTML is on; skip warnings only for identifiers
    that it reaches; and other log lines. *)
Theorem scrape_videos_stays_in_bounds E cfg w :
  exists new,
    snd (scrape_videos E cfg w) = new ++ w
    /\ forallb (run_event cfg (reached cfg)) new = true
    /\ forall u, In (Get u) new ->
         exists v,
           In v (reached cfg)
           /\ (START_VIDEO_ID cfg <= v <= END_VIDEO_ID cfg)%Z
           /\ u = BASE_URL cfg ++ str_of_int v.
Proof.
  rewrite scrape_videos_unfold.
  destruct (emits_scrape_from E cfg
              (range (START_VIDEO_ID cfg) (END_VIDEO_ID cfg + 1)) []
              (STARTING_SEASON cfg) (STARTING_EPISODE cfg)
              (Log INFO (MsgStarting (START_VIDEO_ID cfg) (END_VIDEO_ID cfg))
               :: w)) as (new & Hnew & HP).
  fold (cursors cfg) in HP. fold (reached cfg) in HP.
  exists (new ++ [Log INFO (MsgStarting (START_VIDEO_ID cfg)
                              (END_VIDEO_ID cfg))]).
  assert (Hall : forallb (run_event cfg (reached cfg))
                   (new ++ [Log INFO (MsgStarting (START_VIDEO_ID cfg)
                                        (END_VIDEO_ID cfg))]) = true)
    by now rewrite forallb_app, HP.
  split; [now rewrite Hnew, <- app_assoc|]. split; [exact Hall|].
  intros u Hu. rewrite forallb_forall in Hall. apply Hall in Hu.
  cbn [run_event] in Hu. apply existsb_exists in Hu.
  destruct Hu as (v & Hv & Heq). apply str_eqb_eq in Heq.
  exists v. split; [exact Hv|]. split; [|exact Heq].
  destruct (reached_prefix cfg) as [rest Hrest].
  assert (Hin : In v (range (START_VIDEO_ID cfg) (END_VIDEO_ID cfg + 1)))
    by (rewrite Hrest; apply in_or_app; now left).
  apply in_range in Hin. lia.
Qed.

(** X10. With an empty range, [END_VIDEO_ID] below [START_VIDEO_ID],
    a run returns the empty list at once: it makes no request, never
    sleeps and does not look at the season table, whatever the
    starting season. *)
Theorem scrape_videos_empty_range E cfg w :
  (END_VIDEO_ID cfg < START_VIDEO_ID cfg)%Z ->
  scrape_videos E cfg w
  = (Returned [],
     Log INFO (MsgCompleted 0)
     :: Log INFO (MsgStarting (START_VIDEO_ID cfg) (END_VIDEO_ID cfg)) :: w).
Proof.
  intros Hrange. rewrite scrape_videos_unfold, range_count_from.
  replace (Z.to_nat (END_VIDEO_ID cfg + 1 - START_VIDEO_ID cfg)) with 0%nat
    by lia.
  reflexivity.
Qed.

Lemma scrape_videos_empty_range_witness :
  scrape_videos Demo.always_ok (Demo.cfg 200 100 []) []
  = (Returned [],
     [Log INFO (MsgCompleted 0); Log INFO (MsgStarting 200 100)]).
Proof.
  apply (scrape_videos_empty_range Demo.always_ok (Demo.cfg 200 100 []) []).
  reflexivity.
Defined.

(* ================================================================= *)
(** ** The positions of the records *)

Lemma index_In {A} (l : list A) i x : index l i = Some x -> In x l.
Proof.
  unfold index. intros H.
  destruct ((0 <=? i)%Z && (i <? len l)%Z);
    [|destruct ((- len l <=? i)%Z && (i <? 0)%Z); [|discriminate H]];
    now apply nth_error_In in H.
Qed.

Lemma advance_valid cfg s e :
  Forall (fun n => (1 <= n)%Z) (SEASON_EPISODES cfg) ->
  valid_position cfg s e ->
  advance cfg s e = Break
  \/ exists s' e',
       advance cfg s e = Continue s' e' /\ valid_position cfg s' e'.
Proof.
  intros Hcounts (Hs & n & Hn & He). unfold advance. rewrite Hn.
  destruct (e + 1 >? n)%Z eqn:Hroll.
  - destruct (s + 1 >? len (SEASON_EPISODES cfg))%Z eqn:Hover; [now left|].
    right. exists (s + 1)%Z, 1%Z. split; [reflexivity|].
    rewrite Z.gtb_ltb in Hover. apply Z.ltb_ge in Hover.
    split; [lia|].
    destruct (index_in_bounds (SEASON_EPISODES cfg) (s + 1 - 1)) as [n' Hn'];
      [lia|].
    exists n'. split; [exact Hn'|].
    apply index_In in Hn'. rewrite Forall_forall in Hcounts.
    specialize (Hcounts n' Hn'). lia.
  - right. exists s, (e + 1)%Z. split; [reflexivity|].
    rewrite Z.gtb_ltb in Hroll. apply Z.ltb_ge in Hroll.
    split; [exact Hs|]. exists n. split; [exact Hn|lia].
Qed.

Lemma cursor_walk_valid cfg ids :
  Forall (fun n => (1 <= n)%Z) (SEASON_EPISODES cfg) ->
  forall s e,
    valid_position cfg s e ->
    Forall (fun c => valid_position cfg (fst (snd c)) (snd (snd c)))
           (cursor_walk cfg ids s e).
Proof.
  intros Hcounts.
  induction ids as [|v ids IH]; intros s e Hvalid; cbn [cursor_walk];
    constructor; [exact Hvalid|].
  destruct (advance_valid cfg s e Hcounts Hvalid)
    as [->|(s' & e' & -> & Hvalid')]; [constructor|now apply IH].
Qed.

(** X11. When every season of the table has at least one episode,
    the run starts at an episode of a season of the table and the
    pacing window is one of delays that [time.sleep] takes, the run
    returns its list and every record carries a season of the table
    and an episode of that season. *)
Theorem scrape_videos_valid_positions E cfg w :
  Forall (fun n => (1 <= n)%Z) (SEASON_EPISODES cfg) ->
  valid_position cfg (STARTING_SEASON cfg) (STARTING_EPISODE cfg) ->
  sleep_returns (MIN_DELAY cfg) (MAX_DELAY cfg) ->
  exists videos,
    fst (scrape_videos E cfg w) = Returned videos
    /\ Forall (fun r => valid_position cfg (season r) (episode r)) videos.
Proof.
  intros Hcounts Hstart _. rewrite scrape_videos_unfold.
  destruct (scrape_from_returns E cfg
              (range (START_VIDEO_ID cfg) (END_VIDEO_ID cfg + 1)) []
              (STARTING_SEASON cfg) (STARTING_EPISODE cfg)
              (Log INFO (MsgStarting (START_VIDEO_ID cfg) (END_VIDEO_ID cfg))
               :: w) (proj1 Hstart)) as [videos Hrun].
  exists videos. split; [exact Hrun|].
  destruct (scrape_from_records E cfg _ _ _ _ _ _ Hrun)
    as (new & -> & Hsub & _).
  cbn [app].
  assert (Hwalk := cursor_walk_valid cfg
            (range (START_VIDEO_ID cfg) (END_VIDEO_ID cfg + 1)) Hcounts
            _ _ Hstart).
  apply (Subseq_Forall _ _ _ Hsub) in Hwalk.
  now rewrite Forall_map in Hwalk.
Qed.

Lemma scrape_videos_valid_positions_witness :
  exists videos,
    fst (scrape_videos Demo.flaky (Demo.cfg 100 110 [2; 3]%Z) [])
    = Returned videos
    /\ Forall (fun r => valid_position (Demo.cfg 100 110 [2; 3]%Z)
                          (season r) (episode r)) videos.
Proof.
  apply (scrape_videos_valid_positions Demo.flaky
           (Demo.cfg 100 110 [2; 3]%Z) []).
  - repeat constructor; vm_compute; discriminate.
  - split; [vm_compute; split; discriminate|].
    exists 2%Z. split; [reflexivity|vm_compute; split; discriminate].
  - vm_compute. repeat split; discriminate.
Defined.

Lemma position_lt_trans a b c :
  position_lt a b -> position_lt b c -> position_lt a c.
Proof. unfold position_lt. lia. Qed.

Lemma position_le_lt_trans a b c :
  position_lt a b -> position_le b c -> position_lt a c.
Proof.
  intros Hab [<-|Hbc]; [exact Hab|]. eapply position_lt_trans; eassumption.
Qed.

Lemma advance_moves_on cfg s e s' e' :
  advance cfg s e = Continue s' e' -> position_lt (s, e) (s', e').
Proof.
  unfold advance, position_lt.
  destruct (index (SEASON_EPISODES cfg) (s - 1)) as [n|]; [|discriminate].
  destruct (e + 1 >? n)%Z.
  - destruct (s + 1 >? len (SEASON_EPISODES cfg))%Z; [discriminate|].
    intros H. injection H as <- <-. cbn [fst snd]. lia.
  - intros H. injection H as <- <-. cbn [fst snd]. lia.
Qed.

Lemma cursor_walk_from cfg ids :
  forall s e,
    Forall (fun c => position_le (s, e) (snd c)) (cursor_walk cfg ids s e).
Proof.
  induction ids as [|v ids IH]; intros s e; cbn [cursor_walk];
    constructor; [now left|].
  destruct (advance cfg s e) as [s' e'| |] eqn:Hadv; [|constructor..].
  apply advance_moves_on in Hadv.
  eapply Forall_impl; [|apply IH].
  intros c Hc. right. now apply (position_le_lt_trans _ (s', e')).
Qed.

Lemma cursor_walk_increasing cfg ids :
  forall s e,
    StronglySorted (fun c1 c2 => position_lt (snd c1) (snd c2))
                   (cursor_walk cfg ids s e).
Proof.
  induction ids as [|v ids IH]; intros s e; cbn [cursor_walk];
    constructor.
  - destruct (advance cfg s e); [apply IH|constructor..].
  - destruct (advance cfg s e) as [s' e'| |] eqn:Hadv; [|constructor..].
    apply advance_moves_on in Hadv.
    eapply Forall_impl; [|apply cursor_walk_from].
    intros c Hc. now apply (position_le_lt_trans _ (s', e')).
Qed.

Lemma sorted_map {A B} (f : A -> B) (R : B -> B -> Prop) l :
  StronglySorted (fun a b => R (f a) (f b)) l ->
  StronglySorted R (map f l).
Proof.
  induction 1 as [|a l _ IH Ha]; cbn [map]; constructor; [exact IH|].
  now rewrite Forall_map.
Qed.

Lemma sorted_unmap {A B} (f : A -> B) (R : B -> B -> Prop) l :
  StronglySorted R (map f l) ->
  StronglySorted (fun a b => R (f a) (f b)) l.
Proof.
  induction l as [|a l IH]; cbn [map]; intros H; [constructor|].
  inversion H as [|? ? Hl Ha]; subst. constructor; [now apply IH|].
  now rewrite Forall_map in Ha.
Qed.

Lemma records_positions_increasing E cfg w videos :
  fst (scrape_videos E cfg w) = Returned videos ->
  StronglySorted (fun r1 r2 => position_lt (season r1, episode r1)
                                           (season r2, episode r2)) videos.
Proof.
  intros Hrun. rewrite scrape_videos_unfold in Hrun.
  destruct (scrape_from_records E cfg _ _ _ _ _ _ Hrun)
    as (new & -> & Hsub & _).
  cbn [app].
  apply (sorted_unmap position
           (fun c1 c2 => position_lt (snd c1) (snd c2))).
  apply (Subseq_sorted _ _ _ Hsub), cursor_walk_increasing.
Qed.

(** X12. Along the returned list the positions move forward: each
    record has a later season than the records before it, or the same
    season and a later episode; so no two records share a season and
    episode. This holds for every season table. *)
Theorem scrape_videos_positions_increase E cfg w videos :
  fst (scrape_videos E cfg w) = Returned videos ->
  StronglySorted (fun r1 r2 => position_lt (season r1, episode r1)
                                           (season r2, episode r2)) videos
  /\ NoDup (map (fun r => (season r, episode r)) videos).
Proof.
  intros Hrun. assert (Hsorted := records_positions_increasing E cfg w videos Hrun).
  split; [exact Hsorted|].
  clear Hrun. induction Hsorted as [|r l _ IH Hr]; cbn [map]; constructor;
    [|exact IH].
  intros Hin. apply in_map_iff in Hin. destruct Hin as (r' & Heq & Hr').
  rewrite Forall_forall in Hr. specialize (Hr r' Hr').
  unfold position_lt in Hr. cbn [fst snd] in Hr.
  injection Heq as Hs He. lia.
Qed.

Lemma scrape_videos_positions_increase_witness :
  NoDup (map (fun r => (season r, episode r))
           (returned_videos Demo.flaky (Demo.cfg 100 110 [2; 3]%Z) [])).
Proof.
  apply (scrape_videos_positions_increase Demo.flaky
           (Demo.cfg 100 110 [2; 3]%Z) []).
  reflexivity.
Defined.

(* ================================================================= *)
(** ** Reading the position back from a file name *)

Lemma digits_are_digits u : forallb is_digit (digits u) = true.
Proof. induction u; cbn [digits forallb]; [reflexivity|..]; exact IHu. Qed.

Lemma uint_of_digits_digits u : uint_of_digits (digits u) = u.
Proof.
  unfold uint_of_digits.
  induction u; cbn [digits fold_right]; [reflexivity|..];
    rewrite IHu; reflexivity.
Qed.

Lemma take_digits_stop d c rest :
  forallb is_digit d = true -> is_digit c = false ->
  take_digits (d ++ c :: rest) = (d, c :: rest).
Proof.
  intros Hd Hc. induction d as [|x d IH]; cbn [app take_digits].
  - now rewrite Hc.
  - cbn [forallb] in Hd. apply andb_true_iff in Hd. destruct Hd as [-> Hd].
    now rewrite (IH Hd).
Qed.

Lemma of_uint_leading_zeros k u :
  Z.of_uint (uint_of_digits (repeat ZERO k ++ digits u)) = Z.of_uint u.
Proof.
  unfold uint_of_digits. rewrite fold_right_app.
  fold (uint_of_digits (digits u)). rewrite uint_of_digits_digits.
  induction k as [|k IH]; [reflexivity|exact IH].
Qed.

Lemma zfill_digits k u :
  exists c d,
    zfill (S k) (digits u) = c :: d
    /\ is_digit c = true
    /\ forallb is_digit d = true.
Proof.
  unfold zfill.
  assert (Hall : forallb is_digit
                   (repeat ZERO (S k - List.length (digits u)) ++ digits u)
                 = true).
  { rewrite forallb_app, digits_are_digits, andb_true_r.
    induction (S k - List.length (digits u))%nat; [reflexivity|assumption]. }
  destruct (repeat ZERO (S k - List.length (digits u)) ++ digits u)
    as [|c d] eqn:Hz.
  - exfalso. apply app_eq_nil in Hz. destruct Hz as [Hrep Hdig].
    rewrite Hdig in Hrep. discriminate Hrep.
  - exists c, d. cbn [forallb] in Hall. apply andb_true_iff in Hall.
    now destruct Hall.
Qed.

Lemma read_int_format n rest :
  read_int (format_02d n ++ MINUS :: rest) = (n, MINUS :: rest).
Proof.
  assert (Hn := DecimalZ.of_to n).
  unfold format_02d. destruct (Z.to_int n) as [u|u].
  - destruct (zfill_digits 1 u) as (c & d & Hz & Hc & Hd).
    assert (Hval := of_uint_leading_zeros (2 - List.length (digits u)) u).
    fold (zfill 2 (digits u)) in Hval. rewrite Hz in *.
    assert (Hnot : c <> MINUS) by (intros ->; discriminate Hc).
    assert (Hread : read_int ((c :: d) ++ MINUS :: rest)
                    = (let (d', r) := take_digits ((c :: d) ++ MINUS :: rest) in
                       (Z.of_int (Decimal.Pos (uint_of_digits d')), r))).
    { cbn [app read_int]. destruct c as [|p]; [reflexivity|].
      do 6 (destruct p as [p|p|]; try reflexivity).
      exfalso. now apply Hnot. }
    rewrite Hread, take_digits_stop;
      [|cbn [forallb]; now rewrite Hc, Hd|reflexivity].
    cbn [Z.of_int] in *. now rewrite Hval, Hn.
  - destruct (zfill_digits 0 u) as (c & d & Hz & Hc & Hd).
    assert (Hval := of_uint_leading_zeros (1 - List.length (digits u)) u).
    fold (zfill 1 (digits u)) in Hval. rewrite Hz in *.
    change ((MINUS :: c :: d) ++ MINUS :: rest)
      with (MINUS :: (c :: d) ++ MINUS :: rest).
    cbn [read_int MINUS].
    rewrite take_digits_stop;
      [|cbn [forallb]; now rewrite Hc, Hd|reflexivity].
    cbn [Z.of_int] in *. now rewrite Hval, Hn.
Qed.

Lemma read_position_create_filename s e title :
  read_position (_create_filename s e title) = Some (s, e).
Proof.
  unfold _create_filename, FILENAME_FORMAT.
  change (lit "S" ++ format_02d s ++ lit "-E" ++ format_02d e
          ++ lit "-" ++ title ++ lit ".mp4")
    with (83%N :: format_02d s
          ++ MINUS :: 69%N :: format_02d e
          ++ MINUS :: title ++ lit ".mp4").
  cbn [read_position]. rewrite read_int_format.
  cbn [MINUS]. rewrite read_int_format. reflexivity.
Qed.

Lemma create_filename_inj s e title s' e' title' :
  _create_filename s e title = _create_filename s' e' title' ->
  s = s' /\ e = e' /\ title = title'.
Proof.
  intros Heq. assert (Hpos := f_equal read_position Heq).
  rewrite !read_position_create_filename in Hpos.
  injection Hpos as <- <-. repeat split.
  unfold _create_filename, FILENAME_FORMAT in Heq.
  repeat apply app_inv_head in Heq. now apply app_inv_tail in Heq.
Qed.

(** X13. The file name determines what it was made from: two names
    made by [_create_filename] are equal only when the season, the
    episode and the title are equal. *)
Theorem create_filename_injective s e title s' e' title' :
  _create_filename s e title = _create_filename s' e' title' ->
  s = s' /\ e = e' /\ title = title'.
Proof. apply create_filename_inj. Qed.

Lemma create_filename_injective_witness :
  6%Z = 6%Z /\ 1%Z = 1%Z /\ lit "Intro" = lit "Intro".
Proof.
  apply (create_filename_injective 6 1 (lit "Intro") 6 1 (lit "Intro")).
  reflexivity.
Defined.

(** X14. No two records of a run have the same file name, whatever
    their titles are: the names differ in the season or in the
    episode. *)
Theorem scrape_videos_distinct_filenames E cfg w videos :
  fst (scrape_videos E cfg w) = Returned videos ->
  NoDup (map filename videos).
Proof.
  intros Hrun.
  assert (Hsorted := records_positions_increasing E cfg w videos Hrun).
  assert (Hnamed : Forall (named_from_page E cfg) videos).
  { rewrite scrape_videos_unfold in Hrun.
    destruct (scrape_from_records E cfg _ _ _ _ _ _ Hrun)
      as (new & -> & _ & Hnamed). exact Hnamed. }
  clear Hrun.
  induction Hsorted as [|r l _ IH Hr]; cbn [map]; constructor.
  - intros Hin. apply in_map_iff in Hin. destruct Hin as (r' & Heq & Hr').
    inversion Hnamed as [|? ? [text Hname] Hrest]; subst.
    rewrite Forall_forall in Hrest. destruct (Hrest r' Hr') as [text' Hname'].
    rewrite Hname, Hname' in Heq.
    apply create_filename_inj in Heq. destruct Heq as (Hs & He & _).
    rewrite Forall_forall in Hr. specialize (Hr r' Hr').
    unfold position_lt in Hr. cbn [fst snd] in Hr. lia.
  - apply IH. now inversion Hnamed.
Qed.

Lemma scrape_videos_distinct_filenames_witness :
  NoDup (map filename
           (returned_videos Demo.flaky (Demo.cfg 100 110 [2; 3]%Z) [])).
Proof.
  apply (scrape_videos_distinct_filenames Demo.flaky
           (Demo.cfg 100 110 [2; 3]%Z) []).
  reflexivity.
Defined.

(* ================================================================= *)
(** ** File names and the link list *)

Lemma sanitize_whitespace_is_space cfg s c :
  In c (_sanitize_filename cfg s) -> isspace c = true -> c = SPACE.
Proof.
  unfold _sanitize_filename. intros Hin Hc. apply in_join in Hin.
  destruct Hin as [[Hin|[]]|(w & Hw & Hin)]; [now symmetry|].
  assert (Hwords := split_words
                      (replace_chars (FILENAME_REPLACE_CHARS cfg) s)).
  rewrite Forall_forall in Hwords. destruct (Hwords w Hw) as [_ Hink].
  rewrite Forall_forall in Hink. rewrite (Hink c Hin) in Hc. discriminate Hc.
Qed.

Lemma sanitize_one_line cfg s : one_line (_sanitize_filename cfg s) = true.
Proof.
  unfold one_line. apply forallb_forall. intros c Hc.
  apply negb_true_iff, orb_false_iff.
  split; apply chr_eqb_neq; intros ->;
    now assert (H := sanitize_whitespace_is_space cfg s _ Hc eq_refl).
Qed.

Lemma extract_title_from_one_line E cfg selectors sp :
  forall w, one_line (fst (extract_title_from E cfg selectors sp w)) = true.
Proof.
  induction selectors as [|selector selectors IH]; intros w;
    cbn [extract_title_from]; [reflexivity|].
  destruct (select_title E sp selector) as [text| |].
  - destruct (strip text); [apply IH|apply sanitize_one_line].
  - apply IH.
  - unfold bind, log, emit. apply IH.
Qed.

Lemma one_line_app s t :
  one_line s = true -> one_line t = true -> one_line (s ++ t) = true.
Proof. unfold one_line. intros Hs Ht. now rewrite forallb_app, Hs, Ht. Qed.

Lemma digit_one_line c :
  is_digit c = true -> negb (chr_eqb c LF || chr_eqb c CR) = true.
Proof.
  intros Hc. apply negb_true_iff, orb_false_iff.
  split; apply chr_eqb_neq; intros ->; discriminate Hc.
Qed.

Lemma format_02d_one_line n : one_line (format_02d n) = true.
Proof.
  unfold format_02d. destruct (Z.to_int n) as [u|u].
  - destruct (zfill_digits 1 u) as (c & d & -> & Hc & Hd).
    unfold one_line. cbn [forallb]. rewrite (digit_one_line c Hc).
    apply (forallb_impl is_digit); [apply digit_one_line|exact Hd].
  - destruct (zfill_digits 0 u) as (c & d & -> & Hc & Hd).
    unfold one_line. cbn [forallb]. rewrite (digit_one_line c Hc).
    cbn [MINUS chr_eqb N.eqb Pos.eqb LF CR orb negb andb].
    apply (forallb_impl is_digit); [apply digit_one_line|exact Hd].
Qed.

Lemma create_filename_fits_a_line s e title :
  one_line title = true ->
  one_line (_create_filename s e title) = true
  /\ ends_clean (_create_filename s e title) = true.
Proof.
  intros Ht. unfold _create_filename, FILENAME_FORMAT. split.
  - repeat apply one_line_app;
      first [apply format_02d_one_line | exact Ht | reflexivity].
  - rewrite !app_assoc. apply ends_clean_suffix; [discriminate|reflexivity].
Qed.

Lemma named_from_page_fits_a_line E cfg r :
  named_from_page E cfg r ->
  one_line (filename r) = true /\ ends_clean (filename r) = true.
Proof.
  intros [text ->]. apply create_filename_fits_a_line.
  apply extract_title_from_one_line.
Qed.

Lemma returned_named_from_page E cfg w videos :
  fst (scrape_videos E cfg w) = Returned videos ->
  Forall (named_from_page E cfg) videos.
Proof.
  intros Hrun. rewrite scrape_videos_unfold in Hrun.
  destruct (scrape_from_records E cfg _ _ _ _ _ _ Hrun)
    as (new & -> & _ & Hnamed). exact Hnamed.
Qed.

(** X15. The file names of the records a run returns fit the link
    list: for every replacement table and every page they hold no
    line feed and no carriage return and do not end in whitespace. *)
Theorem scrape_videos_filenames_fit_a_line E cfg w videos :
  fst (scrape_videos E cfg w) = Returned videos ->
  Forall (fun r => one_line (filename r) = true
                   /\ ends_clean (filename r) = true) videos.
Proof.
  intros Hrun. apply returned_named_from_page in Hrun.
  eapply Forall_impl; [|exact Hrun].
  intros r. apply named_from_page_fits_a_line.
Qed.

Lemma scrape_videos_filenames_fit_a_line_witness :
  Forall (fun r => one_line (filename r) = true
                   /\ ends_clean (filename r) = true)
         (returned_videos Demo.flaky (Demo.cfg 100 110 [2; 3]%Z) []).
Proof.
  apply (scrape_videos_filenames_fit_a_line Demo.flaky
           (Demo.cfg 100 110 [2; 3]%Z) []).
  reflexivity.
Defined.

Lemma load_saved_links p videos w :
  Forall link_ok videos ->
  load_links (fst (save_download_links p true videos w)) = map pair_of videos.
Proof.
  intros Hok. rewrite save_download_links_text by exact Hok.
  unfold load_links.
  rewrite translate_round_trip by now apply link_block_chars.
  destruct videos as [|r videos]; [reflexivity|].
  rewrite link_text_body, strip_link_text, split_link_body by exact Hok.
  now rewrite parse_link_lines.
Qed.

(* ================================================================= *)
(** ** The script of video_scraper.py *)

Lemma main_unfold E cfg p can_open file w :
  main E cfg p can_open file w
  = match fst (scrape_videos E cfg w) with
    | IndexError => ((IndexError, file), snd (scrape_videos E cfg w))
    | Returned [] => ((Returned tt, file), snd (scrape_videos E cfg w))
    | Returned ((_ :: _) as videos) =>
        ((Returned tt,
          match fst (save_download_links p can_open videos
                       (snd (scrape_videos E cfg w))) with
          | Some text => Some text
          | None => file
          end),
         snd (save_download_links p can_open videos
                (snd (scrape_videos E cfg w))))
    end.
Proof.
  unfold main, bind at 1.
  destruct (scrape_videos E cfg w) as [[[|r videos]|] w1]; cbn [fst snd];
    try reflexivity.
  unfold bind, ret.
  now destruct (save_download_links p can_open (r :: videos) w1).
Qed.

(** X16. From a run to the loader: when the list that the run
    returns is not empty, its URLs start with "https://", hold no line
    break and do not end in whitespace, no URL or file name holds a
    surrogate, and the file can be opened, then the links file that
    [main] leaves is read by [load_links] as the pairs of URL and file
    name of the returned records, in their order. Nothing is asked of
    the titles or of the replacement table. *)
Theorem main_then_load_links E cfg p file w :
  returned_videos E cfg w <> [] ->
  Forall (fun r => url_ok (url r)
                   /\ forallb encodable (filename r) = true)
         (returned_videos E cfg w) ->
  exists stored,
    fst (main E cfg p true file w) = (Returned tt, Some stored)
    /\ load_links (Some stored) = map pair_of (returned_videos E cfg w).
Proof.
  intros Hne Hurls. rewrite main_unfold.
  unfold returned_videos in *.
  destruct (fst (scrape_videos E cfg w)) as [[|r videos]|] eqn:Hrun;
    [congruence| |congruence].
  assert (Hok : Forall link_ok (r :: videos)).
  { assert (Hfit := returned_named_from_page E cfg w _ Hrun).
    apply Forall_forall. intros x Hx.
    rewrite Forall_forall in Hurls, Hfit.
    destruct (Hurls x Hx) as ((H1 & H2 & H3 & H4) & H5).
    destruct (named_from_page_fits_a_line E cfg x (Hfit x Hx)) as [H6 H7].
    repeat split; assumption. }
  assert (Hload := load_saved_links p (r :: videos)
                     (snd (scrape_videos E cfg w)) Hok).
  rewrite save_download_links_text in * by exact Hok.
  eexists. split; [reflexivity|exact Hload].
Qed.

Lemma main_then_load_links_witness :
  exists stored,
    fst (main Demo.flaky (Demo.cfg 100 103 [2; 3]%Z) Windows true None [])
    = (Returned tt, Some stored)
    /\ load_links (Some stored)
       = map pair_of
           (returned_videos Demo.flaky (Demo.cfg 100 103 [2; 3]%Z) []).
Proof.
  apply (main_then_load_links Demo.flaky (Demo.cfg 100 103 [2; 3]%Z)
           Windows None []).
  - vm_compute. discriminate.
  - vm_compute. repeat constructor.
Defined.

Lemma get_video_info_nothing_good E cfg v s e w :
  (forall n u, fails_retryably E cfg (session_get E n u) = true) ->
  fst (get_video_info E cfg v s e w) = None.
Proof.
  intros Hfail.
  destruct (fst (get_video_info E cfg v s e w)) as [[u name]|] eqn:Hinfo;
    [|reflexivity].
  destruct (attempts_some E cfg v s e _ w u name Hinfo)
    as (k & text & _ & _ & Hget & Hloaded & Hurl & Hu & _).
  assert (H := Hfail (requests w + k)%nat (BASE_URL cfg ++ str_of_int v)).
  rewrite Hget, (good_response_passes E cfg text u Hloaded Hurl Hu) in H.
  discriminate H.
Qed.

Lemma scrape_from_nothing_good E cfg ids :
  (forall n u, fails_retryably E cfg (session_get E n u) = true) ->
  forall videos s e w videos',
    fst (scrape_from E cfg ids videos s e w) = Returned videos' ->
    videos' = videos.
Proof.
  intros Hfail.
  induction ids as [|v ids IH]; intros videos s e w videos' Hrun.
  - now injection Hrun as <-.
  - rewrite scrape_from_cons in Hrun. cbv zeta in Hrun.
    rewrite (get_video_info_nothing_good E cfg v s e w Hfail) in Hrun.
    destruct (advance cfg s e) as [s' e'| |].
    + now apply IH in Hrun.
    + now injection Hrun as <-.
    + discriminate Hrun.
Qed.

(** X17. Without a good page nothing is written: when every answer of
    the site is a failure that may be retried (a status other than
    200, a short body, no URL in the body, a timeout or another
    exception), the run returns no record and [main] leaves the links
    file as it was, whether the run returns or raises. *)
Theorem main_writes_nothing_without_a_good_page E cfg p can_open file w :
  (forall n u, fails_retryably E cfg (session_get E n u) = true) ->
  returned_videos E cfg w = []
  /\ snd (fst (main E cfg p can_open file w)) = file.
Proof.
  intros Hfail.
  assert (Hnone : returned_videos E cfg w = []).
  { unfold returned_videos.
    destruct (fst (scrape_videos E cfg w)) as [videos|] eqn:Hrun;
      [|reflexivity].
    rewrite scrape_videos_unfold in Hrun.
    exact (scrape_from_nothing_good E cfg _ Hfail _ _ _ _ _ Hrun). }
  split; [exact Hnone|].
  rewrite main_unfold. unfold returned_videos in Hnone.
  destruct (fst (scrape_videos E cfg w)) as [videos|];
    [subst videos|]; reflexivity.
Qed.

Lemma main_writes_nothing_without_a_good_page_witness :
  returned_videos Demo.always_short (Demo.cfg 100 103 [2; 3]%Z) [] = []
  /\ snd (fst (main Demo.always_short (Demo.cfg 100 103 [2; 3]%Z) Posix true
                 (Some (lit "old")) []))
     = Some (lit "old").
Proof.
  apply (main_writes_nothing_without_a_good_page Demo.always_short
           (Demo.cfg 100 103 [2; 3]%Z) Posix true (Some (lit "old")) []).
  intros n u. reflexivity.
Defined.

(* ================================================================= *)
(** ** What the loader can load *)

Lemma translate_in_no_CR_upto n :
  forall s, (List.length s <= n)%nat -> ~ In CR (translate_in s).
Proof.
  induction n as [|n IH]; intros s Hlen.
  - destruct s; [intros []|cbn [List.length] in Hlen; lia].
  - destruct s as [|c s]; [intros []|]. cbn [List.length] in Hlen.
    cbn [translate_in]. destruct (chr_eqb c CR) eqn:Hc.
    + intros [H|H]; [discriminate H|].
      destruct s as [|d s]; [exact H|]. cbn [List.length] in Hlen.
      destruct (chr_eqb d LF); revert H; apply IH; cbn [List.length]; lia.
    + intros [H|H].
      * subst c. now rewrite (proj2 (chr_eqb_eq CR CR) eq_refl) in Hc.
      * revert H. apply IH. lia.
Qed.

Lemma translate_in_no_CR s : ~ In CR (translate_in s).
Proof. now apply (translate_in_no_CR_upto (List.length s)). Qed.

Lemma lstrip_incl s c : In c (lstrip s) -> In c s.
Proof.
  induction s as [|d s IH]; cbn [lstrip]; [auto|].
  destruct (isspace d); [|auto]. intros H. right. now apply IH.
Qed.

Lemma strip_incl s c : In c (strip s) -> In c s.
Proof.
  unfold strip, rstrip. intros H. apply in_rev in H.
  apply lstrip_incl in H. apply in_rev in H. now apply lstrip_incl.
Qed.

Lemma strip_ends_clean s : ends_clean (strip s) = true.
Proof.
  unfold strip, rstrip, ends_clean. rewrite rev_involutive.
  destruct (lstrip (rev (lstrip s))) as [|c r] eqn:Hl; [reflexivity|].
  apply lstrip_head in Hl. now rewrite Hl.
Qed.

Lemma split_on_lines sep s line :
  In line (split_on sep s) ->
  ~ In sep line /\ forall c, In c line -> In c s.
Proof.
  revert line. induction s as [|c s IH]; intros line; cbn [split_on].
  - intros [<-|[]]. split; [intros []|auto].
  - destruct (chr_eqb c sep) eqn:Hc.
    + intros [<-|H]; [split; [intros []|intros ? []]|].
      destruct (IH line H) as [H1 H2]. split; [exact H1|].
      intros d Hd. right. now apply H2.
    + destruct (split_on sep s) as [|l ls].
      * intros [<-|[]]. split; [|intros d [<-|[]]; now left].
        intros [H|[]]. subst c.
        now rewrite (proj2 (chr_eqb_eq sep sep) eq_refl) in Hc.
      * intros [<-|H].
        -- destruct (IH l (or_introl eq_refl)) as [H1 H2]. split.
           ++ intros [H|H]; [|now apply H1]. subst c.
              now rewrite (proj2 (chr_eqb_eq sep sep) eq_refl) in Hc.
           ++ intros d [<-|Hd]; [now left|right; now apply H2].
        -- destruct (IH line (or_intror H)) as [H1 H2]. split; [exact H1|].
           intros d Hd. right. now apply H2.
Qed.

Lemma skipn_incl {A} n (l : list A) x : In x (skipn n l) -> In x l.
Proof.
  intros H. rewrite <- (firstn_skipn n l). apply in_or_app. now right.
Qed.

Lemma skipn_ends_clean n s :
  ends_clean s = true -> ends_clean (skipn n s) = true.
Proof.
  intros H. destruct (skipn n s) as [|c r] eqn:Hs; [reflexivity|].
  rewrite <- (firstn_skipn n s), Hs in H. unfold ends_clean in *.
  rewrite rev_app_distr in H.
  destruct (rev (c :: r)) as [|d l] eqn:Hrev; [reflexivity|exact H].
Qed.

Lemma one_line_spec_in s :
  one_line s = true <-> ~ In LF s /\ ~ In CR s.
Proof.
  unfold one_line. rewrite forallb_forall. split.
  - intros H. split; intros Hin; specialize (H _ Hin);
      apply negb_true_iff, orb_false_iff in H; destruct H as [H1 H2];
      [now rewrite (proj2 (chr_eqb_eq LF LF) eq_refl) in H1
      |now rewrite (proj2 (chr_eqb_eq CR CR) eq_refl) in H2].
  - intros [H1 H2] c Hc. apply negb_true_iff, orb_false_iff.
    split; apply chr_eqb_neq; intros ->; contradiction.
Qed.

Lemma one_line_incl s t :
  (forall c, In c t -> In c s) -> one_line s = true -> one_line t = true.
Proof.
  intros Hincl Hs. apply one_line_spec_in in Hs. destruct Hs as [H1 H2].
  apply one_line_spec_in. split; intros H; apply Hincl in H; contradiction.
Qed.

Lemma parse_lines_entries lines :
  forall current_url download_links,
    Forall (fun line => one_line line = true) lines ->
    Forall entry_ok download_links ->
    (forall u, current_url = Some u ->
               startswith (lit "https://") u = true
               /\ one_line u = true /\ ends_clean u = true) ->
    Forall entry_ok (parse_lines lines current_url download_links).
Proof.
  induction lines as [|line lines IH]; intros current_url download_links
    Hlines Hacc Hcur; [exact Hacc|].
  inversion Hlines as [|? ? Hline Hrest]; subst.
  assert (Hone : one_line (strip line) = true)
    by (eapply one_line_incl; [apply strip_incl|exact Hline]).
  assert (Hend := strip_ends_clean line).
  cbn [parse_lines]. cbv zeta.
  destruct (startswith (lit "https://") (strip line)) eqn:Hurl.
  - apply IH; [exact Hrest|exact Hacc|].
    intros u Hu. injection Hu as <-. auto.
  - destruct (startswith (lit "out=") (strip line)) eqn:Hout;
      [|now apply IH].
    destruct current_url as [[|c current]|]; [now apply IH| |now apply IH].
    apply IH; [exact Hrest| |discriminate].
    apply Forall_app. split; [exact Hacc|]. constructor; [|constructor].
    destruct (Hcur _ eq_refl) as (H1 & H2 & H3).
    repeat split; cbn [fst snd]; try assumption.
    + eapply one_line_incl; [apply skipn_incl|exact Hone].
    + now apply skipn_ends_clean.
Qed.

Lemma load_links_entry_ok file : Forall entry_ok (load_links file).
Proof.
  destruct file as [stored|]; [|constructor]. cbn [load_links]. cbv zeta.
  apply parse_lines_entries; [|constructor|discriminate].
  apply Forall_forall. intros line Hline.
  apply split_on_lines in Hline. destruct Hline as [Hlf Hincl].
  apply one_line_spec_in. split; [exact Hlf|].
  intros Hcr. apply Hincl, strip_incl in Hcr.
  now apply translate_in_no_CR in Hcr.
Qed.

(** X18. Whatever the links file holds, every entry that [load_links]
    loads has a URL that starts with "https://", and neither its URL
    nor its file name holds a line feed or a carriage return or ends
    in whitespace. *)
Theorem load_links_entries file : Forall entry_ok (load_links file).
Proof. apply load_links_entry_ok. Qed.

(* ================================================================= *)
(** ** The download manager: IDM *)

Lemma commands_app a b : commands (a ++ b) = commands b ++ commands a.
Proof. unfold commands. now rewrite flat_map_app, rev_app_distr. Qed.

Lemma opened_app a b : opened (a ++ b) = opened b ++ opened a.
Proof. unfold opened. now rewrite flat_map_app, rev_app_distr. Qed.

Lemma copied_app a b : copied (a ++ b) = copied b ++ copied a.
Proof. unfold copied. now rewrite flat_map_app, rev_app_distr. Qed.

Lemma runs_app a b : runs (a ++ b) = (runs a + runs b)%nat.
Proof. unfold runs. now rewrite filter_app, length_app. Qed.

Lemma runs_commands d : runs d = List.length (commands d).
Proof.
  unfold runs, commands. rewrite length_rev.
  induction d as [|[] d IH]; cbn [filter is_subprocess flat_map app List.length];
    congruence.
Qed.

(** One round of the loop of [download_with_idm]. *)
Lemma idm_loop_cons K dest item items c d :
  idm_loop K dest (item :: items) c d
  = match subprocess_run K (runs d) (idm_command dest item) with
    | Completed returncode stderr =>
        idm_loop K dest items (if (returncode =? 0)%Z then c + 1 else c)%Z
          (Pause 500
           :: Note (if (returncode =? 0)%Z then INFO else WARNING)
                   (if (returncode =? 0)%Z then IdmQueued (snd item)
                    else IdmCommandFailed stderr)
           :: Subprocess (idm_command dest item) :: d)
    | FileNotFoundError =>
        (None,
         Note ERROR IdmNotFound :: Subprocess (idm_command dest item) :: d)
    | RunRaised =>
        idm_loop K dest items c
          (Note ERROR IdmError :: Subprocess (idm_command dest item) :: d)
    end.
Proof.
  cbn [idm_loop]. cbv zeta.
  destruct (subprocess_run K (runs d) (idm_command dest item))
    as [returncode stderr| |]; [|reflexivity|reflexivity].
  now destruct (returncode =? 0)%Z.
Qed.

Lemma idm_loop_trace K dest items :
  forall c d,
  exists added,
    snd (idm_loop K dest items c d) = added ++ d
    /\ match fst (idm_loop K dest items c d) with
       | Some _ => commands added = map (idm_command dest) items
       | None =>
           exists k, (k < List.length items)%nat
             /\ commands added = map (idm_command dest) (firstn (S k) items)
       end.
Proof.
  induction items as [|item items IH]; intros c d.
  - exists []. split; reflexivity.
  - rewrite idm_loop_cons.
    destruct (subprocess_run K (runs d) (idm_command dest item))
      as [returncode stderr| |].
    + match goal with |- context [idm_loop K dest items ?c' ?d'] =>
        destruct (IH c' d') as (added & Hd & Hc);
        exists (added ++ firstn 3 d')
      end.
      split; [rewrite Hd; cbn [firstn]; now rewrite <- app_assoc|].
      cbn [firstn]. rewrite commands_app.
      match goal with |- match fst ?x with _ => _ end =>
        destruct (fst x) end.
      * rewrite Hc. reflexivity.
      * destruct Hc as (k & Hk & Hc). exists (S k).
        split; [cbn [List.length]; lia|]. rewrite Hc. reflexivity.
    + eexists [_; _]. split; [reflexivity|].
      exists 0%nat. split; [cbn [List.length]; lia|reflexivity].
    + match goal with |- context [idm_loop K dest items ?c' ?d'] =>
        destruct (IH c' d') as (added & Hd & Hc);
        exists (added ++ firstn 2 d')
      end.
      split; [rewrite Hd; cbn [firstn]; now rewrite <- app_assoc|].
      cbn [firstn]. rewrite commands_app.
      match goal with |- match fst ?x with _ => _ end =>
        destruct (fst x) end.
      * rewrite Hc. reflexivity.
      * destruct Hc as (k & Hk & Hc). exists (S k).
        split; [cbn [List.length]; lia|]. rewrite Hc. reflexivity.
Qed.

(** X19. The commands [download_with_idm] runs are the commands of
    the links, one per link in the order of the list and each with
    the link's URL, its file name and the destination path, up to
    some link; the command that starts the queue is run only after
    the command of every link. *)
Theorem download_with_idm_commands K dest links d :
  exists added,
    snd (download_with_idm K dest links d) = added ++ d
    /\ ((exists k, commands added = map (idm_command dest) (firstn k links))
        \/ (links <> []
            /\ commands added = map (idm_command dest) links ++ [idm_start])).
Proof.
  unfold download_with_idm. destruct links as [|item links].
  - exists [Note WARNING NoLinks]. split; [reflexivity|].
    left. now exists 0%nat.
  - destruct (idm_loop_trace K dest (item :: links) 0
                (Note INFO IdmStarting :: d)) as (added & Hd & Hc).
    destruct (idm_loop K dest (item :: links) 0 (Note INFO IdmStarting :: d))
      as [[c|] d1]; cbn [fst snd] in Hd, Hc; subst d1.
    + assert (Hall : commands (Subprocess idm_start :: added
                               ++ [Note INFO IdmStarting])
                     = map (idm_command dest) (item :: links) ++ [idm_start]).
      { change (Subprocess idm_start :: added ++ [Note INFO IdmStarting])
          with ([Subprocess idm_start] ++ added ++ [Note INFO IdmStarting]).
        rewrite !commands_app, Hc. reflexivity. }
      destruct (subprocess_run K _ idm_start).
      * eexists (_ :: Subprocess idm_start :: added ++ [Note INFO IdmStarting]).
        split; [cbn [app]; now rewrite <- app_assoc|].
        right. split; [discriminate|exact Hall].
      * exists (Subprocess idm_start :: added ++ [Note INFO IdmStarting]).
        split; [cbn [app]; now rewrite <- app_assoc|].
        right. split; [discriminate|exact Hall].
      * exists (Subprocess idm_start :: added ++ [Note INFO IdmStarting]).
        split; [cbn [app]; now rewrite <- app_assoc|].
        right. split; [discriminate|exact Hall].
    + exists (added ++ [Note INFO IdmStarting]).
      split; [now rewrite <- app_assoc|].
      destruct Hc as (k & _ & Hc). left. exists (S k).
      rewrite commands_app, Hc. reflexivity.
Qed.

Lemma idm_loop_found K dest items :
  (forall n cmd, subprocess_run K n cmd <> FileNotFoundError) ->
  forall c d,
  exists added,
    idm_loop K dest items c d
    = (Some (c + len (queued K dest (runs d) items))%Z, added ++ d)
    /\ commands added = map (idm_command dest) items.
Proof.
  intros Hfound. induction items as [|item items IH]; intros c d.
  - exists []. split; [|reflexivity].
    cbn [idm_loop queued]. unfold len. cbn [List.length].
    now rewrite Z.add_0_r.
  - rewrite idm_loop_cons. cbn [queued].
    destruct (subprocess_run K (runs d) (idm_command dest item))
      as [returncode stderr| |] eqn:Hrun;
      [| now elim (Hfound _ _ Hrun) |].
    + match goal with |- context [idm_loop K dest items ?c' ?d'] =>
        destruct (IH c' d') as (added & Hloop & Hc);
        exists (added ++ firstn 3 d')
      end.
      rewrite Hloop. cbn [firstn]. rewrite commands_app, Hc.
      split; [|reflexivity]. rewrite <- app_assoc.
      change (runs (Pause 500 :: ?n :: Subprocess ?x :: d)) with (S (runs d)).
      f_equal. f_equal.
      destruct returncode as [|p|p]; cbn [Z.eqb]; unfold len;
        cbn [List.length]; lia.
    + match goal with |- context [idm_loop K dest items ?c' ?d'] =>
        destruct (IH c' d') as (added & Hloop & Hc);
        exists (added ++ firstn 2 d')
      end.
      rewrite Hloop. cbn [firstn]. rewrite commands_app, Hc.
      split; [|reflexivity]. now rewrite <- app_assoc.
Qed.

(** X20. With IDM in the PATH (no command answers with
    FileNotFoundError) and a list that is not empty,
    [download_with_idm] runs the command of every link, in the order
    of the list, and then the command that starts the queue. When
    that command returns, the method returns and the count it logs is
    the number of links whose command ended with the return code 0,
    out of the number of links; when it raises, the exception leaves
    the method. *)
Theorem download_with_idm_found K dest links d :
  (forall n cmd, subprocess_run K n cmd <> FileNotFoundError) ->
  links <> [] ->
  exists added,
    snd (download_with_idm K dest links d) = added ++ d
    /\ commands added = map (idm_command dest) links ++ [idm_start]
    /\ match subprocess_run K (runs d + List.length links) idm_start with
       | Completed _ _ =>
           fst (download_with_idm K dest links d) = Finished
           /\ hd_error added
              = Some (Note INFO
                        (IdmCompleted (len (queued K dest (runs d) links))
                                      (len links)))
       | _ => fst (download_with_idm K dest links d) = Escaped
       end.
Proof.
  intros Hfound Hne. unfold download_with_idm.
  destruct links as [|item links]; [congruence|].
  destruct (idm_loop_found K dest (item :: links) Hfound 0
              (Note INFO IdmStarting :: d)) as (added & Hloop & Hc).
  rewrite Hloop.
  change (runs (Note INFO IdmStarting :: d)) with (runs d).
  assert (Hruns : runs (added ++ Note INFO IdmStarting :: d)
                  = (runs d + List.length (item :: links))%nat).
  { rewrite runs_app, (runs_commands added), Hc, length_map.
    change (runs (Note INFO IdmStarting :: d)) with (runs d). lia. }
  rewrite Hruns.
  assert (Hall : commands (Subprocess idm_start :: added
                           ++ [Note INFO IdmStarting])
                 = map (idm_command dest) (item :: links) ++ [idm_start]).
  { change (Subprocess idm_start :: added ++ [Note INFO IdmStarting])
      with ([Subprocess idm_start] ++ added ++ [Note INFO IdmStarting]).
    rewrite !commands_app, Hc. reflexivity. }
  destruct (subprocess_run K _ idm_start) eqn:Hstart.
  - eexists (_ :: Subprocess idm_start :: added ++ [Note INFO IdmStarting]).
    split; [cbn [app snd]; now rewrite <- app_assoc|].
    split; [exact Hall|]. split; reflexivity.
  - now elim (Hfound _ _ Hstart).
  - exists (Subprocess idm_start :: added ++ [Note INFO IdmStarting]).
    split; [cbn [app snd]; now rewrite <- app_assoc|].
    split; [exact Hall|reflexivity].
Qed.

Lemma download_with_idm_found_witness :
  exists added,
    snd (download_with_idm
           (demo_desk (fun n => Completed (Z.of_nat (Nat.modulo n 2)) []))
           (lit "D:/v") demo_links [])
    = added ++ []
    /\ commands added
       = map (idm_command (lit "D:/v")) demo_links ++ [idm_start]
    /\ match subprocess_run
               (demo_desk (fun n => Completed (Z.of_nat (Nat.modulo n 2)) []))
               (runs [] + List.length demo_links) idm_start with
       | Completed _ _ =>
           fst (download_with_idm
                  (demo_desk
                     (fun n => Completed (Z.of_nat (Nat.modulo n 2)) []))
                  (lit "D:/v") demo_links [])
           = Finished
           /\ hd_error added
              = Some (Note INFO
                        (IdmCompleted
                           (len (queued
                                   (demo_desk
                                      (fun n =>
                                         Completed (Z.of_nat (Nat.modulo n 2))
                                                   []))
                                   (lit "D:/v") (runs []) demo_links))
                           (len demo_links)))
       | _ =>
           fst (download_with_idm
                  (demo_desk
                     (fun n => Completed (Z.of_nat (Nat.modulo n 2)) []))
                  (lit "D:/v") demo_links [])
           = Escaped
       end.
Proof.
  apply (download_with_idm_found
           (demo_desk (fun n => Completed (Z.of_nat (Nat.modulo n 2)) []))
           (lit "D:/v") demo_links []).
  - intros n cmd. discriminate.
  - discriminate.
Defined.

Lemma idm_loop_missing K dest items :
  forall k c d item,
    nth_error items k = Some item ->
    (forall i earlier, (i < k)%nat -> nth_error items i = Some earlier ->
       subprocess_run K (runs d + i) (idm_command dest earlier)
       <> FileNotFoundError) ->
    subprocess_run K (runs d + k) (idm_command dest item)
    = FileNotFoundError ->
    exists added,
      idm_loop K dest items c d = (None, Note ERROR IdmNotFound :: added ++ d)
      /\ commands added = map (idm_command dest) (firstn (S k) items).
Proof.
  induction items as [|first items IH]; intros k c d item Hk Hbefore Hmiss;
    [destruct k; discriminate Hk|].
  rewrite idm_loop_cons. destruct k as [|k].
  - injection Hk as ->. rewrite Nat.add_0_r in Hmiss. rewrite Hmiss.
    exists [Subprocess (idm_command dest item)]. split; reflexivity.
  - cbn [nth_error] in Hk.
    assert (Hfirst := Hbefore 0%nat first ltac:(lia) eq_refl).
    rewrite Nat.add_0_r in Hfirst.
    destruct (subprocess_run K (runs d) (idm_command dest first))
      as [returncode stderr| |]; [|congruence|].
    + match goal with |- context [idm_loop K dest items ?c' ?d'] =>
        destruct (IH k c' d' item Hk) as (added & Hloop & Hc);
        [| |exists (added ++ firstn 3 d')]
      end.
      * intros i earlier Hi Hnth.
        change (runs (Pause 500 :: ?n :: Subprocess ?x :: d)) with (S (runs d)).
        replace (S (runs d) + i)%nat with (runs d + S i)%nat by lia.
        apply Hbefore; [lia|exact Hnth].
      * change (runs (Pause 500 :: ?n :: Subprocess ?x :: d)) with (S (runs d)).
        replace (S (runs d) + k)%nat with (runs d + S k)%nat by lia.
        exact Hmiss.
      * rewrite Hloop. cbn [firstn]. rewrite commands_app, Hc.
        split; [|reflexivity]. now rewrite <- app_assoc.
    + match goal with |- context [idm_loop K dest items ?c' ?d'] =>
        destruct (IH k c' d' item Hk) as (added & Hloop & Hc);
        [| |exists (added ++ firstn 2 d')]
      end.
      * intros i earlier Hi Hnth.
        change (runs (?n :: Subprocess ?x :: d)) with (S (runs d)).
        replace (S (runs d) + i)%nat with (runs d + S i)%nat by lia.
        apply Hbefore; [lia|exact Hnth].
      * change (runs (?n :: Subprocess ?x :: d)) with (S (runs d)).
        replace (S (runs d) + k)%nat with (runs d + S k)%nat by lia.
        exact Hmiss.
      * rewrite Hloop. cbn [firstn]. rewrite commands_app, Hc.
        split; [|reflexivity]. now rewrite <- app_assoc.
Qed.

(** X21. When the command of a link answers with FileNotFoundError
    and no command before it did, [download_with_idm] logs that IDM
    was not found and returns: the commands it has run are those of
    the links up to that one, no command of a later link is run and
    the queue is not started. *)
Theorem download_with_idm_stops_when_missing K dest links d k item :
  nth_error links k = Some item ->
  (forall i earlier, (i < k)%nat -> nth_error links i = Some earlier ->
     subprocess_run K (runs d + i) (idm_command dest earlier)
     <> FileNotFoundError) ->
  subprocess_run K (runs d + k) (idm_command dest item) = FileNotFoundError ->
  exists added,
    download_with_idm K dest links d
    = (Finished, Note ERROR IdmNotFound :: added ++ d)
    /\ commands added = map (idm_command dest) (firstn (S k) links).
Proof.
  intros Hk Hbefore Hmiss. unfold download_with_idm.
  destruct links as [|first links]; [destruct k; discriminate Hk|].
  destruct (idm_loop_missing K dest (first :: links) k 0
              (Note INFO IdmStarting :: d) item Hk Hbefore Hmiss)
    as (added & Hloop & Hc).
  rewrite Hloop. exists (added ++ [Note INFO IdmStarting]).
  split; [now rewrite <- app_assoc|].
  rewrite commands_app, Hc. reflexivity.
Qed.

Lemma download_with_idm_stops_when_missing_witness :
  exists added,
    download_with_idm
      (demo_desk (fun n => if Nat.eqb n 1 then FileNotFoundError
                           else Completed 0 []))
      (lit "D:/v") demo_links []
    = (Finished, Note ERROR IdmNotFound :: added ++ [])
    /\ commands added
       = map (idm_command (lit "D:/v")) (firstn 2 demo_links).
Proof.
  apply (download_with_idm_stops_when_missing
           (demo_desk (fun n => if Nat.eqb n 1 then FileNotFoundError
                                else Completed 0 []))
           (lit "D:/v") demo_links [] 1
           (lit "https://x/b.mp4", lit "S01-E02-Demo.mp4")).
  - reflexivity.
  - intros i earlier Hi _. destruct i as [|i]; [discriminate|lia].
  - reflexivity.
Defined.

(* ================================================================= *)
(** ** The download manager: clipboard and browser *)

Lemma clipboard_text_lines items :
  forall text,
    clipboard_text items text
    = text ++ List.concat (map (fun item => fst item ++ [LF]) items).
Proof.
  induction items as [|item items IH]; intros text; cbn [clipboard_text map].
  - cbn [List.concat]. now rewrite app_nil_r.
  - rewrite IH. cbn [List.concat]. now rewrite <- !app_assoc.
Qed.

Lemma split_on_ended_lines (lines : list str) :
  Forall (fun l => ~ In LF l) lines ->
  split_on LF (List.concat (map (fun l => l ++ [LF]) lines)) = lines ++ [[]].
Proof.
  induction 1 as [|l lines Hl _ IH]; [reflexivity|].
  cbn [map List.concat app]. rewrite <- app_assoc. cbn [app].
  now rewrite split_on_line, IH.
Qed.

Lemma entry_ok_no_LF item : entry_ok item -> ~ In LF (fst item).
Proof.
  intros (_ & Hone & _). now apply one_line_spec_in in Hone.
Qed.

(** X22. Whatever the links file holds, when the list loaded from it
    is not empty [copy_to_clipboard] hands one text to the clipboard,
    and the lines of that text are the loaded URLs, one URL on each
    line in the order of the list, each ended by a line feed; with an
    empty list nothing is copied. *)
Theorem copy_to_clipboard_lines K file d :
  copied (snd (copy_to_clipboard K (load_links file) d))
  = copied d ++ match load_links file with
                | [] => []
                | _ :: _ => [clipboard_text (load_links file) []]
                end
  /\ split_on LF (clipboard_text (load_links file) [])
     = map fst (load_links file) ++ [[]].
Proof.
  split.
  - unfold copy_to_clipboard.
    destruct (load_links file) as [|item links];
      [now rewrite app_nil_r|].
    cbv zeta.
    destruct (pyperclip_copy K _); cbn [snd];
      match goal with |- copied (?n :: ?c :: d) = _ =>
        change (n :: c :: d) with ([n; c] ++ d) end;
      rewrite copied_app; reflexivity.
  - rewrite clipboard_text_lines. cbn [app].
    rewrite <- (map_map fst (fun u => u ++ [LF])).
    apply split_on_ended_lines. apply Forall_map.
    eapply Forall_impl; [|apply load_links_entry_ok].
    intros item. apply entry_ok_no_LF.
Qed.

Lemma visits_app a b : visits (a ++ b) = (visits a + visits b)%nat.
Proof. unfold visits. now rewrite filter_app, length_app. Qed.

Lemma pauses_app a b : pauses (a ++ b) = (pauses a + pauses b)%nat.
Proof. unfold pauses. now rewrite filter_app, length_app. Qed.

Lemma browser_loop_trace K items :
  forall c d,
  exists added,
    browser_loop K items c d
    = ((c + len (shown_from K (visits d) items))%Z, added ++ d)
    /\ opened added = map fst items
    /\ pauses added = List.length (shown_from K (visits d) items).
Proof.
  induction items as [|item items IH]; intros c d.
  - exists []. cbn [browser_loop shown_from]. unfold len. cbn [List.length].
    rewrite Z.add_0_r. repeat split.
  - cbn [browser_loop shown_from].
    destruct (webbrowser_open K (visits d) (fst item)).
    + match goal with |- context [browser_loop K items ?c' ?d'] =>
        destruct (IH c' d') as (added & Hloop & Ho & Hp);
        exists (added ++ firstn 3 d')
      end.
      rewrite Hloop. cbn [firstn].
      change (visits (Pause 1000 :: ?n :: Browser ?u :: d))
        with (S (visits d)) in *.
      rewrite opened_app, pauses_app, Ho, Hp, <- app_assoc.
      split; [|split].
      * f_equal. unfold len. cbn [List.length]. lia.
      * reflexivity.
      * change (pauses [Pause 1000; ?n; Browser ?u]) with 1%nat.
        cbn [List.length]. lia.
    + match goal with |- context [browser_loop K items ?c' ?d'] =>
        destruct (IH c' d') as (added & Hloop & Ho & Hp);
        exists (added ++ firstn 2 d')
      end.
      rewrite Hloop. cbn [firstn].
      change (visits (?n :: Browser ?u :: d)) with (S (visits d)) in *.
      rewrite opened_app, pauses_app, Ho, Hp, <- app_assoc.
      split; [|split]; try reflexivity.
      change (pauses [?n; Browser ?u]) with 0%nat. lia.
Qed.

(** X23. [open_in_browser] always returns, and it opens the URL of
    every link, in the order of the list and once each, also after
    an address that raised; it pauses once for every address that did
    not raise, and the count it logs is the number of those. *)
Theorem open_in_browser_opens_every_link K links d :
  exists added,
    open_in_browser K links d = (Finished, added ++ d)
    /\ opened added = map fst links
    /\ pauses added = List.length (shown_from K (visits d) links)
    /\ hd_error added
       = Some match links with
              | [] => Note WARNING NoLinks
              | _ :: _ =>
                  Note INFO (BrowserCompleted
                               (len (shown_from K (visits d) links))
                               (len links))
              end.
Proof.
  unfold open_in_browser. destruct links as [|item links].
  - exists [Note WARNING NoLinks]. repeat split.
  - destruct (browser_loop_trace K (item :: links) 0
                (Note INFO BrowserOpening :: d)) as (added & Hloop & Ho & Hp).
    rewrite Hloop.
    change (visits (Note INFO BrowserOpening :: d)) with (visits d) in *.
    eexists (_ :: added ++ [Note INFO BrowserOpening]).
    split; [cbn [app]; now rewrite <- app_assoc|].
    split; [|split].
    + match goal with |- opened (?n :: ?a) = _ =>
        change (opened (n :: a)) with (opened a) end.
      rewrite opened_app, Ho. reflexivity.
    + match goal with |- pauses (?n :: ?a) = _ =>
        change (pauses (n :: a)) with (pauses a) end.
      rewrite pauses_app, Hp.
      change (pauses [Note INFO BrowserOpening]) with 0%nat. lia.
    + reflexivity.
Qed.

(* ================================================================= *)
(** ** The main menu and the loader *)

Lemma count_behind_places_upto n :
  forall s, (List.length s <= n)%nat ->
    count_behind (lit "out=") 0 s = Z.of_nat (places (lit "out=") s).
Proof.
  change (lit "out=") with [111; 117; 116; 61]%N.
  induction n as [|n IH]; intros s Hlen.
  - destruct s; [reflexivity|cbn [List.length] in Hlen; lia].
  - destruct s as [|c0 s]; [reflexivity|]. cbn [List.length] in Hlen.
    cbn [count_behind places].
    destruct (startswith [111; 117; 116; 61]%N (c0 :: s)) eqn:Hstart.
    + destruct s as [|c1 [|c2 [|c3 r]]]; cbn [startswith] in Hstart;
        rewrite ?andb_false_r in Hstart; try discriminate Hstart.
      rewrite !andb_true_iff in Hstart.
      destruct Hstart as (H0 & H1 & H2 & H3 & _).
      apply chr_eqb_eq in H0, H1, H2, H3. subst c0 c1 c2 c3.
      cbn [List.length] in Hlen.
      cbn [List.length pred count_behind places].
      assert (Hno : forall c t, c <> 111%N ->
                startswith [111; 117; 116; 61]%N (c :: t) = false).
      { intros c t Hc. cbn [startswith].
        replace (chr_eqb 111%N c) with false; [reflexivity|].
        symmetry. apply chr_eqb_neq. congruence. }
      rewrite !Hno by discriminate.
      rewrite (IH r) by lia. cbn [Nat.add]. lia.
    + rewrite (IH s) by lia. cbn [Nat.add]. reflexivity.
Qed.

Lemma str_count_places s :
  str_count (lit "out=") s = Z.of_nat (places (lit "out=") s).
Proof. now apply (count_behind_places_upto (List.length s)). Qed.

Lemma startswith_app prefix s t :
  startswith prefix s = true -> startswith prefix (s ++ t) = true.
Proof.
  revert s. induction prefix as [|p prefix IH]; intros s; [reflexivity|].
  destruct s as [|c s]; cbn [startswith app]; [discriminate|].
  intros H. apply andb_true_iff in H. destruct H as [-> H].
  now rewrite IH.
Qed.

Lemma places_app sub a b :
  (places sub a + places sub b <= places sub (a ++ b))%nat.
Proof.
  induction a as [|c a IH]; cbn [places app Nat.add]; [lia|].
  destruct (startswith sub (c :: a)) eqn:Hstart.
  - change (c :: a ++ b) with ((c :: a) ++ b).
    rewrite (startswith_app _ _ b Hstart). lia.
  - destruct (startswith sub (c :: a ++ b)); lia.
Qed.

Lemma lstrip_suffix s : exists a, s = a ++ lstrip s.
Proof.
  induction s as [|c s [a IH]]; [now exists []|]. cbn [lstrip].
  destruct (isspace c); [|now exists []].
  exists (c :: a). cbn [app]. now f_equal.
Qed.

Lemma strip_middle s : exists a b, s = a ++ strip s ++ b.
Proof.
  unfold strip, rstrip.
  destruct (lstrip_suffix s) as [a Ha].
  destruct (lstrip_suffix (rev (lstrip s))) as [b Hb].
  exists a, (rev b). rewrite <- rev_app_distr, <- Hb, rev_involutive.
  exact Ha.
Qed.

Lemma places_strip sub s : (places sub (strip s) <= places sub s)%nat.
Proof.
  destruct (strip_middle s) as (a & b & Hs). rewrite Hs at 2.
  assert (H1 := places_app sub a (strip s ++ b)).
  assert (H2 := places_app sub (strip s) b). lia.
Qed.

Lemma split_on_join sep s : join [sep] (split_on sep s) = s.
Proof.
  induction s as [|c s IH]; [reflexivity|]. cbn [split_on].
  destruct (chr_eqb c sep) eqn:Hc.
  - apply chr_eqb_eq in Hc. subst c.
    destruct (split_on sep s) as [|l ls] eqn:Hsplit.
    + destruct s; cbn [split_on] in Hsplit; [discriminate|].
      destruct (chr_eqb _ sep); [discriminate|].
      destruct (split_on sep s); discriminate.
    + cbn [join app] in *. now rewrite IH.
  - destruct (split_on sep s) as [|l [|l' ls]].
    + cbn [join] in *. now subst s.
    + cbn [join] in *. now subst s.
    + cbn [join app] in *. now rewrite IH.
Qed.

Lemma places_join sub sep lines :
  (list_sum (map (places sub) lines) <= places sub (join sep lines))%nat.
Proof.
  induction lines as [|l lines IH]; [cbn; lia|].
  cbn [map list_sum fold_right].
  change (fold_right Nat.add 0%nat (map (places sub) lines))
    with (list_sum (map (places sub) lines)).
  destruct lines as [|l' lines].
  - cbn [join map list_sum fold_right]. lia.
  - change (join sep (l :: l' :: lines))
      with (l ++ sep ++ join sep (l' :: lines)).
    assert (H1 := places_app sub l (sep ++ join sep (l' :: lines))).
    assert (H2 := places_app sub sep (join sep (l' :: lines))). lia.
Qed.

Lemma out_line_place sub line :
  sub <> [] -> startswith sub (strip line) = true ->
  (1 <= places sub line)%nat.
Proof.
  intros Hsub Hstart. assert (H := places_strip sub line).
  destruct (strip line) as [|c s]; [destruct sub; [congruence|discriminate]|].
  cbn [places] in H. rewrite Hstart in H. lia.
Qed.

Lemma parse_lines_length lines :
  forall current_url download_links,
    (List.length (parse_lines lines current_url download_links)
     <= List.length download_links
        + list_sum (map (places (lit "out=")) lines))%nat.
Proof.
  induction lines as [|line lines IH]; intros current_url download_links.
  - cbn [parse_lines map list_sum fold_right]. lia.
  - cbn [parse_lines map list_sum fold_right]. cbv zeta.
    change (fold_right Nat.add 0%nat (map (places (lit "out=")) lines))
      with (list_sum (map (places (lit "out=")) lines)).
    destruct (startswith (lit "https://") (strip line));
      [etransitivity; [apply IH|lia]|].
    destruct (startswith (lit "out=") (strip line)) eqn:Hout;
      [|etransitivity; [apply IH|lia]].
    assert (Hplace := out_line_place (lit "out=") line ltac:(discriminate) Hout).
    destruct current_url as [[|c current]|];
      try (etransitivity; [apply IH|lia]).
    etransitivity; [apply IH|]. rewrite length_app. cbn [List.length]. lia.
Qed.

(** X24. The number of videos the main menu shows for a links file is
    never below the number of links the download manager loads from
    that file. *)
Theorem available_videos_covers_loaded_links file :
  (len (load_links file) <= available_videos file)%Z.
Proof.
  destruct file as [stored|]; [|reflexivity].
  unfold available_videos, load_links, len. cbv zeta.
  rewrite str_count_places. apply inj_le.
  etransitivity; [apply parse_lines_length|]. cbn [List.length Nat.add].
  etransitivity; [apply (places_join _ [LF])|].
  rewrite split_on_join. apply places_strip.
Qed.

(* ================================================================= *)
(** ** The requests for each identifier *)

Lemma str_of_int_inj a b : str_of_int a = str_of_int b -> a = b.
Proof.
  unfold str_of_int. intros H.
  rewrite <- (DecimalZ.of_to a), <- (DecimalZ.of_to b).
  destruct (Z.to_int a) as [u|u], (Z.to_int b) as [u'|u'].
  - apply (f_equal uint_of_digits) in H.
    rewrite !uint_of_digits_digits in H. now subst u'.
  - assert (Hd := digits_are_digits u). rewrite H in Hd. discriminate Hd.
  - assert (Hd := digits_are_digits u'). rewrite <- H in Hd. discriminate Hd.
  - injection H as H. apply (f_equal uint_of_digits) in H.
    rewrite !uint_of_digits_digits in H. now subst u'.
Qed.

Lemma requests_to_app cfg v w1 w2 :
  requests_to cfg v (w1 ++ w2)
  = (requests_to cfg v w1 + requests_to cfg v w2)%nat.
Proof. apply count_app. Qed.

Lemma fetch_requests_to cfg v v' new :
  forallb (fetch_event cfg v) new = true ->
  requests_to cfg v' new = if (v' =? v)%Z then requests new else 0%nat.
Proof.
  unfold requests_to, count, requests.
  induction new as [|x new IH]; cbn [forallb filter];
    [intros _; now destruct (v' =? v)%Z|].
  intros H. apply andb_true_iff in H. destruct H as [Hx Hnew].
  specialize (IH Hnew). destruct x as [u|low high|v0 html|lvl msg];
    cbn [is_request_to is_get]; try exact IH.
  cbn [fetch_event] in Hx. apply str_eqb_eq in Hx. subst u.
  destruct (Z.eqb_spec v' v) as [->|Hne].
  - rewrite (proj2 (str_eqb_eq _ _) eq_refl). cbn [List.length].
    now rewrite IH.
  - destruct (str_eqb (BASE_URL cfg ++ str_of_int v)
                      (BASE_URL cfg ++ str_of_int v')) eqn:Heq; [|exact IH].
    apply str_eqb_eq, app_inv_head, str_of_int_inj in Heq. congruence.
Qed.

(** The requests of [get_video_info] go to the page of its
    identifier. *)
Lemma get_video_info_requests_to E cfg v s e w :
  exists new,
    snd (get_video_info E cfg v s e w) = new ++ w
    /\ ((if (0 <? MAX_RETRIES cfg)%Z then 1 else 0)
        <= requests_to cfg v new <= Z.to_nat (MAX_RETRIES cfg))%nat
    /\ forall v', v' <> v -> requests_to cfg v' new = 0%nat.
Proof.
  destruct (emits_attempts_from E cfg v s e (range 0 (MAX_RETRIES cfg)) w)
    as (new & Hnew & Hfetch).
  fold (get_video_info E cfg v s e) in Hnew.
  exists new. split; [exact Hnew|].
  assert (Hbound := get_video_info_requests_between E cfg v s e w).
  rewrite Hnew in Hbound.
  assert (Happ : requests (new ++ w) = (requests new + requests w)%nat)
    by apply (count_app is_get).
  split.
  - rewrite (fetch_requests_to cfg v v new Hfetch), Z.eqb_refl. lia.
  - intros v' Hne. rewrite (fetch_requests_to cfg v v' new Hfetch).
    now destruct (Z.eqb_spec v' v).
Qed.

Lemma cursor_walk_ids cfg ids s e x :
  In x (map fst (cursor_walk cfg ids s e)) -> In x ids.
Proof.
  intros Hx. destruct (cursor_walk_prefix cfg ids s e) as [rest Hrest].
  rewrite Hrest. apply in_or_app. now left.
Qed.

Lemma scrape_from_requests_to E cfg ids :
  NoDup ids ->
  forall videos s e w,
  exists new,
    snd (scrape_from E cfg ids videos s e w) = new ++ w
    /\ forall v,
         (In v (map fst (cursor_walk cfg ids s e)) ->
          ((if (0 <? MAX_RETRIES cfg)%Z then 1 else 0)
           <= requests_to cfg v new <= Z.to_nat (MAX_RETRIES cfg))%nat)
         /\ (~ In v (map fst (cursor_walk cfg ids s e)) ->
             requests_to cfg v new = 0%nat).
Proof.
  induction 1 as [|v ids Hv Hids IH]; intros videos s e w.
  - exists [Log INFO (MsgCompleted (len videos))]. split; [reflexivity|].
    intros v. split; [intros []|reflexivity].
  - rewrite scrape_from_cons. cbv zeta. cbn [cursor_walk map fst].
    destruct (get_video_info_requests_to E cfg v s e w)
      as (n1 & Hn1 & Hmine & Hothers).
    rewrite Hn1.
    set (line := match fst (get_video_info E cfg v s e w) with
                 | Some (_, name) => Log INFO (MsgFound name)
                 | None => Log WARNING (MsgFailed v)
                 end).
    assert (Hw2 : match fst (get_video_info E cfg v s e w) with
                  | Some (_, name) => Log INFO (MsgFound name) :: n1 ++ w
                  | None => Log WARNING (MsgFailed v) :: n1 ++ w
                  end = (line :: n1) ++ w)
      by (unfold line; destruct (fst (get_video_info E cfg v s e w))
            as [[u name]|]; reflexivity).
    rewrite Hw2.
    assert (Hline : forall v', requests_to cfg v' (line :: n1)
                               = requests_to cfg v' n1)
      by (intros v'; unfold line;
          destruct (fst (get_video_info E cfg v s e w)) as [[u name]|];
          reflexivity).
    destruct (advance cfg s e) as [s' e'| |].
    + match goal with
      | |- context [scrape_from E cfg ids ?vs s' e' ?w'] =>
          destruct (IH vs s' e' w') as (rest & Hrest & Hcount)
      end.
      exists (rest ++ Sleep (MIN_DELAY cfg) (MAX_DELAY cfg)
                   :: Log INFO MsgWaiting :: line :: n1).
      split; [rewrite Hrest, <- app_assoc; reflexivity|].
      intros v'. rewrite requests_to_app.
      change (requests_to cfg v' (Sleep (MIN_DELAY cfg) (MAX_DELAY cfg)
                                  :: Log INFO MsgWaiting :: line :: n1))
        with (requests_to cfg v' (line :: n1)).
      rewrite Hline. destruct (Hcount v') as [Hin Hout].
      destruct (Z.eq_dec v' v) as [->|Hne].
      * assert (Hnot : ~ In v (map fst (cursor_walk cfg ids s' e')))
          by (intros Hin'; apply Hv; eapply cursor_walk_ids; exact Hin').
        rewrite (Hout Hnot). split; [intros _; lia|].
        intros Habs. elim Habs. now left.
      * rewrite (Hothers v' Hne). split.
        -- intros [Heq|Hin']; [congruence|]. specialize (Hin Hin'). lia.
        -- intros Hnot. rewrite Hout; [reflexivity|].
           intros Hin'. apply Hnot. now right.
    + exists (Log INFO (MsgCompleted
                          (len match fst (get_video_info E cfg v s e w) with
                               | Some (video_url, name) =>
                                   videos
                                   ++ [{| url := video_url; filename := name;
                                          video_id := v; season := s;
                                          episode := e |}]
                               | None => videos
                               end))
              :: Log WARNING MsgSeasonExceeded :: line :: n1).
      split; [reflexivity|]. intros v'.
      match goal with |- context [requests_to cfg v' (?a :: ?b :: line :: n1)] =>
        change (requests_to cfg v' (a :: b :: line :: n1))
          with (requests_to cfg v' (line :: n1)) end.
      rewrite Hline. destruct (Z.eq_dec v' v) as [->|Hne].
      * split; [intros _; exact Hmine|]. intros Habs. elim Habs. now left.
      * rewrite (Hothers v' Hne). split; [|reflexivity].
        intros [Heq|[]]. congruence.
    + exists (line :: n1). split; [reflexivity|]. intros v'.
      rewrite Hline. destruct (Z.eq_dec v' v) as [->|Hne].
      * split; [intros _; exact Hmine|]. intros Habs. elim Habs. now left.
      * rewrite (Hothers v' Hne). split; [|reflexivity].
        intros [Heq|[]]. congruence.
Qed.

(** X9. A run makes at most [MAX_RETRIES] requests to the page of any
    one identifier and none to the page of an identifier that it does
    not reach; and when the pacing window is one of delays that
    [time.sleep] takes, it makes at least one request to the page of
    each identifier that it reaches if [MAX_RETRIES] is positive. *)
Theorem scrape_videos_requests_per_identifier E cfg w :
  exists new,
    snd (scrape_videos E cfg w) = new ++ w
    /\ (forall v, (requests_to cfg v new <= Z.to_nat (MAX_RETRIES cfg))%nat)
    /\ (forall v, ~ In v (reached cfg) -> requests_to cfg v new = 0%nat)
    /\ (sleep_returns (MIN_DELAY cfg) (MAX_DELAY cfg) ->
        forall v, In v (reached cfg) ->
          ((if (0 <? MAX_RETRIES cfg)%Z then 1 else 0)
           <= requests_to cfg v new)%nat).
Proof.
  rewrite scrape_videos_unfold.
  destruct (scrape_from_requests_to E cfg
              (range (START_VIDEO_ID cfg) (END_VIDEO_ID cfg + 1))
              (sorted_NoDup _ (range_sorted _ _)) []
              (STARTING_SEASON cfg) (STARTING_EPISODE cfg)
              (Log INFO (MsgStarting (START_VIDEO_ID cfg) (END_VIDEO_ID cfg))
               :: w)) as (new & Hnew & Hcount).
  fold (cursors cfg) in Hcount. fold (reached cfg) in Hcount.
  exists (new ++ [Log INFO (MsgStarting (START_VIDEO_ID cfg)
                                         (END_VIDEO_ID cfg))]).
  split; [rewrite Hnew, <- app_assoc; reflexivity|].
  assert (Hsame : forall v,
            requests_to cfg v
              (new ++ [Log INFO (MsgStarting (START_VIDEO_ID cfg)
                                             (END_VIDEO_ID cfg))])
            = requests_to cfg v new).
  { intros v. rewrite requests_to_app.
    change (requests_to cfg v [Log INFO (MsgStarting (START_VIDEO_ID cfg)
                                                     (END_VIDEO_ID cfg))])
      with 0%nat. lia. }
  split; [|split].
  - intros v. rewrite Hsame. destruct (Hcount v) as [Hin Hout].
    destruct (in_dec Z.eq_dec v (reached cfg)) as [Hv|Hv].
    + specialize (Hin Hv). lia.
    + rewrite (Hout Hv). lia.
  - intros v Hv. rewrite Hsame. now apply (Hcount v).
  - intros _ v Hv. rewrite Hsame. destruct (Hcount v) as [Hin _].
    specialize (Hin Hv). lia.
Qed.

Lemma scrape_videos_requests_per_identifier_witness :
  exists new,
    snd (scrape_videos Demo.flaky (Demo.cfg 100 102 [2]%Z) []) = new ++ []
    /\ (forall v, (requests_to (Demo.cfg 100 102 [2]%Z) v new <= 3)%nat)
    /\ (forall v, In v (reached (Demo.cfg 100 102 [2]%Z)) ->
          (1 <= requests_to (Demo.cfg 100 102 [2]%Z) v new)%nat).
Proof.
  destruct (scrape_videos_requests_per_identifier Demo.flaky
              (Demo.cfg 100 102 [2]%Z) []) as (new & Hnew & Hmost & _ & Hleast).
  exists new. split; [exact Hnew|]. split; [exact Hmost|].
  apply Hleast. vm_compute. repeat split; discriminate.
Defined.
